(** * PixSort: the asynchronous thumbnail pipeline of [image_sorter.py]

    A shallow embedding of the cache key derivation, the cache janitor,
    the thumbnail worker and the completion poller of
    [src/image_sorter.py], with the properties the specification states
    about them; and of the grid layout, the drag and drop reordering, the
    zoom and the renaming of the same file, with further properties of
    the code.

    Conventions.
    - A Python [str] is a Rocq [string] holding its UTF-8 bytes, so that
      [s.encode("utf-8")] is the list of the string's bytes.
    - A Python [int] is a [Z].
    - PIL images are terms of a small algebra recording how an image was
      obtained (decoded, resized, read from the cache, freshly created).
    - Canvas coordinates are whole pixels, so that the float divisions of
      the pointer functions are exact.
    - The files that a rename moves are a finite map from paths to
      contents; [os.rename] takes the platform's behaviour on an existing
      target as a parameter. *)

From Stdlib Require Import ZArith List String Ascii Bool Lia.
From Stdlib Require Import Permutation Sorted DecimalString DecimalZ.
From Stdlib Require DecimalPos DecimalN DecimalFacts.
From stdpp Require Import gmap strings.
Import ListNotations.

Local Open Scope Z_scope.
Local Open Scope string_scope.

(** ** Python text helpers *)

(** [str(n)] for a Python int: decimal digits, a leading minus sign for
    negative numbers. *)
Definition py_str_int (n : Z) : string :=
  NilZero.string_of_int (Z.to_int n).

(** [s.encode("utf-8")] as a list of byte values. *)
Definition encode_utf8 (s : string) : list Z :=
  map (fun c => Z.of_N (N_of_ascii c)) (list_ascii_of_string s).

(** [s.endswith(suffix)] *)
Definition endswith (s suffix : string) : bool :=
  let n := String.length s in
  let k := String.length suffix in
  (k <=? n)%nat && String.eqb (substring (n - k) k s) suffix.

(** ASCII part of [str.lower()]: only the letters A-Z change. *)
Definition lower_ascii (c : ascii) : ascii :=
  let n := nat_of_ascii c in
  if ((65 <=? n) && (n <=? 90))%nat then ascii_of_nat (n + 32) else c.

Fixpoint lower (s : string) : string :=
  match s with
  | EmptyString => EmptyString
  | String c r => String (lower_ascii c) (lower r)
  end.

(** [os.path.join(a, b)] for a relative [b] (POSIX flavour). *)
Definition path_join (a b : string) : string :=
  if String.eqb a "" then b
  else if endswith a "/" then a ++ b
  else a ++ "/" ++ b.

(** ** SHA-256 ([hashlib.sha256], FIPS 180-4) on 32-bit words in [Z] *)

Module SHA256.

Definition modulus : Z := 2 ^ 32.

Definition add32 (x y : Z) : Z := (x + y) mod modulus.

Definition rotr (n x : Z) : Z :=
  Z.lor (Z.shiftr x n) (Z.shiftl x (32 - n) mod modulus).

Definition not32 (x : Z) : Z := Z.lxor x (modulus - 1).

Definition Ch (x y z : Z) : Z :=
  Z.lxor (Z.land x y) (Z.land (not32 x) z).

Definition Maj (x y z : Z) : Z :=
  Z.lxor (Z.lxor (Z.land x y) (Z.land x z)) (Z.land y z).

Definition Sigma0 (x : Z) : Z :=
  Z.lxor (Z.lxor (rotr 2 x) (rotr 13 x)) (rotr 22 x).

Definition Sigma1 (x : Z) : Z :=
  Z.lxor (Z.lxor (rotr 6 x) (rotr 11 x)) (rotr 25 x).

Definition sigma0 (x : Z) : Z :=
  Z.lxor (Z.lxor (rotr 7 x) (rotr 18 x)) (Z.shiftr x 3).

Definition sigma1 (x : Z) : Z :=
  Z.lxor (Z.lxor (rotr 17 x) (rotr 19 x)) (Z.shiftr x 10).

(** The first 64 prime numbers. *)
Definition is_prime (n : nat) : bool :=
  forallb (fun d => negb (Nat.eqb (n mod d) 0)) (seq 2 (n - 2)).

Definition primes : list Z :=
  map Z.of_nat (List.filter is_prime (seq 2 310)).

(** The integer part of the cube root of [x], found bit by bit below
    bit [n]. *)
Fixpoint cube_root (n : nat) (x r : Z) : Z :=
  match n with
  | O => r
  | S k =>
      let c := r + 2 ^ Z.of_nat k in
      if (c * c * c <=? x)%Z then cube_root k x c else cube_root k x r
  end.

(** The round constants: the first 32 bits of the fractional parts of the
    cube roots of the first 64 primes. *)
Definition K : list Z :=
  map (fun p => cube_root 40 (p * 2 ^ 96) 0 mod modulus) primes.

(** The initial hash value: the first 32 bits of the fractional parts of
    the square roots of the first 8 primes. *)
Definition H0 : list Z :=
  map (fun p => Z.sqrt (p * 2 ^ 64) mod modulus) (firstn 8 primes).

(** Big-endian bytes of [x], [n] of them. *)
Fixpoint be_bytes (n : nat) (x : Z) : list Z :=
  match n with
  | O => []
  | S k => (Z.shiftr x (8 * Z.of_nat k)) mod 256 :: be_bytes k x
  end.

(** Padding: the byte 0x80, zero bytes up to 56 modulo 64, then the
    message length in bits as a 64-bit big-endian number. *)
Definition pad (msg : list Z) : list Z :=
  let len := Z.of_nat (length msg) in
  let zeros := Z.to_nat ((55 - len) mod 64) in
  msg ++ 0x80 :: repeat 0 zeros ++ be_bytes 8 (8 * len).

Fixpoint chunks (n : nat) (bytes : list Z) : list (list Z) :=
  match n with
  | O => []
  | S k => firstn 64 bytes :: chunks k (skipn 64 bytes)
  end.

Definition be_word (b : list Z) : Z :=
  fold_left (fun acc x => acc * 256 + x) b 0.

Fixpoint words (n : nat) (bytes : list Z) : list Z :=
  match n with
  | O => []
  | S k => be_word (firstn 4 bytes) :: words k (skipn 4 bytes)
  end.

(** The message schedule, most recent word first while it is built. *)
Fixpoint extend (n : nat) (rev_w : list Z) : list Z :=
  match n with
  | O => rev_w
  | S k =>
      let w :=
        add32 (add32 (sigma1 (nth 1 rev_w 0)) (nth 6 rev_w 0))
              (add32 (sigma0 (nth 14 rev_w 0)) (nth 15 rev_w 0)) in
      extend k (w :: rev_w)
  end.

Definition schedule (block : list Z) : list Z :=
  rev (extend 48 (rev (words 16 block))).

Record regs : Type :=
  Regs { ra : Z; rb : Z; rc : Z; rd : Z; re : Z; rf : Z; rg : Z; rh : Z }.

Definition round (s : regs) (kw : Z * Z) : regs :=
  let t1 :=
    add32 (add32 (add32 (rh s) (Sigma1 (re s))) (Ch (re s) (rf s) (rg s)))
          (add32 (fst kw) (snd kw)) in
  let t2 := add32 (Sigma0 (ra s)) (Maj (ra s) (rb s) (rc s)) in
  Regs (add32 t1 t2) (ra s) (rb s) (rc s) (add32 (rd s) t1) (re s) (rf s) (rg s).

Definition of_list (h : list Z) : regs :=
  Regs (nth 0 h 0) (nth 1 h 0) (nth 2 h 0) (nth 3 h 0)
       (nth 4 h 0) (nth 5 h 0) (nth 6 h 0) (nth 7 h 0).

Definition to_list (s : regs) : list Z :=
  [ra s; rb s; rc s; rd s; re s; rf s; rg s; rh s].

Definition compress (h : list Z) (block : list Z) : list Z :=
  let s := fold_left round (combine K (schedule block)) (of_list h) in
  map (fun p => add32 (fst p) (snd p)) (combine h (to_list s)).

(** The digest as eight 32-bit words. *)
Definition digest (msg : list Z) : list Z :=
  let p := pad msg in
  fold_left compress (chunks (length p / 64) p) H0.

Definition hex_digit (d : Z) : ascii :=
  match String.get (Z.to_nat d) "0123456789abcdef" with
  | Some c => c
  | None => "0"%char
  end.

Fixpoint hex_word (n : nat) (x : Z) : string :=
  match n with
  | O => EmptyString
  | S k => String (hex_digit (Z.shiftr x (4 * Z.of_nat k) mod 16)) (hex_word k x)
  end.

Definition hex_words (ws : list Z) : string :=
  fold_right (fun x acc => hex_word 8 x ++ acc) EmptyString ws.

(** [hashlib.sha256(msg).hexdigest()] *)
Definition hexdigest (msg : list Z) : string := hex_words (digest msg).

End SHA256.

(** ** Cache key derivation: [_cache_key] *)

(** [True] when the text holds the separator character of the key text. *)
Fixpoint contains_bar (s : string) : bool :=
  match s with
  | EmptyString => false
  | String c r => Ascii.eqb c "|" || contains_bar r
  end.

Section CacheKey.

(** The modification time is a Python float; the text that an f-string
    gives for it comes from the interpreter, not from this program. *)
Context {pyfloat : Type} (float_str : pyfloat -> string).

(** [f"{abs_path}|{mtime}|{file_size}"] *)
Definition cache_key_text (abs_path : string) (mtime : pyfloat) (file_size : Z)
  : string :=
  abs_path ++ "|" ++ float_str mtime ++ "|" ++ py_str_int file_size.

Definition _cache_key (abs_path : string) (mtime : pyfloat) (file_size : Z)
  : string :=
  SHA256.hexdigest (encode_utf8 (cache_key_text abs_path mtime file_size)).

End CacheKey.

(** Rendering of a float holding a whole number of seconds below 10^16,
    as in [str(1700000000.0)]. *)
Definition whole_seconds_str (secs : Z) : string := py_str_int secs ++ ".0".

(** ** Cache janitor: [_cleanup_cache] *)

Module Janitor.

(** A tuple [(fp, st.st_size, st.st_mtime)] of the list [files].  The
    modification time is a float that the code only compares; it is kept
    as its position on the time line. *)
Definition file_info : Type := (string * Z * Z)%type.

Definition fi_path (f : file_info) : string := fst (fst f).
Definition fi_size (f : file_info) : Z := snd (fst f).
Definition fi_mtime (f : file_info) : Z := snd f.

(** The cache directory as the operating system shows it. *)
Record filesystem : Type := FileSystem {
  os_listdir : option (list string);     (* names in the directory; [None]: raises *)
  os_stat : string -> option (Z * Z);    (* path to (st_size, st_mtime); [None]: raises *)
  os_remove_ok : string -> bool          (* whether [os.remove(path)] succeeds *)
}.

(** The [for name in os.listdir(cache_dir)] loop; [None] when [os.stat]
    raises, which makes [_cleanup_cache] return at once. *)
Fixpoint collect (fs : filesystem) (cache_dir : string) (names : list string)
    (files : list file_info) : option (list file_info) :=
  match names with
  | [] => Some files
  | name :: rest =>
      if negb (endswith name ".jpg") then collect fs cache_dir rest files
      else
        let fp := path_join cache_dir name in
        match os_stat fs fp with
        | None => None
        | Some (size, mtime) =>
            collect fs cache_dir rest (files ++ [(fp, size, mtime)])%list
        end
  end.

Definition scan (fs : filesystem) (cache_dir : string) : option (list file_info) :=
  match os_listdir fs with
  | None => None
  | Some names => collect fs cache_dir names []
  end.

(** [sum(size for _, size, _ in files)] *)
Definition total_size (files : list file_info) : Z :=
  fold_right (fun f acc => fi_size f + acc) 0 files.

(** [files.sort(key=lambda x: x[2])]: ascending, and stable as Python's
    sort is. *)
Fixpoint insert_by_mtime (f : file_info) (sorted : list file_info)
    : list file_info :=
  match sorted with
  | [] => [f]
  | g :: rest =>
      if (fi_mtime f <=? fi_mtime g)%Z then f :: g :: rest
      else g :: insert_by_mtime f rest
  end.

Definition sort_by_mtime (files : list file_info) : list file_info :=
  fold_right insert_by_mtime [] files.

(** [os.remove(fp)] when it succeeds: the name of that path leaves the
    directory. *)
Definition os_remove (cache_dir fp : string) (fs : filesystem) : filesystem :=
  {| os_listdir :=
       option_map
         (filter (fun name => negb (String.eqb (path_join cache_dir name) fp)))
         (os_listdir fs);
     os_stat := os_stat fs;
     os_remove_ok := os_remove_ok fs |}.

(** The deletion loop over the sorted files.  Returns the file system
    after it and the files removed, in the order of their removal. *)
Fixpoint delete_loop (cache_dir : string) (max_bytes : Z)
    (files : list file_info) (total : Z) (fs : filesystem)
    : filesystem * list file_info :=
  match files with
  | [] => (fs, [])
  | f :: rest =>
      if (total <=? max_bytes)%Z then (fs, [])
      else if os_remove_ok fs (fi_path f) then
        let (fs', removed) :=
          delete_loop cache_dir max_bytes rest (total - fi_size f)
                      (os_remove cache_dir (fi_path f) fs) in
        (fs', f :: removed)
      else delete_loop cache_dir max_bytes rest total fs
  end.

Definition _cleanup_cache (cache_dir : string) (max_bytes : Z) (fs : filesystem)
    : filesystem * list file_info :=
  match scan fs cache_dir with
  | None => (fs, [])
  | Some files =>
      let total := total_size files in
      if (total <=? max_bytes)%Z then (fs, [])
      else delete_loop cache_dir max_bytes (sort_by_mtime files) total fs
  end.

(** The [.jpg] names left in a directory listing, and their total size. *)
Definition cache_names (fs : filesystem) : list string :=
  match os_listdir fs with
  | None => []
  | Some names => filter (fun name => endswith name ".jpg") names
  end.

Definition other_names (fs : filesystem) : list string :=
  match os_listdir fs with
  | None => []
  | Some names => filter (fun name => negb (endswith name ".jpg")) names
  end.

Definition size_of (fs : filesystem) (cache_dir name : string) : Z :=
  match os_stat fs (path_join cache_dir name) with
  | Some (size, _) => size
  | None => 0
  end.

Definition cache_total (fs : filesystem) (cache_dir : string) : Z :=
  fold_right (fun name acc => size_of fs cache_dir name + acc) 0 (cache_names fs).

End Janitor.

(** ** PIL images *)

Inductive mode : Type := RGB | RGBA | OtherMode.

Definition color : Type := (Z * Z * Z)%type.

(** An image is the record of how it was made.  The PIL calls are taken
    to accept the sizes they are given; the program passes [THUMB_SIZES]. *)
Inductive image : Type :=
| Pixels (id : N) (m : mode)             (* pixels decoded from a file *)
| Thumbnail (src : image) (bound : Z)    (* [src.copy()] then [thumbnail((bound, bound), LANCZOS)] *)
| Solid (w h : Z) (c : color)            (* [Image.new("RGB", (w, h), c)] *)
| Flattened (img : image) (bg : color)   (* RGBA pasted over [Image.new("RGB", img.size, bg)] *)
| Converted (img : image)                (* [img.convert("RGB")] *)
| JpegOf (img : image).                  (* read back from the JPEG saved from [img] *)

Fixpoint image_mode (img : image) : mode :=
  match img with
  | Pixels _ m => m
  | Thumbnail src _ => image_mode src
  | Solid _ _ _ => RGB
  | Flattened _ _ => RGB
  | Converted _ => RGB
  | JpegOf _ => RGB
  end.

Definition THUMB_SIZES : list Z := [80; 150; 250].
Definition THUMB_SIZE_DEFAULT_INDEX : nat := 1.
Definition CACHE_MAX_BYTES : Z := 200 * 1024 * 1024.
Definition POLL_INTERVAL_MS : Z := 16.

(** The placeholder of the worker and of the poller:
    [Image.new("RGB", (size, size), (80, 80, 80))]. *)
Definition placeholder (size : Z) : image := Solid size size (80, 80, 80).

(** [os.path.basename(path)] (POSIX flavour): what follows the last slash. *)
Fixpoint basename_from (acc s : string) : string :=
  match s with
  | EmptyString => acc
  | String c r =>
      if Ascii.eqb c "/" then basename_from EmptyString r
      else basename_from (acc ++ String c EmptyString) r
  end.

Definition basename (path : string) : string := basename_from EmptyString path.

(** ** Disk cache store and thumbnail worker *)

(** A file of the cache directory: [Image.open] and [load] succeed on a
    readable one and raise on a corrupt one. *)
Inductive cache_file : Type :=
| Readable (img : image)
| Corrupt.

(** The calls that touch the disk, in the order they are made. *)
Inductive event : Type :=
| EvStat (path : string)          (* [os.stat(path)] on the source *)
| EvCacheExists (path : string)   (* [os.path.exists(path)] in [_cache_get] *)
| EvCacheOpen (path : string)     (* [Image.open(path)] and [load] in [_cache_get] *)
| EvSourceOpen (path : string)    (* [Image.open(path)] and [load] on the source *)
| EvCacheSave (path : string).    (* [img.save(path, "JPEG", quality=90)] *)

Definition is_source_open (e : event) : bool :=
  match e with
  | EvSourceOpen _ => true
  | _ => false
  end.

(** The cache directory, and the trace of the calls made so far. *)
Record disk : Type := Disk {
  cache_files : gmap string cache_file;
  trace : list event
}.

Definition log (e : event) (d : disk) : disk :=
  {| cache_files := cache_files d; trace := (trace d ++ [e])%list |}.

(** [f"{key}_{thumb_size}.jpg"] *)
Definition cache_file_name (key : string) (thumb_size : Z) : string :=
  key ++ "_" ++ py_str_int thumb_size ++ ".jpg".

Definition _cache_get (cache_dir key : string) (thumb_size : Z) (d : disk)
    : option image * disk :=
  let path := path_join cache_dir (cache_file_name key thumb_size) in
  let d1 := log (EvCacheExists path) d in
  match cache_files d !! path with
  | None => (None, d1)
  | Some file =>
      let d2 := log (EvCacheOpen path) d1 in
      match file with
      | Readable img => (Some img, d2)
      | Corrupt => (None, d2)
      end
  end.

Section Worker.

Context {pyfloat : Type} (float_str : pyfloat -> string).

(** What the worker reads from its surroundings. *)
Record env : Type := Env {
  stat_source : string -> option (pyfloat * Z);   (* [(st_mtime, st_size)]; [None]: raises *)
  abspath : string -> string;                     (* [os.path.abspath] *)
  open_source : string -> option image;           (* decoded source; [None]: raises *)
  save_ok : string -> bool;                       (* whether [img.save(path, ...)] succeeds *)
  save_damages : string -> bool                   (* whether a save that fails leaves a truncated file *)
}.

(** [_cache_put]: the exception of a failed save is swallowed.
    [img.save] opens its target for writing before it encodes, so a save
    that fails after that leaves a truncated file at the path, which no
    longer decodes; a failure before that leaves the path as it was. *)
Definition _cache_put (e : env) (cache_dir key : string) (thumb_size : Z)
    (pil_image : image) (d : disk) : disk :=
  let img :=
    match image_mode pil_image with
    | RGBA => Flattened pil_image (43, 43, 43)
    | RGB => pil_image
    | OtherMode => Converted pil_image
    end in
  let path := path_join cache_dir (cache_file_name key thumb_size) in
  let d1 := log (EvCacheSave path) d in
  if save_ok e path then
    {| cache_files := <[path := Readable (JpegOf img)]> (cache_files d1);
       trace := trace d1 |}
  else if save_damages e path then
    {| cache_files := <[path := Corrupt]> (cache_files d1);
       trace := trace d1 |}
  else d1.

(** Truth value of [key]: [None] and the empty string are false. *)
Definition truthy (key : option string) : option string :=
  match key with
  | Some k => if String.eqb k "" then None else Some k
  | None => None
  end.

(** The variables of the [for size in thumb_sizes] loop.  [source_img]
    is [None] before the first decode, [Some None] for the failure flag
    [False], and [Some (Some img)] for the decoded source. *)
Record loop_state : Type := LoopState {
  pil_images : list image;
  source_img : option (option image);
  disk_now : disk
}.

Definition loop_body (e : env) (path cache_dir : string) (key : option string)
    (st : loop_state) (size : Z) : loop_state :=
  let (cached, d1) :=
    match truthy key with
    | Some k => _cache_get cache_dir k size (disk_now st)
    | None => (None, disk_now st)
    end in
  match cached with
  | Some img =>
      {| pil_images := (pil_images st ++ [img])%list;
         source_img := source_img st;
         disk_now := d1 |}
  | None =>
      let (src, d2) :=
        match source_img st with
        | None => (open_source e path, log (EvSourceOpen path) d1)
        | Some s => (s, d1)
        end in
      match src with
      | None =>
          {| pil_images := (pil_images st ++ [placeholder size])%list;
             source_img := Some None;
             disk_now := d2 |}
      | Some s =>
          let img := Thumbnail s size in
          {| pil_images := (pil_images st ++ [img])%list;
             source_img := Some (Some s);
             disk_now :=
               match truthy key with
               | Some k => _cache_put e cache_dir k size img d2
               | None => d2
               end |}
      end
  end.

(** The key computed at the start of the worker; [None] when [os.stat]
    raises. *)
Definition worker_key (e : env) (path : string) : option string :=
  match stat_source e path with
  | Some (mtime, size) => Some (_cache_key float_str (abspath e path) mtime size)
  | None => None
  end.

Definition worker_loop (e : env) (path cache_dir : string) (thumb_sizes : list Z)
    (d : disk) : loop_state :=
  fold_left (loop_body e path cache_dir (worker_key e path)) thumb_sizes
    {| pil_images := []; source_img := None; disk_now := log (EvStat path) d |}.

(** Returns [(path, filename, pil_images)] and the disk after the run. *)
Definition _process_image_worker (e : env) (path : string) (thumb_sizes : list Z)
    (cache_dir : string) (d : disk) : (string * string * list image) * disk :=
  let filename := basename path in
  let st := worker_loop e path cache_dir thumb_sizes d in
  ((path, filename, pil_images st), disk_now st).

End Worker.

Arguments env : clear implicits.
Arguments Env {pyfloat} _ _ _ _ _.

(** ** Completion poller and worker pool scheduler *)

(** [ImageTk.PhotoImage(img)] *)
Inductive photo : Type := PhotoImage (img : image).

(** An element of [self.images]: the dict with the keys ["path"],
    ["name"], ["thumbs"] and ["thumb"]. *)
Record entry : Type := Entry {
  e_path : string;
  e_name : string;
  e_thumbs : list photo;
  e_thumb : photo
}.

(** What [future.result()] does: return the worker's tuple, or raise. *)
Inductive outcome : Type :=
| Returned (path filename : string) (pil_images : list image)
| Raised.

(** A future object, with the arguments of its [submit] call.  Two
    futures are the same object when their identities agree. *)
Record future : Type := Future {
  fut_id : nat;
  fut_path : string;
  fut_sizes : list Z;
  fut_cache_dir : string
}.

Definition same_future (f g : future) : bool := Nat.eqb (fut_id f) (fut_id g).

(** [ThreadPoolExecutor(max_workers=workers)] *)
Record executor : Type := Executor { max_workers : Z }.

Inductive pool_event : Type :=
| Submitted (f : future)
| CancelRequested (f : future)
| ShutDown (ex : executor).

(** The last drawing made on a canvas. *)
Inductive drawing : Type :=
| Cleared                                  (* [canvas.delete("all")] *)
| ProgressDrawn (current total : nat)      (* [_draw_progress(current, total)] *)
| GridDrawn (items : list entry).          (* [_draw_grid_on(canvas)] *)

(** A call that ends normally, or by an exception that leaves the state
    as it was when raised. *)
Inductive except (A : Type) : Type :=
| Normal (a : A)
| Raises (a : A).

Arguments Normal {A} a.
Arguments Raises {A} a.

(** The attributes of [ImageSorterApp] that the loading pipeline uses,
    with the widgets it touches. *)
Record app : Type := App {
  directory : option string;
  images : list entry;
  _thumb_size_idx : nat;
  _split_mode : bool;
  _loading : bool;
  _load_cancelled : bool;
  _executor : option executor;
  _futures : list (future * nat);   (* a dict, in insertion order *)
  _results : option (list (option entry));   (* the slot array, or [None] *)
  _completed_count : nat;
  _total_count : nat;
  lbl_dir : string;   (* text of the folder label *)
  btn_select_enabled : bool;
  btn_rename_enabled : bool;
  btn_cancel_shown : bool;
  canvas : drawing;
  canvas_r : drawing;
  pool_log : list pool_event;   (* calls made on executors and futures *)
  next_future : nat;   (* identity of the next future object *)
  polls_pending : nat   (* pending [root.after] callbacks of [_poll_futures] *)
}.

(** Assignment to one attribute of [self]. *)

Definition set_directory (v : option string) (st : app) : app :=
  let 'App _ images0 thumb_size_idx0 split_mode0 loading0 load_cancelled0
      executor0 futures0 results0 completed_count0 total_count0 lbl_dir0
      btn_select_enabled0 btn_rename_enabled0 btn_cancel_shown0 canvas0
      canvas_r0 pool_log0 next_future0 polls_pending0 := st in
  App v images0 thumb_size_idx0 split_mode0 loading0 load_cancelled0
      executor0 futures0 results0 completed_count0 total_count0 lbl_dir0
      btn_select_enabled0 btn_rename_enabled0 btn_cancel_shown0 canvas0
      canvas_r0 pool_log0 next_future0 polls_pending0.

Definition set_images (v : list entry) (st : app) : app :=
  let 'App directory0 _ thumb_size_idx0 split_mode0 loading0 load_cancelled0
      executor0 futures0 results0 completed_count0 total_count0 lbl_dir0
      btn_select_enabled0 btn_rename_enabled0 btn_cancel_shown0 canvas0
      canvas_r0 pool_log0 next_future0 polls_pending0 := st in
  App directory0 v thumb_size_idx0 split_mode0 loading0 load_cancelled0
      executor0 futures0 results0 completed_count0 total_count0 lbl_dir0
      btn_select_enabled0 btn_rename_enabled0 btn_cancel_shown0 canvas0
      canvas_r0 pool_log0 next_future0 polls_pending0.

Definition set_thumb_size_idx (v : nat) (st : app) : app :=
  let 'App directory0 images0 _ split_mode0 loading0 load_cancelled0
      executor0 futures0 results0 completed_count0 total_count0 lbl_dir0
      btn_select_enabled0 btn_rename_enabled0 btn_cancel_shown0 canvas0
      canvas_r0 pool_log0 next_future0 polls_pending0 := st in
  App directory0 images0 v split_mode0 loading0 load_cancelled0 executor0
      futures0 results0 completed_count0 total_count0 lbl_dir0
      btn_select_enabled0 btn_rename_enabled0 btn_cancel_shown0 canvas0
      canvas_r0 pool_log0 next_future0 polls_pending0.

Definition set_split_mode (v : bool) (st : app) : app :=
  let 'App directory0 images0 thumb_size_idx0 _ loading0 load_cancelled0
      executor0 futures0 results0 completed_count0 total_count0 lbl_dir0
      btn_select_enabled0 btn_rename_enabled0 btn_cancel_shown0 canvas0
      canvas_r0 pool_log0 next_future0 polls_pending0 := st in
  App directory0 images0 thumb_size_idx0 v loading0 load_cancelled0
      executor0 futures0 results0 completed_count0 total_count0 lbl_dir0
      btn_select_enabled0 btn_rename_enabled0 btn_cancel_shown0 canvas0
      canvas_r0 pool_log0 next_future0 polls_pending0.

Definition set_loading (v : bool) (st : app) : app :=
  let 'App directory0 images0 thumb_size_idx0 split_mode0 _ load_cancelled0
      executor0 futures0 results0 completed_count0 total_count0 lbl_dir0
      btn_select_enabled0 btn_rename_enabled0 btn_cancel_shown0 canvas0
      canvas_r0 pool_log0 next_future0 polls_pending0 := st in
  App directory0 images0 thumb_size_idx0 split_mode0 v load_cancelled0
      executor0 futures0 results0 completed_count0 total_count0 lbl_dir0
      btn_select_enabled0 btn_rename_enabled0 btn_cancel_shown0 canvas0
      canvas_r0 pool_log0 next_future0 polls_pending0.

Definition set_load_cancelled (v : bool) (st : app) : app :=
  let 'App directory0 images0 thumb_size_idx0 split_mode0 loading0 _
      executor0 futures0 results0 completed_count0 total_count0 lbl_dir0
      btn_select_enabled0 btn_rename_enabled0 btn_cancel_shown0 canvas0
      canvas_r0 pool_log0 next_future0 polls_pending0 := st in
  App directory0 images0 thumb_size_idx0 split_mode0 loading0 v executor0
      futures0 results0 completed_count0 total_count0 lbl_dir0
      btn_select_enabled0 btn_rename_enabled0 btn_cancel_shown0 canvas0
      canvas_r0 pool_log0 next_future0 polls_pending0.

Definition set_executor (v : option executor) (st : app) : app :=
  let 'App directory0 images0 thumb_size_idx0 split_mode0 loading0
      load_cancelled0 _ futures0 results0 completed_count0 total_count0
      lbl_dir0 btn_select_enabled0 btn_rename_enabled0 btn_cancel_shown0
      canvas0 canvas_r0 pool_log0 next_future0 polls_pending0 := st in
  App directory0 images0 thumb_size_idx0 split_mode0 loading0
      load_cancelled0 v futures0 results0 completed_count0 total_count0
      lbl_dir0 btn_select_enabled0 btn_rename_enabled0 btn_cancel_shown0
      canvas0 canvas_r0 pool_log0 next_future0 polls_pending0.

Definition set_futures (v : list (future * nat)) (st : app) : app :=
  let 'App directory0 images0 thumb_size_idx0 split_mode0 loading0
      load_cancelled0 executor0 _ results0 completed_count0 total_count0
      lbl_dir0 btn_select_enabled0 btn_rename_enabled0 btn_cancel_shown0
      canvas0 canvas_r0 pool_log0 next_future0 polls_pending0 := st in
  App directory0 images0 thumb_size_idx0 split_mode0 loading0
      load_cancelled0 executor0 v results0 completed_count0 total_count0
      lbl_dir0 btn_select_enabled0 btn_rename_enabled0 btn_cancel_shown0
      canvas0 canvas_r0 pool_log0 next_future0 polls_pending0.

Definition set_results (v : option (list (option entry))) (st : app) : app :=
  let 'App directory0 images0 thumb_size_idx0 split_mode0 loading0
      load_cancelled0 executor0 futures0 _ completed_count0 total_count0
      lbl_dir0 btn_select_enabled0 btn_rename_enabled0 btn_cancel_shown0
      canvas0 canvas_r0 pool_log0 next_future0 polls_pending0 := st in
  App directory0 images0 thumb_size_idx0 split_mode0 loading0
      load_cancelled0 executor0 futures0 v completed_count0 total_count0
      lbl_dir0 btn_select_enabled0 btn_rename_enabled0 btn_cancel_shown0
      canvas0 canvas_r0 pool_log0 next_future0 polls_pending0.

Definition set_completed_count (v : nat) (st : app) : app :=
  let 'App directory0 images0 thumb_size_idx0 split_mode0 loading0
      load_cancelled0 executor0 futures0 results0 _ total_count0 lbl_dir0
      btn_select_enabled0 btn_rename_enabled0 btn_cancel_shown0 canvas0
      canvas_r0 pool_log0 next_future0 polls_pending0 := st in
  App directory0 images0 thumb_size_idx0 split_mode0 loading0
      load_cancelled0 executor0 futures0 results0 v total_count0 lbl_dir0
      btn_select_enabled0 btn_rename_enabled0 btn_cancel_shown0 canvas0
      canvas_r0 pool_log0 next_future0 polls_pending0.

Definition set_total_count (v : nat) (st : app) : app :=
  let 'App directory0 images0 thumb_size_idx0 split_mode0 loading0
      load_cancelled0 executor0 futures0 results0 completed_count0 _
      lbl_dir0 btn_select_enabled0 btn_rename_enabled0 btn_cancel_shown0
      canvas0 canvas_r0 pool_log0 next_future0 polls_pending0 := st in
  App directory0 images0 thumb_size_idx0 split_mode0 loading0
      load_cancelled0 executor0 futures0 results0 completed_count0 v
      lbl_dir0 btn_select_enabled0 btn_rename_enabled0 btn_cancel_shown0
      canvas0 canvas_r0 pool_log0 next_future0 polls_pending0.

Definition set_lbl_dir (v : string) (st : app) : app :=
  let 'App directory0 images0 thumb_size_idx0 split_mode0 loading0
      load_cancelled0 executor0 futures0 results0 completed_count0
      total_count0 _ btn_select_enabled0 btn_rename_enabled0
      btn_cancel_shown0 canvas0 canvas_r0 pool_log0 next_future0
      polls_pending0 := st in
  App directory0 images0 thumb_size_idx0 split_mode0 loading0
      load_cancelled0 executor0 futures0 results0 completed_count0
      total_count0 v btn_select_enabled0 btn_rename_enabled0
      btn_cancel_shown0 canvas0 canvas_r0 pool_log0 next_future0
      polls_pending0.

Definition set_btn_select_enabled (v : bool) (st : app) : app :=
  let 'App directory0 images0 thumb_size_idx0 split_mode0 loading0
      load_cancelled0 executor0 futures0 results0 completed_count0
      total_count0 lbl_dir0 _ btn_rename_enabled0 btn_cancel_shown0 canvas0
      canvas_r0 pool_log0 next_future0 polls_pending0 := st in
  App directory0 images0 thumb_size_idx0 split_mode0 loading0
      load_cancelled0 executor0 futures0 results0 completed_count0
      total_count0 lbl_dir0 v btn_rename_enabled0 btn_cancel_shown0 canvas0
      canvas_r0 pool_log0 next_future0 polls_pending0.

Definition set_btn_rename_enabled (v : bool) (st : app) : app :=
  let 'App directory0 images0 thumb_size_idx0 split_mode0 loading0
      load_cancelled0 executor0 futures0 results0 completed_count0
      total_count0 lbl_dir0 btn_select_enabled0 _ btn_cancel_shown0 canvas0
      canvas_r0 pool_log0 next_future0 polls_pending0 := st in
  App directory0 images0 thumb_size_idx0 split_mode0 loading0
      load_cancelled0 executor0 futures0 results0 completed_count0
      total_count0 lbl_dir0 btn_select_enabled0 v btn_cancel_shown0 canvas0
      canvas_r0 pool_log0 next_future0 polls_pending0.

Definition set_btn_cancel_shown (v : bool) (st : app) : app :=
  let 'App directory0 images0 thumb_size_idx0 split_mode0 loading0
      load_cancelled0 executor0 futures0 results0 completed_count0
      total_count0 lbl_dir0 btn_select_enabled0 btn_rename_enabled0 _
      canvas0 canvas_r0 pool_log0 next_future0 polls_pending0 := st in
  App directory0 images0 thumb_size_idx0 split_mode0 loading0
      load_cancelled0 executor0 futures0 results0 completed_count0
      total_count0 lbl_dir0 btn_select_enabled0 btn_rename_enabled0 v
      canvas0 canvas_r0 pool_log0 next_future0 polls_pending0.

Definition set_canvas (v : drawing) (st : app) : app :=
  let 'App directory0 images0 thumb_size_idx0 split_mode0 loading0
      load_cancelled0 executor0 futures0 results0 completed_count0
      total_count0 lbl_dir0 btn_select_enabled0 btn_rename_enabled0
      btn_cancel_shown0 _ canvas_r0 pool_log0 next_future0 polls_pending0 :=
      st in
  App directory0 images0 thumb_size_idx0 split_mode0 loading0
      load_cancelled0 executor0 futures0 results0 completed_count0
      total_count0 lbl_dir0 btn_select_enabled0 btn_rename_enabled0
      btn_cancel_shown0 v canvas_r0 pool_log0 next_future0 polls_pending0.

Definition set_canvas_r (v : drawing) (st : app) : app :=
  let 'App directory0 images0 thumb_size_idx0 split_mode0 loading0
      load_cancelled0 executor0 futures0 results0 completed_count0
      total_count0 lbl_dir0 btn_select_enabled0 btn_rename_enabled0
      btn_cancel_shown0 canvas0 _ pool_log0 next_future0 polls_pending0 :=
      st in
  App directory0 images0 thumb_size_idx0 split_mode0 loading0
      load_cancelled0 executor0 futures0 results0 completed_count0
      total_count0 lbl_dir0 btn_select_enabled0 btn_rename_enabled0
      btn_cancel_shown0 canvas0 v pool_log0 next_future0 polls_pending0.

Definition set_pool_log (v : list pool_event) (st : app) : app :=
  let 'App directory0 images0 thumb_size_idx0 split_mode0 loading0
      load_cancelled0 executor0 futures0 results0 completed_count0
      total_count0 lbl_dir0 btn_select_enabled0 btn_rename_enabled0
      btn_cancel_shown0 canvas0 canvas_r0 _ next_future0 polls_pending0 :=
      st in
  App directory0 images0 thumb_size_idx0 split_mode0 loading0
      load_cancelled0 executor0 futures0 results0 completed_count0
      total_count0 lbl_dir0 btn_select_enabled0 btn_rename_enabled0
      btn_cancel_shown0 canvas0 canvas_r0 v next_future0 polls_pending0.

Definition set_next_future (v : nat) (st : app) : app :=
  let 'App directory0 images0 thumb_size_idx0 split_mode0 loading0
      load_cancelled0 executor0 futures0 results0 completed_count0
      total_count0 lbl_dir0 btn_select_enabled0 btn_rename_enabled0
      btn_cancel_shown0 canvas0 canvas_r0 pool_log0 _ polls_pending0 := st
      in
  App directory0 images0 thumb_size_idx0 split_mode0 loading0
      load_cancelled0 executor0 futures0 results0 completed_count0
      total_count0 lbl_dir0 btn_select_enabled0 btn_rename_enabled0
      btn_cancel_shown0 canvas0 canvas_r0 pool_log0 v polls_pending0.

Definition set_polls_pending (v : nat) (st : app) : app :=
  let 'App directory0 images0 thumb_size_idx0 split_mode0 loading0
      load_cancelled0 executor0 futures0 results0 completed_count0
      total_count0 lbl_dir0 btn_select_enabled0 btn_rename_enabled0
      btn_cancel_shown0 canvas0 canvas_r0 pool_log0 next_future0 _ := st in
  App directory0 images0 thumb_size_idx0 split_mode0 loading0
      load_cancelled0 executor0 futures0 results0 completed_count0
      total_count0 lbl_dir0 btn_select_enabled0 btn_rename_enabled0
      btn_cancel_shown0 canvas0 canvas_r0 pool_log0 next_future0 v.

(** [sorted(names)]: strings compare by code point, which is the order of
    their UTF-8 bytes. *)
Fixpoint insert_name (f : string) (sorted : list string) : list string :=
  match sorted with
  | [] => [f]
  | g :: rest =>
      if String.leb f g then f :: g :: rest else g :: insert_name f rest
  end.

Definition sorted_names (names : list string) : list string :=
  fold_right insert_name [] names.

(** [os.cpu_count() or 4]: [None] and [0] give [4]. *)
Definition cpu_count_or_4 (cpu_count : option Z) : Z :=
  match cpu_count with
  | Some n => if (n =? 0)%Z then 4 else n
  | None => 4
  end.

(** [workers = max(1, (os.cpu_count() or 4) - 1)] *)
Definition workers (cpu_count : option Z) : Z :=
  Z.max 1 (cpu_count_or_4 cpu_count - 1).

(** [self._draw_grid()]: the grid is drawn on every visible canvas. *)
Definition _draw_grid (st : app) : app :=
  let st := set_canvas (GridDrawn (images st)) st in
  if _split_mode st then set_canvas_r (GridDrawn (images st)) st else st.

Definition _draw_progress (current total : nat) (st : app) : app :=
  set_canvas (ProgressDrawn current total) st.

Definition _cancel_loading (st : app) : app := set_load_cancelled true st.

Definition _finish_loading (st : app) : app :=
  let st := set_loading false st in
  let st := set_btn_cancel_shown false st in
  let st := set_btn_select_enabled true st in
  let st :=
    match _executor st with
    | Some ex =>
        set_executor None (set_pool_log (pool_log st ++ [ShutDown ex])%list st)
    | None => st
    end in
  set_futures [] st.

Section Poller.

Variable CACHE_DIR : string.

(** The [for idx, f in enumerate(files)] loop of [_load_images]. *)
Definition submit_all (dir : string) (files : list string) (first : nat)
    : list (future * nat) :=
  imap (fun idx f =>
          ({| fut_id := first + idx;
              fut_path := path_join dir f;
              fut_sizes := THUMB_SIZES;
              fut_cache_dir := CACHE_DIR |}, idx)) files.

(** [_load_images], given what [os.listdir(self.directory)] and
    [os.cpu_count()] return. *)
Definition _load_images (listing : list string) (cpu_count : option Z)
    (st : app) : except app :=
  let st :=
    match _executor st with
    | Some ex =>
        set_futures []
          (set_executor None
             (set_pool_log (pool_log st ++ [ShutDown ex])%list st))
    | None => st
    end in
  let st := set_images [] st in
  let files :=
    sorted_names (filter (fun f => endswith (lower f) ".png") listing) in
  match files with
  | [] => Normal (_draw_grid (set_btn_rename_enabled false st))
  | _ :: _ =>
      let total := length files in
      let st := set_results (Some (replicate total None)) st in
      let st := set_completed_count 0%nat st in
      let st := set_total_count total st in
      let st := set_loading true st in
      let st := set_load_cancelled false st in
      let st := set_btn_select_enabled false st in
      let st := set_btn_rename_enabled false st in
      let st := set_btn_cancel_shown true st in
      let st := _draw_progress 0 total st in
      let st := set_executor (Some {| max_workers := workers cpu_count |}) st in
      let st := set_futures [] st in
      match directory st with
      | None => Raises st       (* [os.path.join(None, f)] *)
      | Some dir =>
          let futs := submit_all dir files (next_future st) in
          let st := set_futures futs st in
          let st := set_pool_log (pool_log st ++ map (fun p => Submitted (fst p)) futs)%list st in
          let st := set_next_future (next_future st + total)%nat st in
          Normal (set_polls_pending (S (polls_pending st)) st)
      end
  end.

Definition _open_folder (path : string) (listing : list string)
    (cpu_count : option Z) (st : app) : except app :=
  _load_images listing cpu_count (set_lbl_dir path (set_directory (Some path) st)).

End Poller.

(** [self._futures.pop(future)]: the index kept for the future and the
    dict without it; [None] for a [KeyError]. *)
Fixpoint pop_future (f : future) (futs : list (future * nat))
    : option (nat * list (future * nat)) :=
  match futs with
  | [] => None
  | (g, idx) :: rest =>
      if same_future f g then Some (idx, rest)
      else
        match pop_future f rest with
        | Some (i, rest') => Some (i, (g, idx) :: rest')
        | None => None
        end
  end.

(** [self._results[idx] = e]: a [TypeError] when the slot array is
    [None], an [IndexError] when [idx] is out of range. *)
Definition set_slot (idx : nat) (e : entry) (st : app) : option app :=
  match _results st with
  | Some slots =>
      if (idx <? length slots)%nat
      then Some (set_results (Some (<[idx := Some e]> slots)) st)
      else None
  | None => None
  end.

(** The dict built in the [try] block; [None] when building it raises. *)
Definition entry_of_outcome (thumb_size_idx : nat) (r : outcome) : option entry :=
  match r with
  | Returned path filename pil_images =>
      let thumbs := map PhotoImage pil_images in
      match thumbs !! thumb_size_idx with
      | Some thumb =>
          Some {| e_path := path; e_name := filename;
                  e_thumbs := thumbs; e_thumb := thumb |}
      | None => None
      end
  | Raised => None
  end.

(** The dict built in the [except] block. *)
Definition error_entry (thumb_size_idx : nat) : option entry :=
  let thumbs := map (fun s => PhotoImage (placeholder s)) THUMB_SIZES in
  match thumbs !! thumb_size_idx with
  | Some thumb =>
      Some {| e_path := ""; e_name := "error";
              e_thumbs := thumbs; e_thumb := thumb |}
  | None => None
  end.

(** The [try] / [except] statement of the harvest loop; [None] when the
    [except] block raises in its turn. *)
Definition store_result (idx : nat) (r : outcome) (st : app) : option app :=
  let attempt :=
    match entry_of_outcome (_thumb_size_idx st) r with
    | Some e => set_slot idx e st
    | None => None
    end in
  match attempt with
  | Some st' => Some st'
  | None =>
      match error_entry (_thumb_size_idx st) with
      | Some e => set_slot idx e st
      | None => None
      end
  end.

(** The [for future in batch] loop. *)
Fixpoint harvest (result : future -> outcome) (batch : list future) (st : app)
    : except app :=
  match batch with
  | [] => Normal st
  | f :: rest =>
      match pop_future f (_futures st) with
      | None => Raises st
      | Some (idx, futs) =>
          let st := set_futures futs st in
          match store_result idx (result f) st with
          | None => Raises st
          | Some st =>
              harvest result rest
                (set_completed_count (_completed_count st + 1)%nat st)
          end
      end
  end.

(** The text "(未選択)" of the folder label when no folder is selected. *)
Definition LBL_UNSELECTED : string := "(未選択)".

(** One run of [_poll_futures], given which futures are done and what
    their [result()] does.  The callback has been taken off the pending
    ones by the caller. *)
Definition _poll_futures (done : future -> bool) (result : future -> outcome)
    (st : app) : except app :=
  if _load_cancelled st then
    let st :=
      set_pool_log
        (pool_log st ++ map (fun p => CancelRequested (fst p)) (_futures st))%list
        st in
    let st := set_images [] st in
    let st := set_results None st in
    let st := set_directory None st in
    let st := set_lbl_dir LBL_UNSELECTED st in
    let st := set_btn_rename_enabled false st in
    let st := _finish_loading st in
    let st := set_canvas Cleared st in
    let st := set_canvas_r Cleared st in
    Normal st
  else
    let done_futures := filter (fun f => done f) (map fst (_futures st)) in
    let batch := take 10 done_futures in
    match harvest result batch st with
    | Raises st => Raises st
    | Normal st =>
        let st :=
          match batch with
          | [] => st
          | _ :: _ => _draw_progress (_completed_count st) (_total_count st) st
          end in
        if (_total_count st <=? _completed_count st)%nat then
          match _results st with
          | None => Raises st
          | Some slots =>
              let st := set_images (omap id slots) st in
              let st := set_results None st in
              let st :=
                set_btn_rename_enabled
                  (match images st with [] => false | _ :: _ => true end) st in
              let st := _finish_loading st in
              Normal (_draw_grid st)
          end
        else Normal (set_polls_pending (S (polls_pending st)) st)
    end.

(** The event loop runs a pending [_poll_futures] callback. *)
Definition tick (done : future -> bool) (result : future -> outcome) (st : app)
    : except app :=
  match polls_pending st with
  | O => Normal st
  | S n => _poll_futures done result (set_polls_pending n st)
  end.

(** Successive ticks; [dones] gives, tick after tick, which futures are
    done.  An exception ends the callback in which it is raised. *)
Fixpoint ticks (dones : list (future -> bool)) (result : future -> outcome)
    (st : app) : app :=
  match dones with
  | [] => st
  | done :: rest =>
      match tick done result st with
      | Normal st' => ticks rest result st'
      | Raises st' => ticks rest result st'
      end
  end.

(** The state in which [ImageSorterApp.__init__] leaves the attributes. *)
Definition initial_app : app :=
  {| directory := None; images := []; _thumb_size_idx := THUMB_SIZE_DEFAULT_INDEX;
     _split_mode := false; _loading := false; _load_cancelled := false;
     _executor := None; _futures := []; _results := None;
     _completed_count := 0; _total_count := 0; lbl_dir := LBL_UNSELECTED;
     btn_select_enabled := true; btn_rename_enabled := false;
     btn_cancel_shown := false; canvas := Cleared; canvas_r := Cleared;
     pool_log := []; next_future := 0; polls_pending := 0 |}.

(** ** The grid *)

Definition CELL_PADDING : Z := 10.
Definition LABEL_HEIGHT : Z := 20.

(** The property [_thumb_size]: [THUMB_SIZES[self._thumb_size_idx]], or
    [None] for an [IndexError]. *)
Definition _thumb_size (st : app) : option Z :=
  THUMB_SIZES !! _thumb_size_idx st.

(** [_calc_columns(canvas)] for a canvas that is [w] pixels wide. *)
Definition _calc_columns (w : Z) (st : app) : option Z :=
  ts ← _thumb_size st;
  Some (Z.max 1 (w / (ts + CELL_PADDING * 2))).

(** The attributes of a drag in progress. *)
Record pointer : Type := Pointer {
  drag_index : option Z;
  insert_index : option Z
}.

(** What [_draw_grid_on] creates on a canvas; [i] is the index in the
    tag of an image or of a label. *)
Inductive item : Type :=
| ImageItem (x y : Z) (image : photo) (i : nat)
| TextItem (x y : Z) (text : string) (i : nat)
| MarkerItem (x1 y1 x2 y2 : Z).

Definition is_index (v : option Z) (i : Z) : bool :=
  match v with
  | Some j => (j =? i)%Z
  | None => false
  end.

(** The marker line at the cell of index [i]. *)
Definition marker_at (ts cols : Z) (i : Z) : item :=
  let cell_w := ts + CELL_PADDING * 2 in
  let cell_h := ts + CELL_PADDING * 2 + LABEL_HEIGHT in
  let row := i / cols in
  let col := i mod cols in
  let mx := col * cell_w + 1 in
  let my := row * cell_h + CELL_PADDING in
  MarkerItem mx my mx (my + ts).

(** One round of the [for i, item in enumerate(self.images)] loop. *)
Definition draw_cell (ts cols : Z) (show_marker : bool) (p : pointer)
    (i : nat) (e : entry) : list item :=
  let cell_w := ts + CELL_PADDING * 2 in
  let cell_h := ts + CELL_PADDING * 2 + LABEL_HEIGHT in
  let row := Z.of_nat i / cols in
  let col := Z.of_nat i mod cols in
  let x := col * cell_w + CELL_PADDING + ts / 2 in
  let y := row * cell_h + CELL_PADDING + ts / 2 in
  [ImageItem x y (e_thumb e) i; TextItem x (y + ts / 2 + 4) (e_name e) i]
  ++ (if show_marker && is_index (insert_index p) (Z.of_nat i)
         && negb (is_index (drag_index p) (Z.of_nat i))
      then [marker_at ts cols (Z.of_nat i)] else []).

(** [_draw_grid_on(canvas)]: the items created after [delete("all")] and
    the scroll region, for a canvas [w] pixels wide; [show_marker] is
    [(canvas is self._active_canvas) or not self._split_mode]. *)
Definition _draw_grid_on (w : Z) (show_marker : bool) (p : pointer) (st : app)
    : option (list item * (Z * Z * Z * Z)) :=
  match images st with
  | [] => Some ([], (0, 0, 0, 0))
  | _ :: _ =>
      ts ← _thumb_size st;
      cols ← _calc_columns w st;
      let cell_w := ts + CELL_PADDING * 2 in
      let cell_h := ts + CELL_PADDING * 2 + LABEL_HEIGHT in
      let n := Z.of_nat (length (images st)) in
      let cells :=
        concat (imap (draw_cell ts cols show_marker p) (images st)) in
      let end_marker :=
        if show_marker && is_index (insert_index p) n
        then [marker_at ts cols n] else [] in
      let total_rows := (n + cols - 1) / cols in
      let total_h := total_rows * cell_h + CELL_PADDING in
      Some ((cells ++ end_marker)%list, (0, 0, cols * cell_w, total_h))
  end.

(** ** Drag and drop *)

(** [_hit_index(canvas, x, y)] at a whole-pixel position of a canvas [w]
    pixels wide: the outer [None] is an [IndexError], the inner one the
    value [None]. *)
Definition _hit_index (w x y : Z) (st : app) : option (option Z) :=
  ts ← _thumb_size st;
  cols ← _calc_columns w st;
  let cell_w := ts + CELL_PADDING * 2 in
  let cell_h := ts + CELL_PADDING * 2 + LABEL_HEIGHT in
  let col := x / cell_w in
  let row := y / cell_h in
  let idx := row * cols + col in
  Some (if (0 <=? idx)%Z && (idx <? Z.of_nat (length (images st)))%Z
        then Some idx else None).

(** [_insert_position(canvas, x, y)] at a whole-pixel position.
    [int(col_f)] rounds towards zero, and [frac > 0.5] for
    [frac = x / cell_w - col] says that twice the offset in the cell
    exceeds the cell width. *)
Definition _insert_position (w x y : Z) (st : app) : option Z :=
  ts ← _thumb_size st;
  cols ← _calc_columns w st;
  let cell_w := ts + CELL_PADDING * 2 in
  let cell_h := ts + CELL_PADDING * 2 + LABEL_HEIGHT in
  let row := y / cell_h in
  let col := Z.quot x cell_w in
  let idx := row * cols + col in
  let idx := if (cell_w <? 2 * (x - col * cell_w))%Z then idx + 1 else idx in
  Some (Z.max 0 (Z.min idx (Z.of_nat (length (images st))))).

(** [l.pop(i)]: the item and the list without it; [None] for an
    [IndexError]. *)
Definition py_pop {A : Type} (i : Z) (l : list A) : option (A * list A) :=
  let n := Z.of_nat (length l) in
  let j := if (i <? 0)%Z then i + n else i in
  if (0 <=? j)%Z && (j <? n)%Z then
    match l !! Z.to_nat j with
    | Some x => Some (x, delete (Z.to_nat j) l)
    | None => None
    end
  else None.

(** [l.insert(i, x)] *)
Definition py_insert {A : Type} (i : Z) (x : A) (l : list A) : list A :=
  let n := Z.of_nat (length l) in
  let j := if (i <? 0)%Z then Z.max 0 (i + n) else Z.min i n in
  (take (Z.to_nat j) l ++ x :: drop (Z.to_nat j) l)%list.

(** [_on_drop(event)].  [drag_index] is what [_on_press] took from
    [_hit_index], [insert_index] what [_on_drag] took from
    [_insert_position]. *)
Definition _on_drop (p : pointer) (st : app) : except (app * pointer) :=
  match drag_index p with
  | None => Normal (st, {| drag_index := None; insert_index := None |})
  | Some src =>
      let moved :=
        match insert_index p with
        | Some dst =>
            if negb (dst =? src)%Z && negb (dst =? src + 1)%Z then
              match py_pop src (images st) with
              | Some (it, rest) =>
                  Some (py_insert (if (src <? dst)%Z then dst - 1 else dst)
                          it rest)
              | None => None
              end
            else Some (images st)
        | None => Some (images st)
        end in
      match moved with
      | None => Raises (st, p)
      | Some items =>
          Normal (_draw_grid (set_images items st),
                  {| drag_index := None; insert_index := None |})
      end
  end.

(** ** Zoom *)

Definition set_thumb (t : photo) (e : entry) : entry :=
  {| e_path := e_path e; e_name := e_name e; e_thumbs := e_thumbs e;
     e_thumb := t |}.

(** [for item in self.images: item["thumb"] = item["thumbs"][idx]]; the
    items before an [IndexError] are updated. *)
Fixpoint rethumb (idx : nat) (items : list entry) : except (list entry) :=
  match items with
  | [] => Normal []
  | e :: rest =>
      match e_thumbs e !! idx with
      | None => Raises (e :: rest)
      | Some t =>
          match rethumb idx rest with
          | Normal rest' => Normal (set_thumb t e :: rest')
          | Raises rest' => Raises (set_thumb t e :: rest')
          end
      end
  end.

Definition _change_thumb_size (new_idx : nat) (st : app) : except app :=
  if Nat.eqb new_idx (_thumb_size_idx st) then Normal st
  else
    let st := set_thumb_size_idx new_idx st in
    match rethumb new_idx (images st) with
    | Normal items => Normal (_draw_grid (set_images items st))
    | Raises items => Raises (set_images items st)
    end.

Definition _zoom_in (st : app) : except app :=
  if _loading st || match images st with [] => true | _ :: _ => false end
  then Normal st
  else
    _change_thumb_size
      (Nat.min (_thumb_size_idx st + 1) (length THUMB_SIZES - 1)) st.

Definition _zoom_out (st : app) : except app :=
  if _loading st || match images st with [] => true | _ :: _ => false end
  then Normal st
  else _change_thumb_size (Nat.max (_thumb_size_idx st - 1) 0) st.

(** ** Renaming *)

Fixpoint zeros (n : nat) : string :=
  match n with
  | O => ""
  | S n => String "0" (zeros n)
  end.

(** [s.zfill(width)]: zeros on the left, after a leading sign. *)
Definition zfill (width : nat) (s : string) : string :=
  let pad := zeros (width - String.length s) in
  match s with
  | EmptyString => pad
  | String c rest =>
      if Ascii.eqb c "+" || Ascii.eqb c "-" then String c (pad ++ rest)
      else pad ++ s
  end.

(** The [digits] of the new names, for [count] images. *)
Definition rename_digits (count : nat) : nat :=
  let max_num := Z.of_nat count * 10 in
  if (max_num <? 1000)%Z then 3%nat else String.length (py_str_int max_num).

(** [f"__temp_{i:06d}.png"] *)
Definition temp_name (i : nat) : string :=
  "__temp_" ++ zfill 6 (py_str_int (Z.of_nat i)) ++ ".png".

(** [f"{str(num).zfill(digits)}.png"] for [num = (i + 1) * 10] *)
Definition new_name (digits i : nat) : string :=
  zfill digits (py_str_int ((Z.of_nat i + 1) * 10)) ++ ".png".

(** The files of the disk are a map [gmap string N] from paths to what
    identifies the content of the file; a file has one path. *)

(** [os.rename(src, dst)], [None] when it raises: [src] does not exist,
    or [dst] exists on a platform whose [os.rename] does not replace
    ([replaces] is false on Windows). *)
Definition os_rename (replaces : bool) (src dst : string) (fs : gmap string N)
    : option (gmap string N) :=
  match fs !! src with
  | None => None
  | Some c =>
      if String.eqb src dst then Some fs
      else
        match fs !! dst with
        | Some _ =>
            if replaces then Some (<[dst := c]> (delete src fs)) else None
        | None => Some (<[dst := c]> (delete src fs))
        end
  end.

(** Phase 1 of [_do_rename], from index [i] on: every file goes to its
    temporary name. *)
Fixpoint rename_to_temp (replaces : bool) (dir : string) (i : nat)
    (items : list entry) (temp_map : list string) (fs : gmap string N)
    : except (gmap string N * list string) :=
  match items with
  | [] => Normal (fs, temp_map)
  | it :: rest =>
      let temp_path := path_join dir (temp_name i) in
      match os_rename replaces (e_path it) temp_path fs with
      | None => Raises (fs, temp_map)
      | Some fs' =>
          rename_to_temp replaces dir (S i) rest (temp_map ++ [temp_path])%list fs'
      end
  end.

Definition set_path_name (path name : string) (e : entry) : entry :=
  {| e_path := path; e_name := name; e_thumbs := e_thumbs e;
     e_thumb := e_thumb e |}.

(** Phase 2, from index [i] on: every temporary file goes to its final
    name, and the image of that index takes the new path and name. *)
Fixpoint rename_to_final (replaces : bool) (dir : string) (digits i : nat)
    (temp_map : list string) (fs : gmap string N) (items : list entry)
    : except (gmap string N * list entry) :=
  match temp_map with
  | [] => Normal (fs, items)
  | temp_path :: rest =>
      let name := new_name digits i in
      let new_path := path_join dir name in
      match os_rename replaces temp_path new_path fs with
      | None => Raises (fs, items)
      | Some fs' =>
          match items !! i with
          | None => Raises (fs', items)
          | Some it =>
              rename_to_final replaces dir digits (S i) rest fs'
                (<[i := set_path_name new_path name it]> items)
          end
      end
  end.

(** [_do_rename], given the answer to the confirmation dialog. *)
Definition _do_rename (replaces confirm : bool) (fs : gmap string N) (st : app)
    : except (gmap string N * app) :=
  match images st with
  | [] => Normal (fs, st)
  | _ :: _ =>
      let digits := rename_digits (length (images st)) in
      if negb confirm then Normal (fs, st)
      else
        match directory st with
        | None => Raises (fs, st)      (* [os.path.join(None, temp_name)] *)
        | Some dir =>
            match rename_to_temp replaces dir 0 (images st) [] fs with
            | Raises (fs1, _) => Raises (fs1, st)
            | Normal (fs1, temp_map) =>
                match rename_to_final replaces dir digits 0 temp_map fs1
                        (images st) with
                | Raises (fs2, items) => Raises (fs2, set_images items st)
                | Normal (fs2, items) =>
                    Normal (fs2, _draw_grid (set_images items st))
                end
            end
        end
  end.

(** ** Notions used to state the properties *)

(** The file names that [_load_images] submits, in order. *)
Definition png_files (listing : list string) : list string :=
  sorted_names (filter (fun f => endswith (lower f) ".png") listing).

(** The state a call ends in, normally or not. *)
Definition state_of (r : except app) : app :=
  match r with
  | Normal st => st
  | Raises st => st
  end.

(** The digest words as one number, least significant word first. *)
Definition word_number (ws : list Z) : Z :=
  fold_right (fun w acc => w + SHA256.modulus * acc) 0 ws.

(** A 32-bit word. *)
Definition is_word (w : Z) : Prop := 0 <= w < SHA256.modulus.

(** [True] when [p] is the path of one of the removed files. *)
Definition removed_path (removed : list Janitor.file_info) (p : string) : bool :=
  existsb (String.eqb p) (map Janitor.fi_path removed).

(** The tuple that the scan appends for a name. *)
Definition file_info_of (fs : Janitor.filesystem) (cache_dir name : string)
    : option Janitor.file_info :=
  match Janitor.os_stat fs (path_join cache_dir name) with
  | Some (size, mtime) => Some (path_join cache_dir name, size, mtime)
  | None => None
  end.

(** Ascending modification times. *)
Definition mtime_le (f g : Janitor.file_info) : Prop :=
  Janitor.fi_mtime f <= Janitor.fi_mtime g.

(** The image that the cache holds for a key and a size: what
    [_cache_get] returns on these files, [None] without a key. *)
Definition cached_image (cache_dir : string) (key : option string) (size : Z)
    (files : gmap string cache_file) : option image :=
  match truthy key with
  | Some k =>
      match files !! path_join cache_dir (cache_file_name k size) with
      | Some (Readable img) => Some img
      | _ => None
      end
  | None => None
  end.

(** The number of times the source image is opened in a trace. *)
Definition source_opens (tr : list event) : nat :=
  length (List.filter is_source_open tr).

(** [True] when every size has a readable file in the cache. *)
Definition all_cached (cache_dir : string) (key : option string)
    (sizes : list Z) (files : gmap string cache_file) : bool :=
  forallb (fun size =>
             match cached_image cache_dir key size files with
             | Some _ => true
             | None => false
             end) sizes.

(** The image that [_cache_put] encodes. *)
Definition jpeg_input (pil_image : image) : image :=
  match image_mode pil_image with
  | RGBA => Flattened pil_image (43, 43, 43)
  | RGB => pil_image
  | OtherMode => Converted pil_image
  end.

(** What a returned image can be for a requested size: the image that the
    cache held for it when the worker started, a thumbnail of the decoded
    source bounded by that size (fresh, or read back from the cache file
    written for it in this run), or the placeholder of that size when the
    source cannot be decoded. *)
Definition preview_for {pyfloat : Type} (e : env pyfloat) (path cache_dir : string)
    (key : option string) (files0 : gmap string cache_file)
    (size : Z) (img : image) : Prop :=
  cached_image cache_dir key size files0 = Some img
  \/ (exists s,
        open_source e path = Some s
        /\ (img = Thumbnail s size
            \/ (truthy key <> None
                /\ img = JpegOf (jpeg_input (Thumbnail s size)))))
  \/ (open_source e path = None /\ img = placeholder size).

(** The image returned for a size when the source cannot be decoded. *)
Definition cached_or_placeholder (cache_dir : string) (key : option string)
    (files : gmap string cache_file) (size : Z) : image :=
  match cached_image cache_dir key size files with
  | Some img => img
  | None => placeholder size
  end.

(** The files of the cache are those present at the start, thumbnails of
    the decoded source written under the key of this run, or files that a
    failed save has left truncated. *)
Definition written_by_run {pyfloat : Type} (e : env pyfloat) (path cache_dir : string)
    (key : option string) (files0 files : gmap string cache_file) : Prop :=
  forall p c,
    files !! p = Some c ->
    files0 !! p = Some c
    \/ exists s k size,
         open_source e path = Some s
         /\ truthy key = Some k
         /\ p = path_join cache_dir (cache_file_name k size)
         /\ (c = Readable (JpegOf (jpeg_input (Thumbnail s size)))
             \/ c = Corrupt).

(** A sample run: the source has a cached thumbnail for the size 80 only,
    and can no longer be decoded. *)
Definition demo_env : env Z :=
  Env (fun _ => Some (1700000000, 1234)) (fun p => p) (fun _ => None)
      (fun _ => true) (fun _ => false).

Definition demo_key : string :=
  _cache_key whole_seconds_str "/pics/a.png" 1700000000 1234.

Definition demo_disk : disk :=
  {| cache_files :=
       {[ path_join "/cache" (cache_file_name demo_key 80)
          := Readable (Pixels 7 RGB) ]};
     trace := [] |}.

(** The entry that the harvest loop stores for a finished job: the dict of
    the [try] block, or the one of the [except] block. *)
Definition delivered (thumb_size_idx : nat) (r : outcome) : option entry :=
  match entry_of_outcome thumb_size_idx r with
  | Some e => Some e
  | None => error_entry thumb_size_idx
  end.

(** A load in progress, for the jobs [J] in submission order: the slot of
    a harvested job holds its entry, the slots of the pending futures are
    empty, and the counter counts the filled slots. *)
Definition session_inv (J : list (future * nat)) (k : nat)
    (result : future -> outcome) (st : app) : Prop :=
  exists slots,
    _results st = Some slots
    /\ length slots = length J
    /\ (forall i e, slots !! i = Some (Some e) ->
          exists f, J !! i = Some (f, i) /\ delivered k (result f) = Some e)
    /\ _completed_count st = length (omap id slots)
    /\ NoDup (map (fun p => fut_id (fst p)) (_futures st))
    /\ (forall f i, (f, i) ∈ _futures st ->
          J !! i = Some (f, i) /\ slots !! i = Some None)
    /\ _total_count st = length J
    /\ _thumb_size_idx st = k
    /\ _load_cancelled st = false.

(** A load that has delivered its results. *)
Definition session_done (J : list (future * nat)) (k : nat)
    (result : future -> outcome) (st : app) : Prop :=
  _results st = None
  /\ _futures st = []
  /\ _load_cancelled st = false
  /\ (_total_count st <= _completed_count st)%nat
  /\ map Some (images st) = map (fun job => delivered k (result (fst job))) J.

(** A load in progress, or one that has delivered its results. *)
Definition loading_or_done (J : list (future * nat)) (k : nat)
    (result : future -> outcome) (st : app) : Prop :=
  (session_inv J k result st /\ (_completed_count st < _total_count st)%nat)
  \/ session_done J k result st.

(** A sample load: three images, which finish in the order c, a, b. *)
Definition demo_listing : list string := ["c.png"; "a.png"; "notes.txt"; "b.PNG"].

Definition demo_loaded : app :=
  state_of (_open_folder "/cache" "/pics" demo_listing (Some 4) initial_app).

Definition demo_result (f : future) : outcome :=
  Returned (fut_path f) (basename (fut_path f))
    (map (fun size => Thumbnail (Pixels (N.of_nat (fut_id f)) RGB) size) (fut_sizes f)).

Definition demo_dones : list (future -> bool) :=
  [ fun f => Nat.eqb (fut_id f) 2;
    fun f => Nat.eqb (fut_id f) 2 || Nat.eqb (fut_id f) 0;
    fun _ => true ].

(** A sample cache directory: three thumbnails of 60, 50 and 40 bytes,
    the second the oldest, and a file that is not a thumbnail. *)
Definition demo_fs : Janitor.filesystem :=
  {| Janitor.os_listdir := Some ["a.jpg"; "notes.txt"; "b.jpg"; "c.jpg"];
     Janitor.os_stat := fun p =>
       if String.eqb p "/cache/a.jpg" then Some (60, 3)
       else if String.eqb p "/cache/b.jpg" then Some (50, 1)
       else if String.eqb p "/cache/c.jpg" then Some (40, 2)
       else if String.eqb p "/cache/notes.txt" then Some (1000, 0)
       else None;
     Janitor.os_remove_ok := fun _ => true |}.

Definition demo_files : list Janitor.file_info :=
  [("/cache/a.jpg", 60, 3); ("/cache/b.jpg", 50, 1); ("/cache/c.jpg", 40, 2)].

(** The image made from the source when the cache is not used. *)
Definition uncached_image (src : option image) (size : Z) : image :=
  match src with
  | Some s => Thumbnail s size
  | None => placeholder size
  end.

(** A source that can be read and decoded, with a disk that accepts every
    save. *)
Definition demo_env_ok : env Z :=
  Env (fun _ => Some (1700000000, 1234)) (fun p => p)
      (fun _ => Some (Pixels 1 RGBA)) (fun _ => true) (fun _ => false).

(** A load in progress between two polls: one poll is pending, the
    futures not yet harvested are the jobs still to be counted, and the
    widgets are in their loading state. *)
Definition running (J : list (future * nat)) (k : nat)
    (result : future -> outcome) (ex : executor) (st : app) : Prop :=
  session_inv J k result st
  /\ (_completed_count st < _total_count st)%nat
  /\ (length (_futures st) + _completed_count st = _total_count st)%nat
  /\ _loading st = true
  /\ _executor st = Some ex
  /\ polls_pending st = 1%nat
  /\ images st = []
  /\ btn_select_enabled st = false
  /\ btn_cancel_shown st = true.

(** A load that has ended: the results are delivered, the executor is
    shut down, no poll is pending and the widgets are back to normal. *)
Definition finished (J : list (future * nat)) (k : nat)
    (result : future -> outcome) (ex : executor) (st : app) : Prop :=
  session_done J k result st
  /\ _completed_count st = length J
  /\ length (images st) = length J
  /\ _loading st = false
  /\ _executor st = None
  /\ polls_pending st = 0%nat
  /\ canvas st = GridDrawn (images st)
  /\ btn_select_enabled st = true
  /\ btn_cancel_shown st = false
  /\ btn_rename_enabled st = true
  /\ last (pool_log st) = Some (ShutDown ex).

(** The order of [sorted] on file names. *)
Definition name_le (a b : string) : Prop := String.leb a b = true.

(** Where a drop puts the dragged item: the index counted after the item
    has been taken out of the list. *)
Definition drop_target (src dst : Z) : nat :=
  Z.to_nat (if (src <? dst)%Z then dst - 1 else dst).

(** Every image shows the thumbnail of the current size. *)
Definition thumbs_in_sync (st : app) : Prop :=
  Forall (fun e => e_thumbs e !! _thumb_size_idx st = Some (e_thumb e))
    (images st).

(** Every image has one thumbnail per size. *)
Definition thumbs_complete (st : app) : Prop :=
  Forall (fun e => length (e_thumbs e) = length THUMB_SIZES) (images st).

(** A loaded folder of five images, shown at the middle size. *)
Definition demo_entry (name : string) : entry :=
  let thumbs := map (fun s => PhotoImage (placeholder s)) THUMB_SIZES in
  {| e_path := path_join "/pics" name; e_name := name; e_thumbs := thumbs;
     e_thumb := PhotoImage (placeholder 150) |}.

Definition demo_grid : app :=
  set_images (map demo_entry ["a.png"; "b.png"; "c.png"; "d.png"; "e.png"])
    initial_app.

(** An image as it is shown at the size of index [idx]. *)
Definition shown_at (idx : nat) (e : entry) : entry :=
  set_thumb (default (e_thumb e) (e_thumbs e !! idx)) e.

(** The zoom buttons do nothing during a load and without images. *)
Definition zoom_blocked (st : app) : bool :=
  _loading st || match images st with [] => true | _ :: _ => false end.

(** [st'] is [st] zoomed to the size of index [k]: the images are the
    same, each showing its thumbnail of that size. *)
Definition zoomed_to (k : nat) (st st' : app) : Prop :=
  _thumb_size_idx st' = k
  /\ images st' = map (shown_at k) (images st)
  /\ _loading st' = _loading st
  /\ thumbs_complete st'
  /\ thumbs_in_sync st'
  /\ (k < length THUMB_SIZES)%nat.

(** The decimal digits of a natural number, as [str] writes them. *)
Definition dec (n : Z) : Decimal.uint :=
  match n with
  | Z0 => Decimal.D0 Decimal.Nil
  | Zpos p => Pos.to_uint p
  | Zneg _ => Decimal.Nil
  end.

(** The first digit of a numeral and the numeral without it. *)
Definition head_digit (d : Decimal.uint) : Z :=
  match d with
  | Decimal.Nil | Decimal.D0 _ => 0
  | Decimal.D1 _ => 1 | Decimal.D2 _ => 2 | Decimal.D3 _ => 3
  | Decimal.D4 _ => 4 | Decimal.D5 _ => 5 | Decimal.D6 _ => 6
  | Decimal.D7 _ => 7 | Decimal.D8 _ => 8 | Decimal.D9 _ => 9
  end.

Definition tail_digits (d : Decimal.uint) : Decimal.uint :=
  match d with
  | Decimal.Nil => Decimal.Nil
  | Decimal.D0 t | Decimal.D1 t | Decimal.D2 t | Decimal.D3 t | Decimal.D4 t
  | Decimal.D5 t | Decimal.D6 t | Decimal.D7 t | Decimal.D8 t | Decimal.D9 t => t
  end.

(** The names that [_do_rename] gives to [count] images, in the order of
    the images. *)
Definition new_names (count : nat) : list string :=
  map (new_name (rename_digits count)) (seq 0 count).

(** The paths of a rename of [count] images in the folder [dir]. *)
Definition temp_path (dir : string) (i : nat) : string :=
  path_join dir (temp_name i).

Definition final_path (dir : string) (count i : nat) : string :=
  path_join dir (new_name (rename_digits count) i).

(** The first character of a string. *)
Definition first_char (s : string) : option ascii :=
  match s with
  | EmptyString => None
  | String c _ => Some c
  end.

(** A folder of three images whose names are taken by the rename: the
    second image is [010.png], the name the first one will get. *)
Definition demo_rename_fs : gmap string N :=
  {[ "/pics/b.png" := 1%N; "/pics/010.png" := 2%N; "/pics/a.png" := 3%N;
     "/pics/notes.txt" := 4%N ]}.

Definition demo_rename_app : app :=
  set_directory (Some "/pics")
    (set_images (map demo_entry ["b.png"; "010.png"; "a.png"]) initial_app).

(** A name with a slash is no name of a directory listing. *)
Fixpoint contains_slash (s : string) : bool :=
  match s with
  | EmptyString => false
  | String c r => Ascii.eqb c "/" || contains_slash r
  end.



(** A cache directory over a budget of 100 bytes in which [os.stat]
    raises on one of the two thumbnails, while every file could be
    removed. *)
Definition demo_fs_unreadable : Janitor.filesystem :=
  {| Janitor.os_listdir := Some ["a.jpg"; "gone.jpg"];
     Janitor.os_stat := fun p =>
       if String.eqb p "/cache/a.jpg" then Some (300, 1) else None;
     Janitor.os_remove_ok := fun _ => true |}.
(** * Properties *)

(** ** SHA-256 test vectors *)

Example sha256_constants :
  length SHA256.K = 64%nat
  /\ firstn 2 SHA256.K = [0x428a2f98; 0x71374491]
  /\ List.last SHA256.K 0 = 0xc67178f2
  /\ SHA256.H0
     = [0x6a09e667; 0xbb67ae85; 0x3c6ef372; 0xa54ff53a;
        0x510e527f; 0x9b05688c; 0x1f83d9ab; 0x5be0cd19].
Proof. vm_compute. repeat split. Qed.

Example sha256_abc :
  SHA256.hexdigest (encode_utf8 "abc")
  = "ba7816bf8f01cfea414140de5dae2223b00361a396177a9cb410ff61f20015ad".
Proof. vm_compute. reflexivity. Qed.

Example sha256_empty :
  SHA256.hexdigest (encode_utf8 "")
  = "e3b0c44298fc1c149afbf4c8996fb92427ae41e4649b934ca495991b7852b855".
Proof. vm_compute. reflexivity. Qed.

Example sha256_two_blocks :
  SHA256.hexdigest (repeat 97 70)
  = "6bd5e5034855a11241f0dee8fc72850ffd9955b28347a86428b5fa19119f6ad0".
Proof. vm_compute. reflexivity. Qed.

Example cache_key_sample :
  _cache_key whole_seconds_str "/a/b.png" 1700000000 1234
  = SHA256.hexdigest (encode_utf8 "/a/b.png|1700000000.0|1234").
Proof. reflexivity. Qed.

(** ** Worker pool scheduler: the concurrency limit *)

Lemma workers_unknown_parallelism : workers None = 3.
Proof. reflexivity. Qed.

Lemma workers_at_least_one (cpu_count : option Z) : 1 <= workers cpu_count.
Proof. unfold workers. lia. Qed.

Lemma load_images_executor CACHE_DIR listing cpu_count st :
  png_files listing <> [] ->
  directory st <> None ->
  exists st',
    _load_images CACHE_DIR listing cpu_count st = Normal st'
    /\ _executor st' = Some {| max_workers := workers cpu_count |}.
Proof.
  intros Hfiles Hdir. destruct st. cbn in Hdir.
  unfold _load_images. fold (png_files listing).
  destruct (png_files listing) as [|f files]; [congruence|].
  destruct directory0 as [dir|]; [|congruence].
  destruct _executor0; cbn; eexists; split; reflexivity.
Qed.

(** C9: for every hardware parallelism value [n] that [os.cpu_count()]
    reports, a folder load with at least one image creates its executor
    with [max_workers = max(1, n - 1)]. *)
Theorem scheduler_concurrency_limit :
  forall (CACHE_DIR path : string) (listing : list string) (n : Z) (st : app),
    1 <= n ->
    png_files listing <> [] ->
    workers (Some n) = Z.max 1 (n - 1)
    /\ exists st',
         _open_folder CACHE_DIR path listing (Some n) st = Normal st'
         /\ _executor st' = Some {| max_workers := Z.max 1 (n - 1) |}.
Proof.
  intros CACHE_DIR path listing n st Hn Hfiles.
  assert (Hw : workers (Some n) = Z.max 1 (n - 1)).
  { unfold workers, cpu_count_or_4.
    destruct (n =? 0)%Z eqn:E; [apply Z.eqb_eq in E; lia | reflexivity]. }
  split; [exact Hw|].
  unfold _open_folder. rewrite <- Hw.
  apply load_images_executor; [exact Hfiles | destruct st; discriminate].
Qed.

Lemma scheduler_concurrency_limit_witness :
  workers (Some 8) = Z.max 1 (8 - 1)
  /\ exists st',
       _open_folder "/cache" "/pics" ["a.png"] (Some 8) initial_app = Normal st'
       /\ _executor st' = Some {| max_workers := Z.max 1 (8 - 1) |}.
Proof.
  apply (scheduler_concurrency_limit "/cache" "/pics" ["a.png"] 8 initial_app).
  - lia.
  - vm_compute. discriminate.
Defined.

Example workers_single_core : workers (Some 1) = 1.
Proof. reflexivity. Qed.

Example workers_two_cores : workers (Some 2) = 1.
Proof. reflexivity. Qed.

(** ** Completion poller: the batch bound *)

Lemma set_slot_completed idx e st st' :
  set_slot idx e st = Some st' -> _completed_count st' = _completed_count st.
Proof.
  destruct st. unfold set_slot. cbn.
  destruct _results0; [|discriminate].
  case_match; [|discriminate].
  intros [= <-]. reflexivity.
Qed.

Lemma store_result_completed idx r st st' :
  store_result idx r st = Some st' -> _completed_count st' = _completed_count st.
Proof.
  unfold store_result.
  destruct (entry_of_outcome _ r) as [e|].
  - destruct (set_slot idx e st) as [s|] eqn:E.
    + intros [= <-]. eapply set_slot_completed; eauto.
    + destruct (error_entry _); [|discriminate]. apply set_slot_completed.
  - destruct (error_entry _); [|discriminate]. apply set_slot_completed.
Qed.

Lemma harvest_completed_bound result batch :
  forall st,
    (_completed_count (state_of (harvest result batch st))
     <= _completed_count st + length batch)%nat.
Proof.
  induction batch as [|f rest IH]; intros st; cbn [harvest length].
  - cbn. lia.
  - destruct (pop_future f (_futures st)) as [[idx futs]|]; [|cbn; lia].
    destruct (store_result idx (result f) (set_futures futs st)) as [st1|] eqn:E.
    + specialize (IH (set_completed_count (_completed_count st1 + 1) st1)).
      apply store_result_completed in E.
      destruct st, st1. cbn in *. lia.
    + destruct st. cbn. lia.
Qed.

Lemma finish_loading_completed st :
  _completed_count (_finish_loading st) = _completed_count st.
Proof. destruct st. unfold _finish_loading. cbn. destruct _executor0; reflexivity. Qed.

Lemma draw_grid_completed st :
  _completed_count (_draw_grid st) = _completed_count st.
Proof. destruct st. unfold _draw_grid. cbn. destruct _split_mode0; reflexivity. Qed.

(** C8: one run of [_poll_futures] raises the completed counter by at most
    10, whichever futures are done. *)
Theorem poll_harvests_at_most_ten :
  forall (done : future -> bool) (result : future -> outcome) (st : app),
    (_completed_count (state_of (_poll_futures done result st))
     <= _completed_count st + 10)%nat.
Proof.
  intros done result st. unfold _poll_futures.
  destruct (_load_cancelled st).
  - destruct st. unfold _finish_loading. cbn. destruct _executor0; cbn; lia.
  - set (batch := take 10 (filter (fun f => done f) (map fst (_futures st)))).
    assert (Hlen : (length batch <= 10)%nat).
    { subst batch. rewrite length_take. lia. }
    pose proof (harvest_completed_bound result batch st) as Hb.
    destruct (harvest result batch st) as [st1|st1]; cbn [state_of] in *; [|lia].
    set (st2 := match batch with
                | [] => st1
                | _ :: _ =>
                    _draw_progress (_completed_count st1) (_total_count st1) st1
                end).
    assert (Hd : _completed_count st2 = _completed_count st1)
      by (subst st2; destruct batch, st1; reflexivity).
    clearbody st2.
    destruct (_total_count st2 <=? _completed_count st2)%nat.
    + destruct (_results st2) as [slots|]; cbn [state_of]; [|lia].
      rewrite draw_grid_completed, finish_loading_completed.
      destruct st2. cbn in *. lia.
    + destruct st2. cbn in *. lia.
Qed.

(** ** Completion poller: cancellation *)

Lemma cancel_loading_sets_flag st :
  _load_cancelled (_cancel_loading st) = true
  /\ polls_pending (_cancel_loading st) = polls_pending st
  /\ _futures (_cancel_loading st) = _futures st
  /\ _results (_cancel_loading st) = _results st
  /\ images (_cancel_loading st) = images st.
Proof. destruct st. repeat split. Qed.

(** C6: when the cancellation flag is set, the next run of
    [_poll_futures] requests the cancellation of every pending future,
    empties [self.images], drops the slot array, shuts the executor down,
    clears both canvases and does not schedule another poll: no result
    list reaches the presentation layer. *)
Theorem cancellation_discards_session :
  forall (done : future -> bool) (result : future -> outcome) (st : app) (n : nat),
    _load_cancelled st = true ->
    polls_pending st = S n ->
    exists st',
      tick done result st = Normal st'
      /\ (forall f idx, In (f, idx) (_futures st) ->
                        In (CancelRequested f) (pool_log st'))
      /\ (forall ex, _executor st = Some ex -> In (ShutDown ex) (pool_log st'))
      /\ images st' = []
      /\ _results st' = None
      /\ _futures st' = []
      /\ _executor st' = None
      /\ _loading st' = false
      /\ directory st' = None
      /\ canvas st' = Cleared
      /\ canvas_r st' = Cleared
      /\ btn_rename_enabled st' = false
      /\ polls_pending st' = n.
Proof.
  intros done result st n Hc Hp.
  destruct st. cbn in Hc, Hp. subst.
  unfold tick, _poll_futures, _finish_loading. cbn.
  destruct _executor0 as [ex|]; cbn.
  - eexists. split; [reflexivity|]. cbn.
    repeat split; try reflexivity.
    + intros f idx Hin. apply in_or_app. left. apply in_or_app. right.
      apply in_map_iff. exists (f, idx). split; [reflexivity | exact Hin].
    + intros ex' [= <-]. apply in_or_app. right. left. reflexivity.
  - eexists. split; [reflexivity|]. cbn.
    repeat split; try reflexivity.
    + intros f idx Hin. apply in_or_app. right.
      apply in_map_iff. exists (f, idx). split; [reflexivity | exact Hin].
    + intros ex' [=].
Qed.

(** ** Cache key derivation *)

(** *** The decimal text of an integer *)

Lemma to_int_not_nil (n : Z) :
  Z.to_int n <> Decimal.Pos Decimal.Nil /\ Z.to_int n <> Decimal.Neg Decimal.Nil.
Proof.
  destruct n as [|p|p]; simpl; split; try discriminate;
    intros [= H]; exact (DecimalPos.Unsigned.to_uint_nonnil p H).
Qed.

Lemma py_str_int_inj (m n : Z) : py_str_int m = py_str_int n -> m = n.
Proof.
  unfold py_str_int. intros H.
  destruct (to_int_not_nil m) as [Hm1 Hm2], (to_int_not_nil n) as [Hn1 Hn2].
  pose proof (NilZero.isi (Z.to_int m) Hm1 Hm2) as Em.
  pose proof (NilZero.isi (Z.to_int n) Hn1 Hn2) as En.
  rewrite H in Em. rewrite Em in En. injection En as En.
  rewrite <- (DecimalZ.of_to m), <- (DecimalZ.of_to n). now rewrite En.
Qed.

Lemma uint_text_no_bar (d : Decimal.uint) :
  contains_bar (NilEmpty.string_of_uint d) = false.
Proof. induction d; simpl; auto. Qed.

Lemma py_str_int_no_bar (n : Z) : contains_bar (py_str_int n) = false.
Proof.
  unfold py_str_int, NilZero.string_of_int, NilZero.string_of_uint.
  destruct (Z.to_int n) as [d|d]; destruct d; simpl;
    auto using uint_text_no_bar.
Qed.

(** *** The key text can be taken apart again *)

Lemma contains_bar_app (a b : string) :
  contains_bar (a ++ b) = contains_bar a || contains_bar b.
Proof.
  induction a as [|c a IH]; simpl; [reflexivity|].
  rewrite IH. now rewrite orb_assoc.
Qed.

Lemma split_at_last_bar (a c b d : string) :
  contains_bar b = false ->
  contains_bar d = false ->
  a ++ String "|" b = c ++ String "|" d ->
  a = c /\ b = d.
Proof.
  intros Hb Hd. revert c.
  induction a as [|x a IH]; intros [|y c]; simpl; intros H.
  - injection H as ->. auto.
  - injection H as <- ->.
    rewrite contains_bar_app in Hb. simpl in Hb.
    rewrite orb_true_r in Hb. discriminate.
  - injection H as -> <-.
    rewrite contains_bar_app in Hd. simpl in Hd.
    rewrite orb_true_r in Hd. discriminate.
  - injection H as -> H. destruct (IH c H) as [-> ->]. auto.
Qed.

Lemma string_app_cons_assoc (a b c : string) (x : ascii) :
  a ++ String x (b ++ c) = (a ++ String x b) ++ c.
Proof.
  induction a as [|y a IH]; [reflexivity|].
  change (String y (a ++ String x (b ++ c)) = String y ((a ++ String x b) ++ c)).
  f_equal. exact IH.
Qed.

Section CacheKeyText.

Context {pyfloat : Type} (float_str : pyfloat -> string).

Lemma cache_key_text_inj p1 m1 s1 p2 m2 s2 :
  contains_bar (float_str m1) = false ->
  contains_bar (float_str m2) = false ->
  cache_key_text float_str p1 m1 s1 = cache_key_text float_str p2 m2 s2 ->
  p1 = p2 /\ float_str m1 = float_str m2 /\ s1 = s2.
Proof.
  intros H1 H2. unfold cache_key_text. intros H.
  change (p1 ++ "|" ++ float_str m1 ++ "|" ++ py_str_int s1)
    with (p1 ++ String "|" (float_str m1 ++ String "|" (py_str_int s1))) in H.
  change (p2 ++ "|" ++ float_str m2 ++ "|" ++ py_str_int s2)
    with (p2 ++ String "|" (float_str m2 ++ String "|" (py_str_int s2))) in H.
  rewrite !string_app_cons_assoc in H.
  apply split_at_last_bar in H; try apply py_str_int_no_bar.
  destruct H as [H Hs]. apply py_str_int_inj in Hs.
  apply split_at_last_bar in H; auto.
  destruct H as [-> ->]. auto.
Qed.

End CacheKeyText.

(** *** The digest is one of finitely many values *)

Lemma compress_shape (h block : list Z) :
  length h = 8%nat ->
  length (SHA256.compress h block) = 8%nat
  /\ Forall is_word (SHA256.compress h block).
Proof.
  intros Hh. unfold SHA256.compress. split.
  - rewrite length_map, length_combine, Hh. reflexivity.
  - apply Forall_map. apply Forall_forall. intros p _.
    unfold is_word, SHA256.add32. apply Z.mod_pos_bound. reflexivity.
Qed.

Lemma digest_shape (msg : list Z) :
  length (SHA256.digest msg) = 8%nat /\ Forall is_word (SHA256.digest msg).
Proof.
  unfold SHA256.digest.
  generalize (SHA256.chunks (length (SHA256.pad msg) / 64) (SHA256.pad msg)).
  assert (H0 : length SHA256.H0 = 8%nat /\ Forall is_word SHA256.H0).
  { split; [vm_compute; reflexivity|].
    unfold SHA256.H0. apply Forall_map. apply Forall_forall. intros p _.
    unfold is_word. apply Z.mod_pos_bound. reflexivity. }
  revert H0. generalize SHA256.H0.
  intros h Hh blocks. revert h Hh.
  induction blocks as [|b blocks IH]; intros h Hh; simpl; [exact Hh|].
  apply IH. apply compress_shape. apply Hh.
Qed.

Lemma word_number_bound (ws : list Z) :
  Forall is_word ws ->
  0 <= word_number ws < SHA256.modulus ^ Z.of_nat (length ws).
Proof.
  induction 1 as [|w ws Hw _ IH].
  - simpl. lia.
  - cbn [length word_number fold_right]. fold (word_number ws).
    rewrite Nat2Z.inj_succ, Z.pow_succ_r by lia.
    unfold is_word, SHA256.modulus in *. nia.
Qed.

Lemma word_number_inj (us vs : list Z) :
  Forall is_word us -> Forall is_word vs ->
  length us = length vs ->
  word_number us = word_number vs -> us = vs.
Proof.
  intros Hu. revert vs.
  induction Hu as [|u us Hu _ IH]; intros vs Hv Hlen Heq;
    destruct Hv as [|v vs Hv Hvs]; try discriminate; [reflexivity|].
  cbn [word_number fold_right] in Heq.
  fold (word_number us) in Heq. fold (word_number vs) in Heq.
  unfold is_word, SHA256.modulus in Hu, Hv.
  unfold SHA256.modulus in Heq.
  assert (u = v /\ word_number us = word_number vs) as [-> Hrest] by lia.
  f_equal. apply IH; auto.
Qed.

Lemma bounded_search (g : Z -> Z) (v : Z) :
  forall M, 0 <= M ->
    (exists i, 0 <= i < M /\ g i = v) \/ (forall i, 0 <= i < M -> g i <> v).
Proof.
  apply (natlike_ind (fun M =>
    (exists i, 0 <= i < M /\ g i = v) \/ (forall i, 0 <= i < M -> g i <> v))).
  - right. intros i Hi. lia.
  - intros M HM [[i [Hi Hg]]|Hnone].
    + left. exists i. split; [lia | exact Hg].
    + destruct (Z.eq_dec (g M) v) as [E|E].
      * left. exists M. split; [lia | exact E].
      * right. intros i Hi. destruct (Z.eq_dec i M) as [->|Hne]; [exact E|].
        apply Hnone. lia.
Qed.

(** A function from [0..M] into [0..M-1] takes some value twice. *)
Lemma pigeonhole :
  forall M, 0 <= M ->
    forall g : Z -> Z,
      (forall n, 0 <= n <= M -> 0 <= g n < M) ->
      exists i j, 0 <= i < j /\ j <= M /\ g i = g j.
Proof.
  apply (natlike_ind (fun M =>
    forall g : Z -> Z,
      (forall n, 0 <= n <= M -> 0 <= g n < M) ->
      exists i j, 0 <= i < j /\ j <= M /\ g i = g j)).
  - intros g Hg. specialize (Hg 0). lia.
  - intros M HM IH g Hg.
    set (v := g (Z.succ M)).
    destruct (bounded_search g v (Z.succ M)) as [[i [Hi Hgi]]|Hnone]; [lia| |].
    + exists i, (Z.succ M). repeat split; first [lia | exact Hgi].
    + set (g' := fun n => if (g n <? v)%Z then g n else g n - 1).
      assert (Hv : 0 <= v < Z.succ M) by (apply Hg; lia).
      destruct (IH g') as [i [j [Hij [Hj Heq]]]].
      { intros n Hn. unfold g'.
        pose proof (Hg n ltac:(lia)). pose proof (Hnone n ltac:(lia)).
        destruct (Z.ltb_spec (g n) v); lia. }
      exists i, j. repeat split; try lia.
      unfold g' in Heq.
      pose proof (Hnone i ltac:(lia)). pose proof (Hnone j ltac:(lia)).
      destruct (Z.ltb_spec (g i) v), (Z.ltb_spec (g j) v); lia.
Qed.

(** Among the digests of [2^256 + 1] messages, two are equal. *)
Lemma digest_collision (message : Z -> list Z) :
  exists i j,
    0 <= i < j /\ SHA256.digest (message i) = SHA256.digest (message j).
Proof.
  destruct (pigeonhole (2 ^ 256) ltac:(lia)
              (fun n => word_number (SHA256.digest (message n))))
    as [i [j [Hij [_ Heq]]]].
  - intros n _.
    destruct (digest_shape (message n)) as [Hlen Hw].
    pose proof (word_number_bound _ Hw) as Hb.
    rewrite Hlen in Hb. exact Hb.
  - exists i, j. split; [exact Hij|].
    destruct (digest_shape (message i)) as [Hli Hwi].
    destruct (digest_shape (message j)) as [Hlj Hwj].
    apply word_number_inj; auto. congruence.
Qed.

Lemma cache_key_collision {pyfloat : Type} (float_str : pyfloat -> string)
    (p : string) (m : pyfloat) :
  exists s1 s2 : Z,
    s1 <> s2 /\ _cache_key float_str p m s1 = _cache_key float_str p m s2.
Proof.
  destruct (digest_collision
              (fun s => encode_utf8 (cache_key_text float_str p m s)))
    as [i [j [Hij Heq]]].
  exists i, j. split; [lia|].
  unfold _cache_key, SHA256.hexdigest. now rewrite Heq.
Qed.

(** C2, as stated, fails: whatever text the interpreter gives for a
    float, it is not true that any two triples that differ in a component
    get different identities; an identity is one of [2^256] values. *)
Lemma cache_key_not_injective :
  ~ exists (pyfloat : Type) (float_str : pyfloat -> string) (m0 : pyfloat),
      forall (p1 : string) (m1 : pyfloat) (s1 : Z)
             (p2 : string) (m2 : pyfloat) (s2 : Z),
        (p1, m1, s1) <> (p2, m2, s2) ->
        _cache_key float_str p1 m1 s1 <> _cache_key float_str p2 m2 s2.
Proof.
  intros [pyfloat [float_str [m0 Hinj]]].
  destruct (cache_key_collision float_str "" m0) as [s1 [s2 [Hne Heq]]].
  apply (Hinj "" m0 s1 "" m0 s2); [|exact Heq].
  intros [= E]. contradiction.
Qed.

(** *** What does hold *)

Lemma string_length_app (a b : string) :
  String.length (a ++ b) = (String.length a + String.length b)%nat.
Proof. induction a as [|c a IH]; simpl; [reflexivity | now rewrite IH]. Qed.

Lemma hex_word_length (n : nat) (x : Z) : String.length (SHA256.hex_word n x) = n.
Proof. induction n as [|n IH]; simpl; [reflexivity | now rewrite IH]. Qed.

Lemma hex_words_length (ws : list Z) :
  String.length (SHA256.hex_words ws) = (8 * length ws)%nat.
Proof.
  induction ws as [|w ws IH]; [reflexivity|].
  cbn [SHA256.hex_words fold_right]. fold (SHA256.hex_words ws).
  rewrite string_length_app, hex_word_length, IH. simpl. lia.
Qed.

Lemma hexdigest_length (msg : list Z) :
  String.length (SHA256.hexdigest msg) = 64%nat.
Proof.
  unfold SHA256.hexdigest. rewrite hex_words_length.
  destruct (digest_shape msg) as [-> _]. reflexivity.
Qed.

Lemma encode_utf8_inj (s t : string) : encode_utf8 s = encode_utf8 t -> s = t.
Proof.
  revert t. induction s as [|c s IH]; intros [|d t]; simpl;
    try discriminate; [reflexivity|].
  unfold encode_utf8. simpl. intros [= Hc Hrest].
  apply N2Z.inj in Hc.
  rewrite <- (ascii_N_embedding c), <- (ascii_N_embedding d), Hc.
  f_equal. apply IH. exact Hrest.
Qed.

(** C2, amended: [_cache_key] is a function of its three arguments and
    of nothing else, so equal triples get equal identities on every call;
    the identity is the 64 hexadecimal digits of the SHA-256 of the text
    [path|mtime|size]; and two triples that differ in the path, in the
    text of the modification time or in the size are hashed from
    different byte strings (no ["|"] occurs in the text of a float). *)
Theorem cache_key_deterministic_and_separating :
  forall (pyfloat : Type) (float_str : pyfloat -> string)
         (p1 : string) (m1 : pyfloat) (s1 : Z)
         (p2 : string) (m2 : pyfloat) (s2 : Z),
    contains_bar (float_str m1) = false ->
    contains_bar (float_str m2) = false ->
    ((p1, m1, s1) = (p2, m2, s2) ->
     _cache_key float_str p1 m1 s1 = _cache_key float_str p2 m2 s2)
    /\ _cache_key float_str p1 m1 s1
       = SHA256.hexdigest (encode_utf8 (cache_key_text float_str p1 m1 s1))
    /\ String.length (_cache_key float_str p1 m1 s1) = 64%nat
    /\ (p1 <> p2 \/ float_str m1 <> float_str m2 \/ s1 <> s2 ->
        encode_utf8 (cache_key_text float_str p1 m1 s1)
        <> encode_utf8 (cache_key_text float_str p2 m2 s2)).
Proof.
  intros pyfloat float_str p1 m1 s1 p2 m2 s2 H1 H2.
  split; [intros [= -> -> ->]; reflexivity|].
  split; [reflexivity|].
  split; [apply hexdigest_length|].
  intros Hdiff Heq. apply encode_utf8_inj in Heq.
  apply cache_key_text_inj in Heq; auto.
  destruct Heq as [Hp [Hm Hs]].
  destruct Hdiff as [H|[H|H]]; contradiction.
Qed.

Lemma cache_key_deterministic_and_separating_witness :
  String.length (_cache_key whole_seconds_str "/pics/a.png" 1700000000 1234)
  = 64%nat
  /\ encode_utf8 (cache_key_text whole_seconds_str "/pics/a.png" 1700000000 1234)
     <> encode_utf8 (cache_key_text whole_seconds_str "/pics/a.png" 1700000000 1235).
Proof.
  destruct (cache_key_deterministic_and_separating
              Z whole_seconds_str
              "/pics/a.png" 1700000000 1234 "/pics/a.png" 1700000000 1235
              eq_refl eq_refl) as [_ [_ [Hlen Hsep]]].
  split.
  - exact Hlen.
  - apply Hsep. right. right. lia.
Defined.

Example cache_key_value :
  _cache_key whole_seconds_str "/a/b.png" 1700000000 1234
  = "0c24f975d5bdac736c5b1a3c8660dbd6ba71e6b5b0625cdcfb3bf9675e411c65".
Proof. vm_compute. reflexivity. Qed.

(** ** Cache janitor *)

Import Janitor.

Lemma string_app_inv_head (a b c : string) : a ++ b = a ++ c -> b = c.
Proof.
  induction a as [|x a IH]; [auto|].
  change (String x (a ++ b) = String x (a ++ c) -> b = c).
  intros [= H]. auto.
Qed.

Lemma path_join_inj (dir a b : string) : path_join dir a = path_join dir b -> a = b.
Proof.
  unfold path_join.
  destruct (String.eqb dir ""); [auto|].
  destruct (endswith dir "/"); intros H; apply string_app_inv_head in H; auto.
  now apply (string_app_inv_head "/") in H.
Qed.

(** *** The scan *)

Lemma collect_acc fs dir names :
  forall acc,
    collect fs dir names acc
    = option_map (fun l => acc ++ l)%list (collect fs dir names []).
Proof.
  induction names as [|name rest IH]; intros acc; cbn [collect].
  - cbn. now rewrite app_nil_r.
  - destruct (negb (endswith name ".jpg")); [apply IH|].
    destruct (os_stat fs (path_join dir name)) as [[size mtime]|]; [|reflexivity].
    rewrite IH, (IH ([] ++ _)%list).
    destruct (collect fs dir rest []); cbn; [|reflexivity].
    now rewrite <- app_assoc.
Qed.

Lemma collect_spec fs dir names files :
  collect fs dir names [] = Some files ->
  map Some files
  = map (file_info_of fs dir) (filter (fun name => endswith name ".jpg") names).
Proof.
  revert files. induction names as [|name rest IH]; intros files; cbn [collect].
  - intros [= <-]. reflexivity.
  - destruct (endswith name ".jpg") eqn:E; cbn [negb].
    + rewrite filter_cons_True by (rewrite E; exact I).
      cbn [map]. unfold file_info_of at 1.
      destruct (os_stat fs (path_join dir name)) as [[size mtime]|]; [|discriminate].
      rewrite collect_acc.
      destruct (collect fs dir rest []) as [l|]; [|discriminate].
      cbn. intros [= <-]. cbn. f_equal. now apply IH.
    + rewrite filter_cons_False by (rewrite E; exact id). apply IH.
Qed.

(** *** The sort *)

Lemma insert_by_mtime_perm f l : Permutation (insert_by_mtime f l) (f :: l).
Proof.
  induction l as [|g l IH]; cbn [insert_by_mtime]; [reflexivity|].
  destruct (fi_mtime f <=? fi_mtime g)%Z; [reflexivity|].
  rewrite IH. apply perm_swap.
Qed.

Lemma sort_by_mtime_perm l : Permutation (sort_by_mtime l) l.
Proof.
  induction l as [|f l IH]; [reflexivity|].
  cbn [sort_by_mtime fold_right]. fold (sort_by_mtime l).
  rewrite insert_by_mtime_perm. now apply perm_skip.
Qed.

Lemma insert_by_mtime_sorted f l :
  StronglySorted mtime_le l -> StronglySorted mtime_le (insert_by_mtime f l).
Proof.
  induction 1 as [|g l Hs IH Hg]; cbn [insert_by_mtime].
  - repeat constructor.
  - destruct (Z.leb_spec (fi_mtime f) (fi_mtime g)) as [Hle|Hgt].
    + constructor; [constructor; assumption|].
      constructor; [exact Hle|].
      eapply List.Forall_impl; [|exact Hg].
      unfold mtime_le. intros h Hh. lia.
    + constructor; [exact IH|].
      apply List.Forall_forall. intros h Hh.
      apply (Permutation_in _ (insert_by_mtime_perm f l)) in Hh.
      destruct Hh as [<-|Hh]; [unfold mtime_le; lia|].
      rewrite List.Forall_forall in Hg. auto.
Qed.

Lemma sort_by_mtime_sorted l : StronglySorted mtime_le (sort_by_mtime l).
Proof.
  induction l as [|f l IH]; [constructor|].
  cbn [sort_by_mtime fold_right]. now apply insert_by_mtime_sorted.
Qed.

Lemma total_size_app a b : total_size (a ++ b) = total_size a + total_size b.
Proof.
  induction a as [|f a IH]; cbn [total_size fold_right Init.Datatypes.app]; [reflexivity|].
  fold (total_size (a ++ b)) (total_size a). lia.
Qed.

Lemma total_size_perm a b : Permutation a b -> total_size a = total_size b.
Proof.
  induction 1 as [|f a b _ IH|f g a|a b c _ IH1 _ IH2];
    cbn [total_size fold_right]; try fold (total_size a); try fold (total_size b);
    lia.
Qed.

(** *** The deletion loop *)

Lemma delete_loop_frame dir max files :
  forall total fs,
    os_stat (fst (delete_loop dir max files total fs)) = os_stat fs
    /\ os_remove_ok (fst (delete_loop dir max files total fs)) = os_remove_ok fs
    /\ os_listdir (fst (delete_loop dir max files total fs))
       = option_map
           (filter (fun name =>
              negb (removed_path (snd (delete_loop dir max files total fs))
                                 (path_join dir name))))
           (os_listdir fs).
Proof.
  assert (Hid : forall l : list string,
             filter (fun name => negb (removed_path [] (path_join dir name))) l = l).
  { intros l. induction l as [|x l IHl]; [reflexivity|].
    rewrite filter_cons_True by exact I. now rewrite IHl. }
  induction files as [|f rest IH]; intros total fs; cbn [delete_loop].
  - cbn [fst snd]. repeat split. destruct (os_listdir fs); cbn; [|reflexivity].
    now rewrite Hid.
  - destruct (total <=? max)%Z.
    + cbn [fst snd]. repeat split. destruct (os_listdir fs); cbn; [|reflexivity].
      now rewrite Hid.
    + destruct (os_remove_ok fs (fi_path f)); [|apply IH].
      specialize (IH (total - fi_size f) (os_remove dir (fi_path f) fs)).
      destruct (delete_loop dir max rest (total - fi_size f)
                  (os_remove dir (fi_path f) fs)) as [fs' removed].
      cbn [fst snd] in *. destruct IH as [Hs [Hr Hl]].
      repeat split; [exact Hs | exact Hr |].
      rewrite Hl. cbn [os_remove os_listdir].
      destruct (os_listdir fs) as [names|]; cbn [option_map]; [|reflexivity].
      f_equal. rewrite list_filter_filter. apply list_filter_iff.
      intros name. unfold removed_path. cbn [map existsb].
      destruct (String.eqb (path_join dir name) (fi_path f));
        destruct (existsb _ _); cbn; tauto.
Qed.

Lemma delete_loop_prefix dir max files :
  forall total fs,
    (forall f, In f files -> os_remove_ok fs (fi_path f) = true) ->
    exists k : nat,
      (k <= length files)%nat
      /\ snd (delete_loop dir max files total fs) = firstn k files
      /\ (forall j : nat, (j < k)%nat -> max < total - total_size (firstn j files))
      /\ (total - total_size (firstn k files) <= max \/ k = length files).
Proof.
  induction files as [|f rest IH]; intros total fs Hok; cbn [delete_loop].
  - exists 0%nat. cbn. repeat split; auto; intros; lia.
  - destruct (Z.leb_spec total max) as [Hle|Hgt].
    + exists 0%nat. cbn. repeat split; lia.
    + rewrite (Hok f) by (left; reflexivity).
      destruct (IH (total - fi_size f) (os_remove dir (fi_path f) fs))
        as [k [Hk [Hrem [Hbefore Hafter]]]].
      { intros g Hg. cbn. apply Hok. right. exact Hg. }
      destruct (delete_loop dir max rest (total - fi_size f)
                  (os_remove dir (fi_path f) fs)) as [fs' removed].
      cbn [snd] in *. exists (S k). cbn [length firstn].
      repeat split.
      * lia.
      * now rewrite Hrem.
      * intros [|j] Hj; cbn [firstn total_size fold_right].
        -- lia.
        -- fold (total_size (firstn j rest)).
           specialize (Hbefore j ltac:(lia)). lia.
      * cbn [total_size fold_right]. fold (total_size (firstn k rest)).
        destruct Hafter as [H|H]; [left; lia | right; lia].
Qed.

(** *** What is left in the directory *)

Lemma scan_spec fs dir files :
  scan fs dir = Some files ->
  map Some files = map (file_info_of fs dir) (cache_names fs).
Proof.
  unfold scan, cache_names. destruct (os_listdir fs); [|discriminate].
  apply collect_spec.
Qed.

Lemma file_info_of_Some fs dir name f :
  file_info_of fs dir name = Some f ->
  fi_path f = path_join dir name /\ fi_size f = size_of fs dir name.
Proof.
  unfold file_info_of, size_of.
  destruct (os_stat fs (path_join dir name)) as [[size mtime]|]; [|discriminate].
  intros [= <-]. split; reflexivity.
Qed.

Lemma scanned_paths fs dir (names : list string) :
  forall files,
    map Some files = map (file_info_of fs dir) names ->
    map fi_path files = map (path_join dir) names.
Proof.
  induction names as [|name names IH]; intros [|f files]; cbn [map];
    try discriminate; [reflexivity|].
  intros [= Hf Hrest]. symmetry in Hf.
  apply file_info_of_Some in Hf as [-> _]. f_equal. now apply IH.
Qed.

Lemma scanned_sizes fs dir removed (names : list string) :
  forall files,
    map Some files = map (file_info_of fs dir) names ->
    fold_right (fun name acc => size_of fs dir name + acc) 0
      (filter (fun name => negb (removed_path removed (path_join dir name))) names)
    = total_size
        (filter (fun f => negb (removed_path removed (fi_path f))) files).
Proof.
  induction names as [|name names IH]; intros [|f files]; cbn [map];
    try discriminate; [reflexivity|].
  intros [= Hf Hrest]. symmetry in Hf.
  apply file_info_of_Some in Hf as [Hp Hs].
  rewrite !filter_cons, Hp.
  destruct (decide _); cbn [total_size fold_right];
    rewrite (IH files Hrest); [rewrite Hs|]; reflexivity.
Qed.

Lemma cache_total_after fs fs' dir removed files :
  scan fs dir = Some files ->
  os_stat fs' = os_stat fs ->
  os_listdir fs'
  = option_map
      (filter (fun name => negb (removed_path removed (path_join dir name))))
      (os_listdir fs) ->
  cache_total fs' dir
  = total_size (filter (fun f => negb (removed_path removed (fi_path f))) files).
Proof.
  intros Hscan Hstat Hlist.
  pose proof (scan_spec _ _ _ Hscan) as Hfiles.
  rewrite <- (scanned_sizes fs dir removed (cache_names fs) files Hfiles).
  unfold cache_total, cache_names. rewrite Hlist.
  destruct (os_listdir fs) as [names|]; cbn [option_map]; [|reflexivity].
  rewrite !list_filter_filter.
  rewrite (list_filter_iff _
             (fun name => negb (removed_path removed (path_join dir name))
                          /\ endswith name ".jpg")) by tauto.
  generalize (filter (fun name => negb (removed_path removed (path_join dir name))
                                  /\ endswith name ".jpg") names).
  intros l. induction l as [|x l IHl]; cbn [fold_right]; [reflexivity|].
  rewrite IHl. unfold size_of. now rewrite Hstat.
Qed.

Lemma removed_path_In removed p :
  removed_path removed p = true <-> In p (map fi_path removed).
Proof.
  unfold removed_path. rewrite existsb_exists. split.
  - intros [q [Hq Heq]]. apply String.eqb_eq in Heq. now subst.
  - intros H. exists p. split; [exact H | apply String.eqb_refl].
Qed.

Lemma total_size_without (removed rest : list file_info) :
  NoDup (map fi_path (removed ++ rest)%list) ->
  total_size (filter (fun f => negb (removed_path removed (fi_path f)))
                     (removed ++ rest)%list)
  = total_size rest.
Proof.
  intros Hnd. rewrite filter_app.
  assert (H1 : filter (fun f => negb (removed_path removed (fi_path f))) removed = []).
  { assert (Hall : forall l : list file_info,
               (forall f, In f l -> removed_path removed (fi_path f) = true) ->
               filter (fun f => negb (removed_path removed (fi_path f))) l = []).
    { induction l as [|f l IHl]; intros Hl; [reflexivity|].
      rewrite filter_cons_False.
      - apply IHl. intros g Hg. apply Hl. now right.
      - rewrite (Hl f) by now left. exact id. }
    apply Hall. intros f Hf. apply removed_path_In, in_map, Hf. }
  assert (H2 : filter (fun f => negb (removed_path removed (fi_path f))) rest = rest).
  { rewrite map_app in Hnd. apply NoDup_app in Hnd as [_ [Hdisj _]].
    induction rest as [|g rest IHr]; [reflexivity|].
    rewrite filter_cons_True.
    - f_equal. apply IHr. intros p Hp Hq. apply (Hdisj p Hp). now right.
    - destruct (removed_path removed (fi_path g)) eqn:E; [|exact I].
      exfalso. apply removed_path_In in E.
      apply (Hdisj (fi_path g)); [apply list_elem_of_In; exact E | now left]. }
  rewrite H1, H2. reflexivity.
Qed.

Lemma NoDup_map_path_join dir (names : list string) :
  NoDup names -> NoDup (map (path_join dir) names).
Proof.
  induction 1 as [|name names Hnot _ IH]; cbn [map]; constructor; [|exact IH].
  rewrite list_elem_of_In, in_map_iff. intros [other [Heq Hin]].
  apply path_join_inj in Heq. subst other.
  apply Hnot, list_elem_of_In, Hin.
Qed.

Lemma cache_total_scanned fs dir files :
  scan fs dir = Some files -> cache_total fs dir = total_size files.
Proof.
  intros Hscan. pose proof (scan_spec _ _ _ Hscan) as Hfiles.
  unfold cache_total. clear Hscan. revert files Hfiles.
  induction (cache_names fs) as [|name names IH]; intros [|f files]; cbn [map];
    try discriminate; [reflexivity|].
  intros [= Hf Hrest]. symmetry in Hf. apply file_info_of_Some in Hf as [_ Hs].
  cbn [fold_right total_size]. fold (total_size files).
  rewrite (IH files Hrest), Hs. reflexivity.
Qed.

(** C3, as stated, fails: when [os.stat] raises on one [.jpg] name,
    [_cleanup_cache] returns at once; a directory over the budget then
    keeps every file and stays over the budget, although every removal
    would succeed. *)
Lemma cleanup_scan_failure_keeps_over_budget :
  (forall p, os_remove_ok demo_fs_unreadable p = true)
  /\ cache_total demo_fs_unreadable "/cache" = 300
  /\ _cleanup_cache "/cache" 100 demo_fs_unreadable = (demo_fs_unreadable, [])
  /\ ~ cache_total (fst (_cleanup_cache "/cache" 100 demo_fs_unreadable))
        "/cache" <= 100.
Proof.
  assert (Hrun : _cleanup_cache "/cache" 100 demo_fs_unreadable
                 = (demo_fs_unreadable, []))
    by (vm_compute; reflexivity).
  split; [intros p; reflexivity|]. split; [vm_compute; reflexivity|].
  split; [exact Hrun|]. rewrite Hrun. cbn [fst].
  assert (Htotal : cache_total demo_fs_unreadable "/cache" = 300)
    by (vm_compute; reflexivity).
  rewrite Htotal. lia.
Qed.

(** C3, amended: when the scan of the cache directory succeeds, [_cleanup_cache]
    changes nothing if the [.jpg] files take at most [max_bytes]; otherwise
    it goes through them by ascending modification time and, when every
    removal succeeds and the budget is not negative, removes exactly the
    shortest prefix of that order whose removal brings the total to
    [max_bytes] or less, so that what is left in the directory takes at
    most [max_bytes]. *)
Theorem cleanup_cache_enforces_budget :
  forall (cache_dir : string) (max_bytes : Z) (fs : filesystem)
         (files : list file_info),
    scan fs cache_dir = Some files ->
    let total := total_size files in
    let sorted := sort_by_mtime files in
    let fs' := fst (_cleanup_cache cache_dir max_bytes fs) in
    let removed := snd (_cleanup_cache cache_dir max_bytes fs) in
    cache_total fs cache_dir = total
    /\ (total <= max_bytes -> fs' = fs /\ removed = [])
    /\ (max_bytes < total ->
        Permutation sorted files
        /\ StronglySorted mtime_le sorted
        /\ ((forall f, In f files -> os_remove_ok fs (fi_path f) = true) ->
            0 <= max_bytes ->
            exists k : nat,
              removed = firstn k sorted
              /\ (forall j : nat,
                     (j < k)%nat ->
                     max_bytes < total - total_size (firstn j sorted))
              /\ total - total_size removed <= max_bytes
              /\ (forall names,
                     os_listdir fs = Some names -> NoDup names ->
                     cache_total fs' cache_dir = total - total_size removed
                     /\ cache_total fs' cache_dir <= max_bytes))).
Proof.
  intros cache_dir max_bytes fs files Hscan total sorted.
  assert (Hcc : _cleanup_cache cache_dir max_bytes fs
                = if (total <=? max_bytes)%Z then (fs, [])
                  else delete_loop cache_dir max_bytes sorted total fs).
  { unfold _cleanup_cache. rewrite Hscan. reflexivity. }
  rewrite Hcc. clear Hcc. intros fs' removed.
  split; [now apply cache_total_scanned|].
  destruct (Z.leb_spec total max_bytes) as [Hle|Hgt].
  - split; [intros _; split; reflexivity | intros H; lia].
  - split; [intros H; lia | intros _].
    pose proof (sort_by_mtime_perm files) as Hperm. fold sorted in Hperm.
    split; [exact Hperm|].
    split; [apply sort_by_mtime_sorted|].
    intros Hok Hmax.
    destruct (delete_loop_prefix cache_dir max_bytes sorted total fs)
      as [k [Hk [Hrem [Hbefore Hafter]]]].
    { intros f Hf. apply Hok. eapply Permutation_in; [exact Hperm | exact Hf]. }
    fold removed in Hrem.
    assert (Htot : total_size sorted = total) by now apply total_size_perm.
    assert (Hsplit : total_size (firstn k sorted) + total_size (skipn k sorted) = total).
    { rewrite <- total_size_app, firstn_skipn. exact Htot. }
    assert (Hleft : total - total_size removed <= max_bytes).
    { rewrite Hrem. destruct Hafter as [H|H]; [exact H|].
      rewrite H, firstn_all, Htot. lia. }
    exists k. split; [exact Hrem|]. split; [exact Hbefore|]. split; [exact Hleft|].
    intros names Hnames Hnd.
    destruct (delete_loop_frame cache_dir max_bytes sorted total fs)
      as [Hstat [_ Hlist]].
    fold fs' in Hstat, Hlist. fold removed in Hlist.
    assert (Hct : cache_total fs' cache_dir = total - total_size removed).
    { rewrite (cache_total_after fs fs' cache_dir removed files Hscan Hstat Hlist).
      assert (Hp2 : Permutation files (removed ++ skipn k sorted)%list).
      { rewrite Hrem, firstn_skipn. symmetry. exact Hperm. }
      rewrite (total_size_perm _ _
                 (filter_Permutation
                    (fun f => negb (removed_path removed (fi_path f))) _ _ Hp2)).
      rewrite total_size_without.
      - rewrite Hrem. lia.
      - rewrite <- (Permutation_map fi_path Hp2).
        rewrite (scanned_paths fs cache_dir (cache_names fs) files)
          by now apply scan_spec.
        apply NoDup_map_path_join. unfold cache_names. rewrite Hnames.
        now apply NoDup_filter. }
    split; [exact Hct | lia].
Qed.

(** *** Only the [.jpg] files matter *)

Lemma delete_loop_removed_in dir max files :
  forall total fs f,
    In f (snd (delete_loop dir max files total fs)) -> In f files.
Proof.
  induction files as [|g rest IH]; intros total fs f; cbn [delete_loop].
  - cbn. auto.
  - destruct (total <=? max)%Z; [cbn; tauto|].
    destruct (os_remove_ok fs (fi_path g)).
    + specialize (IH (total - fi_size g) (os_remove dir (fi_path g) fs) f).
      destruct (delete_loop dir max rest (total - fi_size g)
                  (os_remove dir (fi_path g) fs)) as [fs' removed].
      cbn [snd] in *. intros [<-|H]; [now left | right; auto].
    + intros H. right. eapply IH. exact H.
Qed.

Lemma delete_loop_ext dir max files :
  forall total fs1 fs2,
    (forall f, In f files ->
               os_remove_ok fs1 (fi_path f) = os_remove_ok fs2 (fi_path f)) ->
    snd (delete_loop dir max files total fs1)
    = snd (delete_loop dir max files total fs2).
Proof.
  induction files as [|g rest IH]; intros total fs1 fs2 Hagree;
    cbn [delete_loop]; [reflexivity|].
  destruct (total <=? max)%Z; [reflexivity|].
  rewrite <- (Hagree g) by now left.
  destruct (os_remove_ok fs1 (fi_path g)).
  - specialize (IH (total - fi_size g) (os_remove dir (fi_path g) fs1)
                   (os_remove dir (fi_path g) fs2)).
    destruct (delete_loop dir max rest (total - fi_size g)
                (os_remove dir (fi_path g) fs1)) as [fs1' removed1].
    destruct (delete_loop dir max rest (total - fi_size g)
                (os_remove dir (fi_path g) fs2)) as [fs2' removed2].
    cbn [snd] in *. f_equal. apply IH.
    intros f Hf. cbn. apply Hagree. now right.
  - apply IH. intros f Hf. apply Hagree. now right.
Qed.

Lemma collect_skips_others fs dir names :
  forall acc,
    collect fs dir names acc
    = collect fs dir (filter (fun name => endswith name ".jpg") names) acc.
Proof.
  induction names as [|name rest IH]; intros acc; [reflexivity|].
  cbn [collect]. destruct (endswith name ".jpg") eqn:E; cbn [negb].
  - rewrite filter_cons_True by (rewrite E; exact I).
    cbn [collect]. rewrite E. cbn [negb].
    destruct (os_stat fs (path_join dir name)) as [[size mtime]|]; [|reflexivity].
    apply IH.
  - rewrite filter_cons_False by (rewrite E; exact id). apply IH.
Qed.

Lemma collect_ext fs1 fs2 dir names :
  (forall name, In name names ->
                os_stat fs1 (path_join dir name) = os_stat fs2 (path_join dir name)) ->
  forall acc, collect fs1 dir names acc = collect fs2 dir names acc.
Proof.
  induction names as [|name rest IH]; intros Hagree acc; [reflexivity|].
  cbn [collect]. rewrite <- (Hagree name) by now left.
  destruct (negb (endswith name ".jpg")).
  - apply IH. intros n Hn. apply Hagree. now right.
  - destruct (os_stat fs1 (path_join dir name)) as [[size mtime]|]; [|reflexivity].
    apply IH. intros n Hn. apply Hagree. now right.
Qed.

Lemma scanned_file_name fs dir (names : list string) :
  forall files f,
    map Some files = map (file_info_of fs dir) names ->
    In f files ->
    exists name, In name names /\ fi_path f = path_join dir name.
Proof.
  induction names as [|name names IH]; intros [|g files] f; cbn [map];
    try discriminate; [intros _ []|].
  intros [= Hg Hrest] [<-|Hin].
  - symmetry in Hg. apply file_info_of_Some in Hg as [Hp _].
    exists name. split; [now left | exact Hp].
  - destruct (IH files f Hrest Hin) as [n [Hn Hp]].
    exists n. split; [now right | exact Hp].
Qed.

Lemma cache_names_jpg fs name :
  In name (cache_names fs) -> endswith name ".jpg" = true.
Proof.
  unfold cache_names. destruct (os_listdir fs) as [names|]; [|intros []].
  rewrite <- list_elem_of_In, list_elem_of_filter. intros [H _].
  destruct (endswith name ".jpg"); [reflexivity | destruct H].
Qed.

Lemma cleanup_removed_are_jpg dir max fs f :
  In f (snd (_cleanup_cache dir max fs)) ->
  exists name,
    In name (cache_names fs)
    /\ endswith name ".jpg" = true
    /\ fi_path f = path_join dir name.
Proof.
  unfold _cleanup_cache.
  destruct (scan fs dir) as [files|] eqn:Hscan; [|intros []].
  destruct (total_size files <=? max)%Z; [intros []|].
  intros Hin. apply delete_loop_removed_in in Hin.
  apply (Permutation_in _ (sort_by_mtime_perm files)) in Hin.
  destruct (scanned_file_name fs dir (cache_names fs) files f) as [name [Hn Hp]];
    [now apply scan_spec | exact Hin |].
  exists name. split; [exact Hn|]. split; [|exact Hp].
  eapply cache_names_jpg. exact Hn.
Qed.

Lemma cleanup_keeps_others dir max fs :
  other_names (fst (_cleanup_cache dir max fs)) = other_names fs.
Proof.
  pose proof (cleanup_removed_are_jpg dir max fs) as Hjpg.
  unfold _cleanup_cache in *.
  destruct (scan fs dir) as [files|]; [|reflexivity].
  destruct (total_size files <=? max)%Z; [reflexivity|].
  destruct (delete_loop_frame dir max (sort_by_mtime files) (total_size files) fs)
    as [_ [_ Hlist]].
  unfold other_names. rewrite Hlist.
  destruct (os_listdir fs) as [names|]; cbn [option_map]; [|reflexivity].
  rewrite list_filter_filter. apply list_filter_iff.
  intros name. split; [tauto|]. intros Hother. split; [exact Hother|].
  destruct (removed_path _ (path_join dir name)) eqn:E; [|exact I].
  exfalso. apply removed_path_In, in_map_iff in E as [f [Hp Hf]].
  destruct (Hjpg f Hf) as [n [_ [Hn Hpn]]].
  rewrite Hp in Hpn. apply path_join_inj in Hpn. subst n.
  rewrite Hn in Hother. exact Hother.
Qed.

Lemma cleanup_depends_on_jpg_only dir max fs1 fs2 :
  (os_listdir fs1 = None <-> os_listdir fs2 = None) ->
  cache_names fs1 = cache_names fs2 ->
  (forall name, In name (cache_names fs1) ->
     os_stat fs1 (path_join dir name) = os_stat fs2 (path_join dir name)
     /\ os_remove_ok fs1 (path_join dir name) = os_remove_ok fs2 (path_join dir name)) ->
  snd (_cleanup_cache dir max fs1) = snd (_cleanup_cache dir max fs2).
Proof.
  intros Hnone Hnames Hagree.
  assert (Hscan : scan fs1 dir = scan fs2 dir).
  { unfold scan, cache_names in *.
    destruct (os_listdir fs1) as [n1|], (os_listdir fs2) as [n2|];
      try reflexivity;
      try (destruct Hnone as [H1 H2]; first [now specialize (H1 eq_refl)
                                            | now specialize (H2 eq_refl)]).
    rewrite (collect_skips_others fs1), (collect_skips_others fs2), <- Hnames.
    apply collect_ext. intros name Hn. now apply Hagree. }
  unfold _cleanup_cache. rewrite <- Hscan.
  destruct (scan fs1 dir) as [files|] eqn:E; [|reflexivity].
  destruct (total_size files <=? max)%Z; [reflexivity|].
  apply delete_loop_ext. intros f Hf.
  apply (Permutation_in _ (sort_by_mtime_perm files)) in Hf.
  destruct (scanned_file_name fs1 dir (cache_names fs1) files f) as [name [Hn Hp]];
    [now apply scan_spec | exact Hf |].
  rewrite Hp. now apply Hagree.
Qed.

(** C10: [_cleanup_cache] removes only files whose names end in [.jpg];
    the other names of the directory are all still there afterwards; and
    which files it removes depends on the [.jpg] names alone: two
    directories with the same [.jpg] names, sizes, times and permissions
    get the same removals, whatever else they hold. *)
Theorem cleanup_cache_only_touches_jpg :
  forall (cache_dir : string) (max_bytes : Z) (fs : filesystem),
    (forall f, In f (snd (_cleanup_cache cache_dir max_bytes fs)) ->
       exists name,
         In name (cache_names fs)
         /\ endswith name ".jpg" = true
         /\ fi_path f = path_join cache_dir name)
    /\ other_names (fst (_cleanup_cache cache_dir max_bytes fs)) = other_names fs
    /\ (forall fs2 : filesystem,
          (os_listdir fs = None <-> os_listdir fs2 = None) ->
          cache_names fs = cache_names fs2 ->
          (forall name, In name (cache_names fs) ->
             os_stat fs (path_join cache_dir name)
             = os_stat fs2 (path_join cache_dir name)
             /\ os_remove_ok fs (path_join cache_dir name)
                = os_remove_ok fs2 (path_join cache_dir name)) ->
          snd (_cleanup_cache cache_dir max_bytes fs)
          = snd (_cleanup_cache cache_dir max_bytes fs2)).
Proof.
  intros cache_dir max_bytes fs. split; [|split].
  - apply cleanup_removed_are_jpg.
  - apply cleanup_keeps_others.
  - intros fs2. apply cleanup_depends_on_jpg_only.
Qed.

(** ** Disk cache store and thumbnail worker *)

Lemma source_opens_app (a b : list event) :
  source_opens (a ++ b) = (source_opens a + source_opens b)%nat.
Proof. unfold source_opens. now rewrite List.filter_app, length_app. Qed.

Lemma cache_get_effect cache_dir k size d :
  cache_files (snd (_cache_get cache_dir k size d)) = cache_files d
  /\ exists evs,
       trace (snd (_cache_get cache_dir k size d)) = (trace d ++ evs)%list
       /\ source_opens evs = 0%nat.
Proof.
  unfold _cache_get. cbn [log cache_files trace].
  destruct (cache_files d !! _) as [[img|]|]; cbn [snd cache_files trace log];
    (split; [reflexivity|]); rewrite <- ?app_assoc; eexists; split;
    reflexivity.
Qed.

Section WorkerFacts.

Context {pyfloat : Type} (float_str : pyfloat -> string).
Variables (e : env pyfloat) (path cache_dir : string) (key : option string).

Lemma cache_put_effect k size img d :
  trace (_cache_put e cache_dir k size img d)
  = (trace d ++ [EvCacheSave (path_join cache_dir (cache_file_name k size))])%list
  /\ (cache_files (_cache_put e cache_dir k size img d) = cache_files d
      \/ exists c,
           (c = Readable (JpegOf (jpeg_input img)) \/ c = Corrupt)
           /\ cache_files (_cache_put e cache_dir k size img d)
              = <[path_join cache_dir (cache_file_name k size) := c]>
                  (cache_files d)).
Proof.
  unfold _cache_put. fold (jpeg_input img).
  destruct (save_ok e _); [|destruct (save_damages e _)];
    cbn [log trace cache_files]; (split; [reflexivity|]); eauto.
Qed.

(** The lookup at the head of the loop body. *)
Lemma lookup_at_head (k_opt : option string) (size : Z) (d : disk) :
  fst (match truthy k_opt with
       | Some k => _cache_get cache_dir k size d
       | None => (None, d)
       end)
  = cached_image cache_dir k_opt size (cache_files d).
Proof.
  unfold cached_image. destruct (truthy k_opt) as [k|] eqn:Hk; [|reflexivity].
  unfold _cache_get. cbn [log cache_files].
  destruct (cache_files d !! _) as [[img|]|]; reflexivity.
Qed.

Lemma lookup_at_head_effect (k_opt : option string) (size : Z) (d : disk) :
  let d1 := snd (match truthy k_opt with
                 | Some k => _cache_get cache_dir k size d
                 | None => (None, d)
                 end) in
  cache_files d1 = cache_files d
  /\ exists evs, trace d1 = (trace d ++ evs)%list /\ source_opens evs = 0%nat.
Proof.
  destruct (truthy k_opt) as [k|]; cbn zeta.
  - apply cache_get_effect.
  - cbn [snd]. split; [reflexivity|]. exists []. now rewrite app_nil_r.
Qed.


(** One turn of the [for size in thumb_sizes] loop. *)
Lemma loop_body_spec (st : loop_state) (size : Z) :
  let st' := loop_body e path cache_dir key st size in
  exists evs,
    trace (disk_now st') = (trace (disk_now st) ++ evs)%list
    /\ match cached_image cache_dir key size (cache_files (disk_now st)) with
       | Some img =>
           pil_images st' = (pil_images st ++ [img])%list
           /\ source_img st' = source_img st
           /\ cache_files (disk_now st') = cache_files (disk_now st)
           /\ source_opens evs = 0%nat
       | None =>
           let src := match source_img st with
                      | None => open_source e path
                      | Some s => s
                      end in
           source_img st' = Some src
           /\ source_opens evs = match source_img st with
                                 | None => 1%nat
                                 | Some _ => 0%nat
                                 end
           /\ match src with
              | None =>
                  pil_images st' = (pil_images st ++ [placeholder size])%list
                  /\ cache_files (disk_now st') = cache_files (disk_now st)
              | Some s =>
                  pil_images st' = (pil_images st ++ [Thumbnail s size])%list
                  /\ (cache_files (disk_now st') = cache_files (disk_now st)
                      \/ exists k c,
                           truthy key = Some k
                           /\ (c = Readable (JpegOf (jpeg_input (Thumbnail s size)))
                               \/ c = Corrupt)
                           /\ cache_files (disk_now st')
                              = <[path_join cache_dir (cache_file_name k size)
                                  := c]>
                                  (cache_files (disk_now st)))
              end
       end.
Proof.
  cbn zeta. unfold loop_body.
  pose proof (lookup_at_head key size (disk_now st)) as Hfst.
  pose proof (lookup_at_head_effect key size (disk_now st)) as Hsnd.
  cbn zeta in Hsnd.
  destruct (match truthy key with
            | Some k => _cache_get cache_dir k size (disk_now st)
            | None => (None, disk_now st)
            end) as [cached d1].
  cbn [fst snd] in Hfst, Hsnd. destruct Hsnd as [Hfiles [evs1 [Htr1 Hops1]]].
  rewrite <- Hfst. destruct cached as [img|].
  - exists evs1. cbn [disk_now pil_images source_img]. auto.
  - destruct (source_img st) as [s|] eqn:Hsrc.
    + (* the source has been opened before *)
      destruct s as [s|]; cbn [disk_now pil_images source_img].
      * destruct (truthy key) as [k|] eqn:Hk.
        -- destruct (cache_put_effect k size (Thumbnail s size) d1) as [Htr2 Hf2].
           exists (evs1 ++ [EvCacheSave (path_join cache_dir (cache_file_name k size))])%list.
           rewrite Htr2, Htr1, <- app_assoc. split; [reflexivity|].
           split; [reflexivity|]. split.
           { rewrite source_opens_app, Hops1. reflexivity. }
           split; [reflexivity|].
           destruct Hf2 as [Hf2|[c [Hc Hf2]]]; rewrite Hf2, Hfiles;
             [now left | right].
           exists k, c. auto.
        -- exists evs1. rewrite Htr1. repeat split; auto.
      * exists evs1. rewrite Htr1. repeat split; auto.
    + (* the source is opened now *)
      destruct (open_source e path) as [s|] eqn:Hopen;
        cbn [disk_now pil_images source_img log trace cache_files].
      * destruct (truthy key) as [k|] eqn:Hk.
        -- destruct (cache_put_effect k size (Thumbnail s size)
                       (log (EvSourceOpen path) d1)) as [Htr2 Hf2].
           cbn [log trace cache_files] in Htr2, Hf2.
           exists (evs1 ++ [EvSourceOpen path;
                            EvCacheSave (path_join cache_dir (cache_file_name k size))])%list.
           rewrite Htr2, Htr1, <- !app_assoc. split; [reflexivity|].
           split; [reflexivity|]. split.
           { rewrite source_opens_app, Hops1. reflexivity. }
           split; [reflexivity|].
           destruct Hf2 as [Hf2|[c [Hc Hf2]]]; rewrite Hf2, Hfiles;
             [now left | right].
           exists k, c. auto.
        -- exists (evs1 ++ [EvSourceOpen path])%list.
           cbn [log trace cache_files].
           rewrite Htr1, <- app_assoc. split; [reflexivity|].
           split; [reflexivity|]. split.
           { rewrite source_opens_app, Hops1. reflexivity. }
           split; [reflexivity | left; exact Hfiles].
      * exists (evs1 ++ [EvSourceOpen path])%list.
        rewrite Htr1, <- app_assoc. split; [reflexivity|].
        split; [reflexivity|]. split.
        { rewrite source_opens_app, Hops1. reflexivity. }
        split; [reflexivity | exact Hfiles].
Qed.

End WorkerFacts.

Lemma string_app_inv_tail (a b c : string) : a ++ c = b ++ c -> a = b.
Proof.
  revert b. induction a as [|x a IH]; intros [|y b] H.
  - reflexivity.
  - exfalso. apply (f_equal String.length) in H.
    rewrite !string_length_app in H. cbn [String.length] in H. lia.
  - exfalso. apply (f_equal String.length) in H.
    rewrite !string_length_app in H. cbn [String.length] in H. lia.
  - change (String x (a ++ c) = String y (b ++ c)) in H.
    injection H as -> H. f_equal. now apply IH.
Qed.

Lemma cache_file_name_inj (k : string) (a b : Z) :
  cache_file_name k a = cache_file_name k b -> a = b.
Proof.
  unfold cache_file_name. intros H.
  apply string_app_inv_head in H.
  apply (string_app_inv_head "_") in H.
  apply string_app_inv_tail in H.
  now apply py_str_int_inj.
Qed.

Section WorkerLoop.

Context {pyfloat : Type} (float_str : pyfloat -> string).
Variables (e : env pyfloat) (path cache_dir : string) (key : option string).

Lemma loop_pil_images_app (sizes : list Z) :
  forall st,
    exists imgs,
      pil_images (fold_left (loop_body e path cache_dir key) sizes st)
      = (pil_images st ++ imgs)%list
      /\ length imgs = length sizes.
Proof.
  induction sizes as [|size rest IH]; intros st; cbn [fold_left].
  - exists []. now rewrite app_nil_r.
  - destruct (IH (loop_body e path cache_dir key st size)) as [imgs [Hi Hl]].
    destruct (loop_body_spec e path cache_dir key st size) as [evs [_ Hstep]].
    cbn zeta in Hstep.
    assert (Hone : exists img,
               pil_images (loop_body e path cache_dir key st size)
               = (pil_images st ++ [img])%list).
    { destruct (cached_image cache_dir key size (cache_files (disk_now st))).
      - eexists. apply Hstep.
      - destruct Hstep as [_ [_ Hstep]].
        destruct (match source_img st with
                  | Some s => s
                  | None => open_source e path
                  end); eexists; apply Hstep. }
    destruct Hone as [img Himg].
    exists (img :: imgs). rewrite Hi, Himg, <- app_assoc. split; [reflexivity|].
    cbn [length]. now rewrite Hl.
Qed.

(** When the source cannot be decoded, nothing is written to the cache and
    each size gets its cached image or a placeholder. *)
Lemma loop_decode_failure (sizes : list Z) :
  open_source e path = None ->
  forall st,
    (forall s, source_img st <> Some (Some s)) ->
    let st' := fold_left (loop_body e path cache_dir key) sizes st in
    pil_images st'
    = (pil_images st
       ++ map (cached_or_placeholder cache_dir key (cache_files (disk_now st)))
              sizes)%list
    /\ cache_files (disk_now st') = cache_files (disk_now st).
Proof.
  intros Hopen. induction sizes as [|size rest IH]; intros st Hsrc; cbn zeta;
    cbn [fold_left map].
  - now rewrite app_nil_r.
  - destruct (loop_body_spec e path cache_dir key st size) as [evs [_ Hstep]].
    cbn zeta in Hstep.
    assert (Hcp : cached_or_placeholder cache_dir key (cache_files (disk_now st)) size
                  = match cached_image cache_dir key size (cache_files (disk_now st)) with
                    | Some img => img
                    | None => placeholder size
                    end) by reflexivity.
    rewrite Hcp. clear Hcp.
    destruct (cached_image cache_dir key size (cache_files (disk_now st)))
      as [img|].
    + destruct Hstep as [Hi [Hs [Hf _]]].
      destruct (IH (loop_body e path cache_dir key st size)) as [Hi' Hf'].
      { intros s. rewrite Hs. apply Hsrc. }
      rewrite Hi', Hf', Hi, Hf, <- app_assoc. auto.
    + destruct Hstep as [Hs [_ Hstep]].
      assert (Hnone : match source_img st with
                      | Some s => s
                      | None => open_source e path
                      end = None).
      { destruct (source_img st) as [[s|]|] eqn:E; auto. now destruct (Hsrc s). }
      rewrite Hnone in Hstep, Hs. destruct Hstep as [Hi Hf].
      destruct (IH (loop_body e path cache_dir key st size)) as [Hi' Hf'].
      { intros s. rewrite Hs. discriminate. }
      rewrite Hi', Hf', Hi, Hf, <- app_assoc. auto.
Qed.

(** The source is opened when the first size misses the cache, and never
    again. *)
Lemma loop_source_opens (sizes : list Z) :
  forall st,
    let st' := fold_left (loop_body e path cache_dir key) sizes st in
    exists evs,
      trace (disk_now st') = (trace (disk_now st) ++ evs)%list
      /\ match source_img st with
         | None =>
             source_opens evs
             = (if all_cached cache_dir key sizes (cache_files (disk_now st))
                then 0%nat else 1%nat)
             /\ (all_cached cache_dir key sizes (cache_files (disk_now st)) = true ->
                 source_img st' = None
                 /\ cache_files (disk_now st') = cache_files (disk_now st))
         | Some _ => source_opens evs = 0%nat
         end.
Proof.
  induction sizes as [|size rest IH]; intros st; cbn zeta; cbn [fold_left].
  - exists []. rewrite app_nil_r. split; [reflexivity|].
    destruct (source_img st); cbn; auto.
  - destruct (loop_body_spec e path cache_dir key st size) as [evs1 [Htr1 Hstep]].
    cbn zeta in Hstep.
    destruct (IH (loop_body e path cache_dir key st size)) as [evs2 [Htr2 Hrest]].
    exists (evs1 ++ evs2)%list. rewrite Htr2, Htr1, <- app_assoc.
    split; [reflexivity|]. rewrite source_opens_app.
    cbn [all_cached forallb]. fold (all_cached cache_dir key rest).
    destruct (cached_image cache_dir key size (cache_files (disk_now st)))
      as [img|].
    + destruct Hstep as [_ [Hs [Hf Hops]]]. rewrite Hs, Hf in Hrest. rewrite Hops.
      destruct (source_img st); cbn [andb]; [exact Hrest|].
      destruct Hrest as [Hn Hall]. split; [exact Hn|].
      intros Hc. destruct (Hall Hc) as [H1 H2]. split; [exact H1|].
      now rewrite H2.
    + destruct Hstep as [Hs [Hops _]]. rewrite Hs in Hrest. rewrite Hops, Hrest.
      destruct (source_img st); cbn [andb]; [reflexivity|].
      split; [reflexivity | discriminate].
Qed.

End WorkerLoop.

Section WorkerPreviews.

Context {pyfloat : Type} (float_str : pyfloat -> string).
Variables (e : env pyfloat) (path cache_dir : string) (key : option string).
Variable files0 : gmap string cache_file.

Lemma loop_previews (sizes : list Z) :
  forall st,
    written_by_run e path cache_dir key files0 (cache_files (disk_now st)) ->
    (source_img st = None \/ source_img st = Some (open_source e path)) ->
    exists imgs,
      pil_images (fold_left (loop_body e path cache_dir key) sizes st)
      = (pil_images st ++ imgs)%list
      /\ Forall2 (preview_for e path cache_dir key files0) sizes imgs.
Proof.
  induction sizes as [|size rest IH]; intros st Hfiles Hsrc; cbn [fold_left].
  - exists []. rewrite app_nil_r. split; [reflexivity | constructor].
  - destruct (loop_body_spec e path cache_dir key st size) as [evs [_ Hstep]].
    cbn zeta in Hstep.
    assert (Hsame : match source_img st with
                    | Some s => s
                    | None => open_source e path
                    end = open_source e path)
      by (destruct Hsrc as [-> | ->]; reflexivity).
    rewrite Hsame in Hstep.
    assert (Hnext : exists img,
               pil_images (loop_body e path cache_dir key st size)
               = (pil_images st ++ [img])%list
               /\ preview_for e path cache_dir key files0 size img
               /\ written_by_run e path cache_dir key files0
                    (cache_files (disk_now (loop_body e path cache_dir key st size)))
               /\ (source_img (loop_body e path cache_dir key st size) = None
                   \/ source_img (loop_body e path cache_dir key st size)
                      = Some (open_source e path))).
    { destruct (cached_image cache_dir key size (cache_files (disk_now st)))
        as [img|] eqn:Hhit.
      - destruct Hstep as [Hi [Hs [Hf _]]]. exists img.
        split; [exact Hi|]. rewrite Hf, Hs. split; [|auto].
        unfold cached_image in Hhit.
        destruct (truthy key) as [k|] eqn:Hk; [|discriminate].
        destruct (cache_files (disk_now st) !! _) as [[img'|]|] eqn:Hlook;
          try discriminate.
        assert (img' = img) by congruence. subst img'. clear Hhit.
        destruct (Hfiles _ _ Hlook)
          as [H0|[s [k' [size' [Ho [Hk' [Hp [Hc|Hc]]]]]]]]; [| |discriminate].
        + left. unfold cached_image. now rewrite Hk, H0.
        + right. left. exists s. split; [exact Ho|]. right.
          assert (k' = k) by congruence. subst k'.
          apply path_join_inj, cache_file_name_inj in Hp. subst size'.
          injection Hc as ->. split; [congruence | reflexivity].
      - destruct Hstep as [Hs [_ Hstep]].
        destruct (open_source e path) as [s|] eqn:Ho.
        + destruct Hstep as [Hi Hf]. exists (Thumbnail s size).
          split; [exact Hi|]. split.
          { right. left. exists s. auto. }
          split; [|right; exact Hs].
          destruct Hf as [-> | [k [c0 [Hk [Hc0 ->]]]]]; [exact Hfiles|].
          intros p c Hlook.
          destruct (decide (path_join cache_dir (cache_file_name k size) = p))
            as [<-|Hne].
          * rewrite lookup_insert_eq in Hlook. injection Hlook as <-.
            right. exists s, k, size. auto.
          * rewrite lookup_insert_ne in Hlook by exact Hne. now apply Hfiles.
        + destruct Hstep as [Hi Hf]. exists (placeholder size).
          split; [exact Hi|]. split; [right; right; auto|].
          rewrite Hf. split; [exact Hfiles | right; exact Hs]. }
    destruct Hnext as [img [Hi [Hprev [Hfiles' Hsrc']]]].
    destruct (IH _ Hfiles' Hsrc') as [imgs [Himgs Hall]].
    exists (img :: imgs). rewrite Himgs, Hi, <- app_assoc.
    split; [reflexivity | now constructor].
Qed.

End WorkerPreviews.

Lemma worker_loop_unfold {pyfloat : Type} (float_str : pyfloat -> string)
    (e : env pyfloat) (path cache_dir : string) (sizes : list Z) (d : disk) :
  worker_loop float_str e path cache_dir sizes d
  = fold_left (loop_body e path cache_dir (worker_key float_str e path)) sizes
      {| pil_images := []; source_img := None; disk_now := log (EvStat path) d |}.
Proof. reflexivity. Qed.

(** C7: [_process_image_worker] returns the path, the file name and a list
    with one image per requested size, in the order of the sizes; the
    image for a size is the one the cache held for it, a thumbnail of the
    decoded source bounded by that size, or the placeholder of that size. *)
Theorem worker_returns_one_preview_per_size :
  forall (pyfloat : Type) (float_str : pyfloat -> string) (e : env pyfloat)
         (path : string) (thumb_sizes : list Z) (cache_dir : string) (d : disk),
    let result := fst (_process_image_worker float_str e path thumb_sizes cache_dir d) in
    fst (fst result) = path
    /\ snd (fst result) = basename path
    /\ length (snd result) = length thumb_sizes
    /\ Forall2 (preview_for e path cache_dir (worker_key float_str e path)
                  (cache_files d))
               thumb_sizes (snd result).
Proof.
  intros pyfloat float_str e path thumb_sizes cache_dir d.
  unfold _process_image_worker. cbn [fst snd].
  rewrite worker_loop_unfold.
  split; [reflexivity|]. split; [reflexivity|].
  destruct (loop_previews e path cache_dir (worker_key float_str e path)
              (cache_files d) thumb_sizes
              {| pil_images := []; source_img := None;
                 disk_now := log (EvStat path) d |})
    as [imgs [Himgs Hall]].
  - intros p c H. left. exact H.
  - left. reflexivity.
  - rewrite Himgs. cbn [pil_images Init.Datatypes.app].
    split; [|exact Hall].
    symmetry. eapply Forall2_length. exact Hall.
Qed.

(** C5: in one run of [_process_image_worker] the source image is opened
    once if some requested size misses the cache and not at all if every
    size is a cache hit; and as long as the sizes processed so far are all
    cache hits, the source has not been opened. *)
Theorem worker_decodes_source_at_most_once :
  forall (pyfloat : Type) (float_str : pyfloat -> string) (e : env pyfloat)
         (path : string) (thumb_sizes : list Z) (cache_dir : string) (d : disk),
    let key := worker_key float_str e path in
    exists evs,
      trace (snd (_process_image_worker float_str e path thumb_sizes cache_dir d))
      = (trace d ++ EvStat path :: evs)%list
      /\ source_opens evs
         = (if all_cached cache_dir key thumb_sizes (cache_files d)
            then 0%nat else 1%nat)
      /\ (source_opens evs <= 1)%nat
      /\ (forall hits rest,
             thumb_sizes = (hits ++ rest)%list ->
             all_cached cache_dir key hits (cache_files d) = true ->
             let st := worker_loop float_str e path cache_dir hits d in
             source_img st = None
             /\ source_opens (trace (disk_now st)) = source_opens (trace d)
             /\ cache_files (disk_now st) = cache_files d).
Proof.
  intros pyfloat float_str e path thumb_sizes cache_dir d key.
  unfold _process_image_worker. cbn [snd]. rewrite worker_loop_unfold. fold key.
  destruct (loop_source_opens e path cache_dir key thumb_sizes
              {| pil_images := []; source_img := None;
                 disk_now := log (EvStat path) d |})
    as [evs [Htr [Hops _]]].
  cbn [source_img disk_now log trace cache_files] in Htr, Hops.
  exists evs. rewrite Htr, <- app_assoc. split; [reflexivity|].
  split; [exact Hops|]. split.
  { rewrite Hops. destruct (all_cached _ _ _ _); lia. }
  intros hits rest _ Hall. cbn zeta. rewrite worker_loop_unfold. fold key.
  destruct (loop_source_opens e path cache_dir key hits
              {| pil_images := []; source_img := None;
                 disk_now := log (EvStat path) d |})
    as [evs' [Htr' [Hops' Hkeep]]].
  cbn [source_img disk_now log trace cache_files] in Htr', Hops', Hkeep.
  destruct (Hkeep Hall) as [Hsrc Hfiles].
  split; [exact Hsrc|]. split; [|exact Hfiles].
  rewrite Htr', !source_opens_app, Hops', Hall. cbn. lia.
Qed.

(** C4, as stated, fails: a size served from the cache keeps its cached
    image when the decoding of the source fails. *)
Lemma decode_failure_keeps_cached_images :
  let run :=
    _process_image_worker whole_seconds_str demo_env "/pics/a.png" THUMB_SIZES
      "/cache" demo_disk in
  open_source demo_env "/pics/a.png" = None
  /\ source_opens (trace (snd run)) = 1%nat
  /\ snd (fst run) = [Pixels 7 RGB; placeholder 150; placeholder 250]
  /\ ~ Forall2 (fun size img => img = placeholder size) THUMB_SIZES (snd (fst run)).
Proof.
  cbn zeta.
  assert (Himgs :
            snd (fst (_process_image_worker whole_seconds_str demo_env
                        "/pics/a.png" THUMB_SIZES "/cache" demo_disk))
            = [Pixels 7 RGB; placeholder 150; placeholder 250])
    by (vm_compute; reflexivity).
  split; [reflexivity|]. split; [vm_compute; reflexivity|].
  split; [exact Himgs|].
  rewrite Himgs. intros H. inversion H as [|? ? ? ? Hhead _]. discriminate Hhead.
Qed.

(** C4, amended: when the source cannot be decoded, the worker still
    returns one image per requested size: the cached image for each size
    that is a cache hit, and for every other size the solid RGB image of
    that size filled with (80, 80, 80); it writes nothing to the cache. *)
Theorem worker_decode_failure_gives_placeholders :
  forall (pyfloat : Type) (float_str : pyfloat -> string) (e : env pyfloat)
         (path : string) (thumb_sizes : list Z) (cache_dir : string) (d : disk),
    open_source e path = None ->
    let key := worker_key float_str e path in
    let run := _process_image_worker float_str e path thumb_sizes cache_dir d in
    snd (fst run)
    = map (cached_or_placeholder cache_dir key (cache_files d)) thumb_sizes
    /\ Forall2 (fun size img =>
                  cached_image cache_dir key size (cache_files d) = Some img
                  \/ (cached_image cache_dir key size (cache_files d) = None
                      /\ img = Solid size size (80, 80, 80)))
               thumb_sizes (snd (fst run))
    /\ cache_files (snd run) = cache_files d.
Proof.
  intros pyfloat float_str e path thumb_sizes cache_dir d Hopen key run.
  subst run. unfold _process_image_worker. cbn [fst snd].
  rewrite worker_loop_unfold. fold key.
  destruct (loop_decode_failure e path cache_dir key thumb_sizes Hopen
              {| pil_images := []; source_img := None;
                 disk_now := log (EvStat path) d |})
    as [Himgs Hfiles]; [discriminate|].
  cbn [pil_images disk_now log cache_files Init.Datatypes.app] in Himgs, Hfiles.
  rewrite Himgs, Hfiles. split; [reflexivity|]. split; [|reflexivity].
  clear Himgs Hfiles. induction thumb_sizes as [|size rest IH]; cbn [map];
    constructor; [|exact IH].
  unfold cached_or_placeholder.
  destruct (cached_image cache_dir key size (cache_files d)); auto.
Qed.

Lemma worker_decode_failure_gives_placeholders_witness :
  snd (fst (_process_image_worker whole_seconds_str demo_env "/pics/a.png"
              THUMB_SIZES "/cache" demo_disk))
  = map (cached_or_placeholder "/cache"
           (worker_key whole_seconds_str demo_env "/pics/a.png")
           (cache_files demo_disk))
        THUMB_SIZES.
Proof.
  exact (proj1 (worker_decode_failure_gives_placeholders
                  Z whole_seconds_str demo_env "/pics/a.png" THUMB_SIZES
                  "/cache" demo_disk eq_refl)).
Defined.

(** ** Completion poller: order of the results *)

Lemma id_in_ids (p : future * nat) (futs : list (future * nat)) :
  p ∈ futs -> fut_id (fst p) ∈ map (fun q => fut_id (fst q)) futs.
Proof.
  intros H. apply list_elem_of_In.
  apply (in_map (fun q : future * nat => fut_id (fst q))).
  apply list_elem_of_In, H.
Qed.

Lemma pop_future_spec (f : future) (i : nat) (futs : list (future * nat)) :
  NoDup (map (fun p => fut_id (fst p)) futs) ->
  (f, i) ∈ futs ->
  exists futs',
    pop_future f futs = Some (i, futs')
    /\ (forall p, p ∈ futs' <-> p ∈ futs /\ fut_id (fst p) <> fut_id f)
    /\ NoDup (map (fun p => fut_id (fst p)) futs').
Proof.
  induction futs as [|[g idx] rest IH]; intros Hnd Hin.
  - apply elem_of_nil in Hin. destruct Hin.
  - cbn [map fst] in Hnd. apply NoDup_cons in Hnd as [Hg Hrest].
    cbn [pop_future]. apply elem_of_cons in Hin as [Heq|Hin].
    + injection Heq as <- <-. unfold same_future. rewrite Nat.eqb_refl.
      exists rest. split; [reflexivity|]. split; [|exact Hrest].
      intros p. rewrite elem_of_cons. split.
      * intros Hp. split; [now right|]. intros Hid. apply Hg.
        rewrite <- Hid. now apply id_in_ids.
      * intros [[->|Hp] Hid]; [now destruct Hid | exact Hp].
    + assert (Hne : fut_id g <> fut_id f).
      { intros Hid. apply Hg. rewrite Hid. now apply (id_in_ids (f, i)). }
      unfold same_future. destruct (Nat.eqb_spec (fut_id f) (fut_id g)) as [E|_];
        [now destruct Hne|].
      destruct (IH Hrest Hin) as [futs' [Hpop [Hmem Hnd']]].
      rewrite Hpop. exists ((g, idx) :: futs'). split; [reflexivity|]. split.
      * intros p. rewrite !elem_of_cons, Hmem. split.
        -- intros [->|[Hp Hid]];
             [split; [now left | exact Hne] | split; [now right | exact Hid]].
        -- intros [[->|Hp] Hid]; [now left | right; split; assumption].
      * cbn [map fst]. apply NoDup_cons. split; [|exact Hnd'].
        intros Hin'. apply Hg.
        apply list_elem_of_In, in_map_iff in Hin' as [p [Hp1 Hp2]].
        apply list_elem_of_In, Hmem in Hp2 as [Hp2 _].
        rewrite <- Hp1. now apply id_in_ids.
Qed.

Lemma omap_insert_filled (slots : list (option entry)) (i : nat) (e : entry) :
  slots !! i = Some None ->
  length (omap id (<[i := Some e]> slots)) = S (length (omap id slots)).
Proof.
  revert i. induction slots as [|s slots IH]; intros [|i] H; cbn in H;
    try discriminate.
  - injection H as ->. reflexivity.
  - specialize (IH i H). destruct s.
    + change (S (length (omap id (<[i:=Some e]> slots)))
              = S (S (length (omap id slots)))).
      now rewrite IH.
    + exact IH.
Qed.

Lemma omap_length_le (slots : list (option entry)) :
  (length (omap id slots) <= length slots)%nat.
Proof.
  induction slots as [|[e|] slots IH]; [reflexivity | |].
  - change (S (length (omap id slots)) <= S (length slots))%nat. lia.
  - change (length (omap id slots) <= S (length slots))%nat. lia.
Qed.

Lemma omap_all_filled (slots : list (option entry)) :
  (length slots <= length (omap id slots))%nat ->
  map Some (omap id slots) = slots.
Proof.
  induction slots as [|[e|] slots IH]; intros H.
  - reflexivity.
  - change (Some e :: map Some (omap id slots) = Some e :: slots).
    change (S (length slots) <= S (length (omap id slots)))%nat in H.
    f_equal. apply IH. lia.
  - change (S (length slots) <= length (omap id slots))%nat in H.
    pose proof (omap_length_le slots). lia.
Qed.

Lemma omap_partly_filled (slots : list (option entry)) (i : nat) :
  slots !! i = Some None -> (length (omap id slots) < length slots)%nat.
Proof.
  revert i. induction slots as [|s slots IH]; intros [|i] H; cbn in H;
    try discriminate.
  - injection H as ->.
    change (length (omap id slots) < S (length slots))%nat.
    pose proof (omap_length_le slots). lia.
  - specialize (IH i H). destruct s.
    + change (S (length (omap id slots)) < S (length slots))%nat. lia.
    + change (length (omap id slots) < S (length slots))%nat. lia.
Qed.

Lemma store_result_spec (idx : nat) (r : outcome) (st : app)
    (slots : list (option entry)) :
  _results st = Some slots ->
  (idx < length slots)%nat ->
  store_result idx r st
  = match delivered (_thumb_size_idx st) r with
    | Some e => Some (set_results (Some (<[idx := Some e]> slots)) st)
    | None => None
    end.
Proof.
  destruct st. cbn [_results _thumb_size_idx]. intros -> Hlt.
  apply Nat.ltb_lt in Hlt.
  unfold store_result, delivered, set_slot. cbn [_results _thumb_size_idx].
  rewrite Hlt.
  destruct (entry_of_outcome _thumb_size_idx0 r) as [e|]; [reflexivity|].
  destruct (error_entry _thumb_size_idx0); reflexivity.
Qed.

Section Harvest.

Variables (J : list (future * nat)) (k : nat) (result : future -> outcome).
Hypothesis J_indexed : forall i f j, J !! i = Some (f, j) -> j = i.

Lemma harvest_inv (batch : list future) :
  forall st,
    session_inv J k result st ->
    NoDup (map fut_id batch) ->
    (forall f, f ∈ batch -> exists i, (f, i) ∈ _futures st) ->
    match harvest result batch st with
    | Normal st' => session_inv J k result st'
    | Raises st' =>
        session_inv J k result st'
        /\ (_completed_count st' < _total_count st')%nat
    end.
Proof using J_indexed.
  induction batch as [|f rest IH]; intros st Hinv Hnd Hpend; cbn [harvest].
  - exact Hinv.
  - destruct (Hpend f ltac:(left)) as [i Hfi].
    destruct Hinv as [slots [Hres [Hlen [Hfilled [Hcount [Hids [Hpending [Htot [Hk Hc]]]]]]]]].
    destruct (pop_future_spec f i (_futures st) Hids Hfi) as [futs' [Hpop [Hmem Hnd']]].
    rewrite Hpop.
    destruct (Hpending f i Hfi) as [HJi Hslot].
    assert (Hlt : (i < length slots)%nat) by (eapply lookup_lt_Some; exact Hslot).
    cbn [map] in Hnd. apply NoDup_cons in Hnd as [Hf Hrest].
    assert (Hother : forall g j, (g, j) ∈ futs' -> j <> i).
    { intros g j Hg ->. apply Hmem in Hg as [Hg Hid].
      destruct (Hpending g i Hg) as [HJg _]. rewrite HJi in HJg.
      injection HJg as <-. now destruct Hid. }
    rewrite (store_result_spec i (result f) (set_futures futs' st) slots);
      [| destruct st; exact Hres | exact Hlt].
    replace (_thumb_size_idx (set_futures futs' st)) with k
      by (destruct st; symmetry; exact Hk).
    destruct (delivered k (result f)) as [e|] eqn:Hdel.
    + apply IH.
      * exists (<[i := Some e]> slots).
        destruct st. cbn in *. subst.
        split; [reflexivity|]. split; [now rewrite length_insert|].
        split.
        { intros j e' Hj. destruct (decide (i = j)) as [<-|Hne].
          - rewrite list_lookup_insert_eq in Hj by exact Hlt.
            injection Hj as <-. exists f. auto.
          - rewrite list_lookup_insert_ne in Hj by exact Hne. now apply Hfilled. }
        split; [rewrite (omap_insert_filled slots i e Hslot); lia|].
        split; [exact Hnd'|]. split; [|auto].
        intros g j Hg. pose proof (Hother g j Hg) as Hne.
        apply Hmem in Hg as [Hg _]. destruct (Hpending g j Hg) as [H1 H2].
        split; [exact H1|]. rewrite list_lookup_insert_ne by congruence. exact H2.
      * exact Hrest.
      * intros g Hg. destruct (Hpend g ltac:(now right)) as [j Hj].
        exists j. destruct st. cbn in *. apply Hmem. split; [exact Hj|].
        cbn. intros Hid. apply Hf. rewrite <- Hid.
        apply list_elem_of_In, in_map, list_elem_of_In, Hg.
    + split.
      * exists slots. destruct st. cbn in *. subst.
        split; [reflexivity|]. split; [exact Hlen|]. split; [exact Hfilled|].
        split; [reflexivity|]. split; [exact Hnd'|]. split; [|auto].
        intros g j Hg. apply Hmem in Hg as [Hg _]. apply (Hpending g j Hg).
      * destruct st. cbn in *. subst.
        rewrite <- Hlen. eapply omap_partly_filled. exact Hslot.
Qed.

End Harvest.

Lemma lookup_map {A B : Type} (g : A -> B) (l : list A) (i : nat) :
  map g l !! i = g <$> (l !! i).
Proof. change (map g l) with (g <$> l). apply list_lookup_fmap. Qed.

Lemma sublist_map {A B : Type} (g : A -> B) (l1 l2 : list A) :
  l1 `sublist_of` l2 -> map g l1 `sublist_of` map g l2.
Proof. induction 1; cbn [map]; constructor; assumption. Qed.

Lemma NoDup_map_sublist {A B : Type} (g : A -> B) (l1 l2 : list A) :
  l1 `sublist_of` l2 -> NoDup (map g l2) -> NoDup (map g l1).
Proof.
  intros Hsub Hnd. apply (sublist_map g) in Hsub.
  eapply sublist_NoDup; eassumption.
Qed.

Lemma omap_replicate_None (n : nat) :
  omap id (replicate n (@None entry)) = [].
Proof. induction n as [|n IH]; [reflexivity | exact IH]. Qed.

Lemma submit_all_lookup CACHE_DIR dir files first i :
  submit_all CACHE_DIR dir files first !! i
  = (fun f => ({| fut_id := first + i; fut_path := path_join dir f;
                  fut_sizes := THUMB_SIZES; fut_cache_dir := CACHE_DIR |}, i))
      <$> files !! i.
Proof. unfold submit_all. apply list_lookup_imap. Qed.

Lemma submit_all_indexed CACHE_DIR dir files first i f j :
  submit_all CACHE_DIR dir files first !! i = Some (f, j) -> j = i.
Proof.
  rewrite submit_all_lookup. destruct (files !! i); cbn; [|discriminate].
  now intros [= _ <-].
Qed.

Lemma submit_all_ids CACHE_DIR dir files first :
  NoDup (map (fun p => fut_id (fst p)) (submit_all CACHE_DIR dir files first)).
Proof.
  apply NoDup_alt. intros i j x. rewrite !lookup_map, !submit_all_lookup.
  destruct (files !! i), (files !! j); cbn; try discriminate.
  intros [= <-] [= H]. lia.
Qed.

(** Reads attributes through assignments, and nothing else. *)
Ltac app_cbn :=
  cbn [directory images _thumb_size_idx _split_mode _loading
       _load_cancelled _executor _futures _results _completed_count
       _total_count lbl_dir btn_select_enabled btn_rename_enabled
       btn_cancel_shown canvas canvas_r pool_log next_future polls_pending
       set_directory set_images set_thumb_size_idx set_split_mode
       set_loading set_load_cancelled set_executor set_futures set_results
       set_completed_count set_total_count set_lbl_dir
       set_btn_select_enabled set_btn_rename_enabled set_btn_cancel_shown
       set_canvas set_canvas_r set_pool_log set_next_future
       set_polls_pending state_of _draw_progress _cancel_loading].

Ltac app_cbn_in H :=
  cbn [directory images _thumb_size_idx _split_mode _loading
       _load_cancelled _executor _futures _results _completed_count
       _total_count lbl_dir btn_select_enabled btn_rename_enabled
       btn_cancel_shown canvas canvas_r pool_log next_future polls_pending
       set_directory set_images set_thumb_size_idx set_split_mode
       set_loading set_load_cancelled set_executor set_futures set_results
       set_completed_count set_total_count set_lbl_dir
       set_btn_select_enabled set_btn_rename_enabled set_btn_cancel_shown
       set_canvas set_canvas_r set_pool_log set_next_future
       set_polls_pending state_of _draw_progress _cancel_loading] in H.

Ltac app_cbn_all :=
  cbn [directory images _thumb_size_idx _split_mode _loading
       _load_cancelled _executor _futures _results _completed_count
       _total_count lbl_dir btn_select_enabled btn_rename_enabled
       btn_cancel_shown canvas canvas_r pool_log next_future polls_pending
       set_directory set_images set_thumb_size_idx set_split_mode
       set_loading set_load_cancelled set_executor set_futures set_results
       set_completed_count set_total_count set_lbl_dir
       set_btn_select_enabled set_btn_rename_enabled set_btn_cancel_shown
       set_canvas set_canvas_r set_pool_log set_next_future
       set_polls_pending state_of _draw_progress _cancel_loading] in *.

Lemma slots_all_delivered J k result (slots : list (option entry)) :
  length slots = length J ->
  (forall i e, slots !! i = Some (Some e) ->
     exists f, J !! i = Some (f, i) /\ delivered k (result f) = Some e) ->
  (length slots <= length (omap id slots))%nat ->
  map Some (omap id slots)
  = map (fun job : future * nat => delivered k (result (fst job))) J.
Proof.
  intros Hlen Hfilled Hall. rewrite (omap_all_filled slots Hall).
  apply list_eq. intros i. rewrite lookup_map.
  destruct (slots !! i) as [[e|]|] eqn:E.
  - destruct (Hfilled i e E) as [f [HJ Hd]]. rewrite HJ. cbn. now rewrite Hd.
  - pose proof (omap_partly_filled slots i E). lia.
  - apply lookup_ge_None in E. rewrite Hlen in E.
    apply lookup_ge_None in E. now rewrite E.
Qed.

Section Ticks.

Variables (J : list (future * nat)) (k : nat) (result : future -> outcome).
Hypothesis J_indexed : forall i f j, J !! i = Some (f, j) -> j = i.

Lemma poll_loading (done : future -> bool) (st : app) :
  session_inv J k result st ->
  (_completed_count st < _total_count st)%nat ->
  loading_or_done J k result (state_of (_poll_futures done result st)).
Proof using J_indexed.
  intros Hinv Hlt. unfold _poll_futures.
  assert (Hc : _load_cancelled st = false).
  { destruct Hinv as [slots H]. apply H. }
  rewrite Hc.
  set (batch := take 10 (filter (fun f => done f) (map fst (_futures st)))).
  assert (Hsub : batch `sublist_of` map fst (_futures st)).
  { subst batch. etransitivity; [apply sublist_take | apply sublist_filter]. }
  assert (Hb1 : NoDup (map fut_id batch)).
  { apply (NoDup_map_sublist fut_id _ _ Hsub). rewrite map_map.
    destruct Hinv as [slots H]. apply H. }
  assert (Hb2 : forall f, f ∈ batch -> exists i, (f, i) ∈ _futures st).
  { intros f Hf. apply (elem_of_sublist _ _ _ Hf) in Hsub.
    apply list_elem_of_In, in_map_iff in Hsub as [[g i] [Hg Hin]].
    cbn in Hg. subst g. exists i. now apply list_elem_of_In. }
  pose proof (harvest_inv J k result J_indexed batch st Hinv Hb1 Hb2) as Hh.
  destruct (harvest result batch st) as [st1|st1]; [|left; exact Hh].
  set (st2 := match batch with
              | [] => st1
              | _ :: _ =>
                  _draw_progress (_completed_count st1) (_total_count st1) st1
              end).
  assert (Hinv2 : session_inv J k result st2).
  { subst st2. destruct batch; [exact Hh|].
    destruct st1. exact Hh. }
  clearbody st2. clear Hh st1.
  destruct Hinv2 as [slots [Hres [Hlen [Hfilled [Hcount [Hids [Hpending [Htot [Hk Hc2]]]]]]]]].
  destruct (Nat.leb_spec (_total_count st2) (_completed_count st2)) as [Hge|Hless].
  - rewrite Hres. right.
    assert (Himgs : map Some (omap id slots)
                    = map (fun job : future * nat => delivered k (result (fst job))) J).
    { apply slots_all_delivered; auto. lia. }
    destruct st2. unfold _draw_grid, _finish_loading. app_cbn. app_cbn_in Hge.
    app_cbn_in Hc2.
    destruct _executor0, _split_mode0; app_cbn;
      (split; [reflexivity|]); (split; [reflexivity|]);
      (split; [exact Hc2|]); (split; [exact Hge | exact Himgs]).
  - left. destruct st2. app_cbn_all. split; [|exact Hless].
    exists slots. app_cbn.
    split; [exact Hres|]. split; [exact Hlen|]. split; [exact Hfilled|].
    split; [exact Hcount|]. split; [exact Hids|]. split; [exact Hpending|].
    auto.
Qed.

Lemma poll_done (done : future -> bool) (st : app) :
  session_done J k result st ->
  session_done J k result (state_of (_poll_futures done result st)).
Proof.
  intros [Hres [Hfuts [Hc [Hge Himgs]]]]. unfold _poll_futures.
  rewrite Hc, Hfuts. cbn [map]. rewrite filter_nil. cbn [firstn harvest].
  apply Nat.leb_le in Hge. rewrite Hge, Hres. app_cbn.
  apply Nat.leb_le in Hge. repeat split; auto.
Qed.

Lemma tick_loading_or_done (done : future -> bool) (st : app) :
  loading_or_done J k result st -> loading_or_done J k result (state_of (tick done result st)).
Proof using J_indexed.
  intros H. unfold tick. destruct (polls_pending st) as [|n] eqn:Hp.
  - exact H.
  - destruct H as [[Hinv Hlt]|Hdone].
    + apply poll_loading.
      * destruct st. exact Hinv.
      * destruct st. exact Hlt.
    + right. apply poll_done. destruct st. exact Hdone.
Qed.

Lemma ticks_loading_or_done (dones : list (future -> bool)) :
  forall st, loading_or_done J k result st -> loading_or_done J k result (ticks dones result st).
Proof using J_indexed.
  induction dones as [|done rest IH]; intros st H; cbn [ticks]; [exact H|].
  pose proof (tick_loading_or_done done st H) as Ht.
  destruct (tick done result st); apply IH; exact Ht.
Qed.

End Ticks.

Lemma open_folder_starts_session CACHE_DIR path listing cpu_count st0 result :
  png_files listing <> [] ->
  let jobs := submit_all CACHE_DIR path (png_files listing) (next_future st0) in
  let st1 := state_of (_open_folder CACHE_DIR path listing cpu_count st0) in
  session_inv jobs (_thumb_size_idx st0) result st1
  /\ (_completed_count st1 < _total_count st1)%nat
  /\ _futures st1 = jobs.
Proof.
  intros Hfiles. cbn zeta. destruct st0.
  unfold _open_folder, _load_images. fold (png_files listing). app_cbn.
  destruct (png_files listing) as [|f fs] eqn:E; [congruence|].
  set (files := f :: fs) in *.
  assert (Hlen : length (submit_all CACHE_DIR path files next_future0) = length files)
    by (unfold submit_all; apply length_imap).
  assert (Hpos : (0 < length files)%nat) by (subst files; cbn; lia).
  assert (Hinv : forall st1,
             _results st1 = Some (replicate (length files) None) ->
             _completed_count st1 = 0%nat ->
             _futures st1 = submit_all CACHE_DIR path files next_future0 ->
             _total_count st1 = length files ->
             _thumb_size_idx st1 = _thumb_size_idx0 ->
             _load_cancelled st1 = false ->
             session_inv (submit_all CACHE_DIR path files next_future0)
               _thumb_size_idx0 result st1
             /\ (_completed_count st1 < _total_count st1)%nat
             /\ _futures st1 = submit_all CACHE_DIR path files next_future0).
  { intros st1 Hres Hcount Hfuts Htot Hk Hc.
    split; [|split; [lia | exact Hfuts]].
    exists (replicate (length files) None).
    split; [exact Hres|]. split; [now rewrite length_replicate, Hlen|].
    split. { intros i e H. apply lookup_replicate in H as [H _]. discriminate. }
    split. { now rewrite omap_replicate_None. }
    split. { rewrite Hfuts. apply submit_all_ids. }
    split; [|rewrite Hlen; auto].
    intros g i Hin. rewrite Hfuts in Hin.
    apply list_elem_of_lookup in Hin as [pos Hp].
    pose proof (submit_all_indexed _ _ _ _ _ _ _ Hp) as ->.
    split; [exact Hp|]. apply lookup_replicate_2.
    apply lookup_lt_Some in Hp. lia. }
  destruct _executor0; app_cbn; apply Hinv; reflexivity.
Qed.



Example load_three_files_out_of_order :
  map e_name (images (ticks demo_dones demo_result demo_loaded))
  = ["a.png"; "b.PNG"; "c.png"]
  /\ map e_path (images (ticks demo_dones demo_result demo_loaded))
     = ["/pics/a.png"; "/pics/b.PNG"; "/pics/c.png"]
  /\ map _completed_count
       [ticks (take 1 demo_dones) demo_result demo_loaded;
        ticks (take 2 demo_dones) demo_result demo_loaded;
        ticks demo_dones demo_result demo_loaded]
     = [1; 2; 3]%nat.
Proof. vm_compute. repeat split. Qed.

(** ** Sample runs *)

Lemma cancellation_discards_session_witness :
  exists st',
    tick (fun _ => true) demo_result
      (_cancel_loading (ticks (take 1 demo_dones) demo_result demo_loaded))
    = Normal st'
    /\ images st' = []
    /\ _results st' = None
    /\ _futures st' = []
    /\ polls_pending st' = 0%nat.
Proof.
  destruct (cancellation_discards_session (fun _ => true) demo_result
              (_cancel_loading (ticks (take 1 demo_dones) demo_result demo_loaded))
              0%nat
              ltac:(vm_compute; reflexivity) ltac:(vm_compute; reflexivity))
    as [st' [Htick [_ [_ [Himgs [Hres [Hfuts [_ [_ [_ [_ [_ [_ Hp]]]]]]]]]]]]].
  exists st'. repeat split; assumption.
Defined.

Example janitor_sample_run :
  snd (_cleanup_cache "/cache" 100 demo_fs) = [("/cache/b.jpg", 50, 1)]
  /\ os_listdir (fst (_cleanup_cache "/cache" 100 demo_fs))
     = Some ["a.jpg"; "notes.txt"; "c.jpg"]
  /\ snd (_cleanup_cache "/cache" 99 demo_fs)
     = [("/cache/b.jpg", 50, 1); ("/cache/c.jpg", 40, 2)]
  /\ snd (_cleanup_cache "/cache" 150 demo_fs) = [].
Proof. vm_compute. repeat split. Qed.

Lemma cleanup_cache_enforces_budget_witness :
  cache_total demo_fs "/cache" = 150
  /\ cache_total (fst (_cleanup_cache "/cache" 100 demo_fs)) "/cache" <= 100.
Proof.
  destruct (cleanup_cache_enforces_budget "/cache" 100 demo_fs demo_files
              ltac:(vm_compute; reflexivity))
    as [Htotal [_ Hover]].
  split; [exact Htotal|].
  destruct (Hover ltac:(vm_compute; reflexivity)) as [_ [_ Hprefix]].
  destruct (Hprefix ltac:(intros; reflexivity) ltac:(lia))
    as [k [_ [_ [_ Hleft]]]].
  apply (Hleft ["a.jpg"; "notes.txt"; "b.jpg"; "c.jpg"] eq_refl).
  apply (bool_decide_unpack _). vm_compute. exact I.
Defined.

(** * Further properties of the pipeline *)

(** ** Thumbnail worker: without a key, and on a second run *)

Section WorkerRuns.

Context {pyfloat : Type} (float_str : pyfloat -> string).
Variables (e : env pyfloat) (path cache_dir : string).

Lemma loop_body_no_key (key : option string) (st : loop_state) (size : Z) :
  truthy key = None ->
  let src := match source_img st with
             | None => open_source e path
             | Some s => s
             end in
  loop_body e path cache_dir key st size
  = {| pil_images := (pil_images st ++ [uncached_image src size])%list;
       source_img := Some src;
       disk_now := match source_img st with
                   | None => log (EvSourceOpen path) (disk_now st)
                   | Some _ => disk_now st
                   end |}.
Proof.
  intros Hk. cbn zeta. unfold loop_body. rewrite Hk.
  destruct (source_img st) as [[s|]|]; [reflexivity | reflexivity |].
  destruct (open_source e path); reflexivity.
Qed.

Lemma loop_no_key (key : option string) (sizes : list Z) :
  truthy key = None ->
  forall st src,
    source_img st = Some src ->
    fold_left (loop_body e path cache_dir key) sizes st
    = {| pil_images := (pil_images st ++ map (uncached_image src) sizes)%list;
         source_img := Some src;
         disk_now := disk_now st |}.
Proof.
  intros Hk. induction sizes as [|size rest IH]; intros st src Hsrc;
    cbn [fold_left map].
  - rewrite app_nil_r, <- Hsrc. now destruct st.
  - rewrite (loop_body_no_key key st size Hk). cbn zeta. rewrite Hsrc.
    erewrite IH by (cbn [source_img]; reflexivity). cbn [pil_images disk_now].
    now rewrite <- app_assoc.
Qed.

(** When [os.stat] on the source raises, the worker goes on without the
    cache: it neither reads nor writes it, opens the source once (if any
    size is requested) and makes every image from it. *)
Theorem worker_without_stat_skips_cache :
  forall (thumb_sizes : list Z) (d : disk),
    stat_source e path = None ->
    let run := _process_image_worker float_str e path thumb_sizes cache_dir d in
    snd (fst run) = map (uncached_image (open_source e path)) thumb_sizes
    /\ cache_files (snd run) = cache_files d
    /\ trace (snd run)
       = (trace d ++ EvStat path
            :: match thumb_sizes with
               | [] => []
               | _ :: _ => [EvSourceOpen path]
               end)%list.
Proof.
  intros thumb_sizes d Hstat. cbn zeta.
  unfold _process_image_worker. cbn [fst snd]. rewrite worker_loop_unfold.
  assert (Hk : truthy (worker_key float_str e path) = None)
    by (unfold worker_key; now rewrite Hstat).
  destruct thumb_sizes as [|size rest]; cbn [fold_left map].
  - cbn. auto.
  - rewrite (loop_body_no_key _ _ size Hk). cbn zeta. cbn [source_img].
    erewrite (loop_no_key _ rest Hk) by (cbn [source_img]; reflexivity).
    cbn [pil_images disk_now log trace cache_files Init.Datatypes.app].
    rewrite <- app_assoc. auto.
Qed.

End WorkerRuns.

Lemma worker_without_stat_skips_cache_witness :
  snd (fst (_process_image_worker whole_seconds_str
              (Env (fun _ => None) (fun p => p) (fun _ => Some (Pixels 1 RGBA))
                   (fun _ => true) (fun _ => false))
              "/pics/a.png" THUMB_SIZES "/cache" demo_disk))
  = [Thumbnail (Pixels 1 RGBA) 80; Thumbnail (Pixels 1 RGBA) 150;
     Thumbnail (Pixels 1 RGBA) 250].
Proof.
  exact (proj1 (worker_without_stat_skips_cache whole_seconds_str
                  (Env (fun _ => None) (fun p => p)
                       (fun _ => Some (Pixels 1 RGBA)) (fun _ => true)
                       (fun _ => false))
                  "/pics/a.png" "/cache" THUMB_SIZES demo_disk eq_refl)).
Defined.


Section WorkerSecondRun.

Context {pyfloat : Type}.
Variables (e : env pyfloat) (path cache_dir : string) (key : option string).
Variables (k : string) (src : image).
Hypothesis key_truthy : truthy key = Some k.
Hypothesis source_ok : open_source e path = Some src.
Hypothesis saves_ok : forall p, save_ok e p = true.




End WorkerSecondRun.


Section WorkerHits.

Context {pyfloat : Type}.
Variables (e : env pyfloat) (path cache_dir : string) (key : option string).


End WorkerHits.



Example worker_two_runs :
  let run1 :=
    _process_image_worker whole_seconds_str demo_env_ok "/pics/a.png"
      THUMB_SIZES "/cache" demo_disk in
  let run2 :=
    _process_image_worker whole_seconds_str demo_env_ok "/pics/a.png"
      THUMB_SIZES "/cache" (snd run1) in
  snd (fst run1)
  = [Pixels 7 RGB; Thumbnail (Pixels 1 RGBA) 150; Thumbnail (Pixels 1 RGBA) 250]
  /\ snd (fst run2)
     = [Pixels 7 RGB;
        JpegOf (Flattened (Thumbnail (Pixels 1 RGBA) 150) (43, 43, 43));
        JpegOf (Flattened (Thumbnail (Pixels 1 RGBA) 250) (43, 43, 43))]
  /\ source_opens (trace (snd run1)) = 1%nat
  /\ source_opens (trace (snd run2)) = 1%nat.
Proof. vm_compute. repeat split. Qed.

(** ** Cache janitor: failures, ties and repetition *)

Lemma collect_fails fs dir names :
  forall acc,
    collect fs dir names acc = None
    <-> exists name,
          In name names /\ endswith name ".jpg" = true
          /\ os_stat fs (path_join dir name) = None.
Proof.
  induction names as [|name rest IH]; intros acc; cbn [collect].
  - split; [discriminate | intros [n [[] _]]].
  - destruct (endswith name ".jpg") eqn:E; cbn [negb].
    + destruct (os_stat fs (path_join dir name)) as [[size mtime]|] eqn:Hs.
      * rewrite IH. split.
        -- intros [n [Hn H]]. exists n. split; [now right | exact H].
        -- intros [n [[<-|Hn] [Hj Hst]]]; [congruence|]. exists n. auto.
      * split; [intros _ | reflexivity]. exists name. split; [now left | auto].
    + rewrite IH. split.
      * intros [n [Hn H]]. exists n. split; [now right | exact H].
      * intros [n [[<-|Hn] [Hj Hst]]]; [congruence|]. exists n. auto.
Qed.

(** When [os.listdir] raises, or [os.stat] raises on one [.jpg] name,
    [_cleanup_cache] removes nothing and leaves the directory as it is,
    whatever its size. *)
Theorem cleanup_gives_up_on_scan_error :
  forall (cache_dir : string) (max_bytes : Z) (fs : filesystem),
    (os_listdir fs = None
     \/ exists name,
          In name (cache_names fs)
          /\ os_stat fs (path_join cache_dir name) = None) ->
    _cleanup_cache cache_dir max_bytes fs = (fs, []).
Proof.
  intros cache_dir max_bytes fs H.
  assert (Hscan : scan fs cache_dir = None).
  { unfold scan, cache_names in *. destruct (os_listdir fs) as [names|];
      [|reflexivity].
    destruct H as [H|[name [Hin Hst]]]; [discriminate|].
    apply collect_fails. exists name.
    apply list_elem_of_In, list_elem_of_filter in Hin as [Hj Hin].
    split; [now apply list_elem_of_In|]. split; [|exact Hst].
    destruct (endswith name ".jpg"); [reflexivity | destruct Hj]. }
  unfold _cleanup_cache. now rewrite Hscan.
Qed.

Lemma cleanup_gives_up_on_scan_error_witness :
  _cleanup_cache "/cache" 0
    {| os_listdir := Some ["a.jpg"; "gone.jpg"];
       os_stat := fun p => if String.eqb p "/cache/a.jpg" then Some (60, 3) else None;
       os_remove_ok := fun _ => true |}
  = ({| os_listdir := Some ["a.jpg"; "gone.jpg"];
        os_stat := fun p => if String.eqb p "/cache/a.jpg" then Some (60, 3) else None;
        os_remove_ok := fun _ => true |}, []).
Proof.
  apply cleanup_gives_up_on_scan_error. right. exists "gone.jpg".
  split; [vm_compute; auto | reflexivity].
Defined.

Lemma insert_by_mtime_split (f : file_info) (l : list file_info) :
  exists l1 l2,
    l = (l1 ++ l2)%list
    /\ insert_by_mtime f l = (l1 ++ f :: l2)%list
    /\ Forall (fun g => fi_mtime g < fi_mtime f) l1.
Proof.
  induction l as [|g l IH]; cbn [insert_by_mtime].
  - exists [], []. repeat split. constructor.
  - destruct (Z.leb_spec (fi_mtime f) (fi_mtime g)) as [Hle|Hgt].
    + exists [], (g :: l). repeat split. constructor.
    + destruct IH as [l1 [l2 [Hl [Hins Hall]]]].
      exists (g :: l1), l2. rewrite Hins, Hl. repeat split.
      constructor; [lia | exact Hall].
Qed.

(** Python's sort is stable, and so is the sort of the janitor: files
    with the same modification time stay in the order of the directory
    listing. *)
Theorem sort_by_mtime_stable :
  forall (files : list file_info) (t : Z),
    filter (fun f => fi_mtime f = t) (sort_by_mtime files)
    = filter (fun f => fi_mtime f = t) files.
Proof.
  intros files t. induction files as [|f files IH]; [reflexivity|].
  cbn [sort_by_mtime fold_right]. fold (sort_by_mtime files).
  destruct (insert_by_mtime_split f (sort_by_mtime files))
    as [l1 [l2 [Hl [Hins Hall]]]].
  rewrite Hins, filter_app, !filter_cons.
  rewrite Hl, filter_app in IH.
  destruct (decide (fi_mtime f = t)) as [Ht|Ht].
  - assert (Hnone : filter (fun g => fi_mtime g = t) l1 = []).
    { clear -Hall Ht. induction Hall as [|g l1 Hg _ IHl]; [reflexivity|].
      rewrite filter_cons_False by lia. exact IHl. }
    rewrite Hnone in *. cbn [Init.Datatypes.app] in *. now rewrite IH.
  - exact IH.
Qed.

Lemma delete_loop_best_effort dir max files :
  forall total fs,
    let removed := snd (delete_loop dir max files total fs) in
    removed `sublist_of` files
    /\ Forall (fun f => os_remove_ok fs (fi_path f) = true) removed
    /\ (total - total_size removed <= max
        \/ forall f, In f files -> os_remove_ok fs (fi_path f) = true ->
                     In f removed).
Proof.
  induction files as [|f rest IH]; intros total fs; cbn zeta;
    cbn [delete_loop].
  - cbn. split; [constructor|]. split; [constructor|]. right. intros f [].
  - destruct (Z.leb_spec total max) as [Hle|Hgt].
    + cbn. split; [apply sublist_nil_l|]. split; [constructor | left; lia].
    + destruct (os_remove_ok fs (fi_path f)) eqn:Hok.
      * specialize (IH (total - fi_size f) (os_remove dir (fi_path f) fs)).
        cbn zeta in IH.
        destruct (delete_loop dir max rest (total - fi_size f)
                    (os_remove dir (fi_path f) fs)) as [fs' removed].
        cbn [snd os_remove os_remove_ok] in *.
        destruct IH as [Hsub [Hall Hend]].
        split; [now constructor|]. split; [now constructor|].
        destruct Hend as [Hend|Hend].
        -- left. cbn [total_size fold_right]. fold (total_size removed). lia.
        -- right. intros g [<-|Hg] Hr; [now left | right; auto].
      * specialize (IH total fs). cbn zeta in IH.
        destruct IH as [Hsub [Hall Hend]].
        split; [now constructor|]. split; [exact Hall|].
        destruct Hend as [Hend|Hend]; [now left | right].
        intros g [<-|Hg] Hr; [congruence | auto].
Qed.

(** Removals that fail are skipped: the files removed are taken in
    ascending time order, each one could be removed, and the loop ends
    with the total at or under the budget unless it has removed every file
    that could be. *)
Theorem cleanup_is_best_effort :
  forall (cache_dir : string) (max_bytes : Z) (fs : filesystem)
         (files : list file_info),
    scan fs cache_dir = Some files ->
    let removed := snd (_cleanup_cache cache_dir max_bytes fs) in
    removed `sublist_of` sort_by_mtime files
    /\ Forall (fun f => os_remove_ok fs (fi_path f) = true) removed
    /\ (total_size files - total_size removed <= max_bytes
        \/ forall f, In f files -> os_remove_ok fs (fi_path f) = true ->
                     In f removed).
Proof.
  intros cache_dir max_bytes fs files Hscan. cbn zeta.
  unfold _cleanup_cache. rewrite Hscan.
  destruct (Z.leb_spec (total_size files) max_bytes) as [Hle|Hgt].
  - cbn. split; [apply sublist_nil_l|]. split; [constructor | left; lia].
  - destruct (delete_loop_best_effort cache_dir max_bytes (sort_by_mtime files)
                (total_size files) fs) as [Hsub [Hall Hend]].
    split; [exact Hsub|]. split; [exact Hall|].
    destruct Hend as [Hend|Hend]; [now left | right].
    intros f Hf. apply Hend.
    eapply Permutation_in; [symmetry; apply sort_by_mtime_perm | exact Hf].
Qed.

Lemma cleanup_is_best_effort_witness :
  let fs := {| os_listdir := os_listdir demo_fs; os_stat := os_stat demo_fs;
               os_remove_ok := fun p => negb (String.eqb p "/cache/b.jpg") |} in
  let removed := snd (_cleanup_cache "/cache" 100 fs) in
  removed `sublist_of` sort_by_mtime demo_files
  /\ Forall (fun f => os_remove_ok fs (fi_path f) = true) removed
  /\ (total_size demo_files - total_size removed <= 100
      \/ forall f, In f demo_files -> os_remove_ok fs (fi_path f) = true ->
                   In f removed).
Proof.
  exact (cleanup_is_best_effort "/cache" 100
           {| os_listdir := os_listdir demo_fs; os_stat := os_stat demo_fs;
              os_remove_ok := fun p => negb (String.eqb p "/cache/b.jpg") |}
           demo_files eq_refl).
Defined.

Example cleanup_skips_locked_file :
  snd (_cleanup_cache "/cache" 100
         {| os_listdir := os_listdir demo_fs; os_stat := os_stat demo_fs;
            os_remove_ok := fun p => negb (String.eqb p "/cache/b.jpg") |})
  = [("/cache/c.jpg", 40, 2); ("/cache/a.jpg", 60, 3)].
Proof. vm_compute. reflexivity. Qed.

Lemma scan_after_removals fs fs' dir removed files :
  scan fs dir = Some files ->
  os_stat fs' = os_stat fs ->
  os_listdir fs'
  = option_map
      (filter (fun name => negb (removed_path removed (path_join dir name))))
      (os_listdir fs) ->
  exists files', scan fs' dir = Some files'.
Proof.
  intros Hscan Hstat Hlist. unfold scan in *. rewrite Hlist.
  destruct (os_listdir fs) as [names|]; [|discriminate]. cbn [option_map].
  destruct (collect fs' dir (filter _ names) []) as [files'|] eqn:E;
    [eauto|].
  exfalso. apply collect_fails in E as [name [Hin [Hj Hst]]].
  apply list_elem_of_In, list_elem_of_filter in Hin as [_ Hin].
  rewrite Hstat in Hst.
  assert (Hnone : collect fs dir names [] = None).
  { apply collect_fails. exists name. split; [now apply list_elem_of_In | auto]. }
  congruence.
Qed.

Lemma cleanup_left_under_budget cache_dir max_bytes fs files names :
  scan fs cache_dir = Some files ->
  max_bytes < total_size files ->
  (forall f, In f files -> os_remove_ok fs (fi_path f) = true) ->
  0 <= max_bytes ->
  os_listdir fs = Some names ->
  NoDup names ->
  cache_total
    (fst (delete_loop cache_dir max_bytes (sort_by_mtime files)
            (total_size files) fs)) cache_dir
  <= max_bytes.
Proof.
  intros Hscan Hgt Hok Hmax Hnames Hnd.
  set (total := total_size files). set (sorted := sort_by_mtime files).
  pose proof (sort_by_mtime_perm files) as Hperm. fold sorted in Hperm.
  destruct (delete_loop_prefix cache_dir max_bytes sorted total fs)
    as [k [Hk [Hrem [_ Hafter]]]].
  { intros f Hf. apply Hok. eapply Permutation_in; [exact Hperm | exact Hf]. }
  destruct (delete_loop_frame cache_dir max_bytes sorted total fs)
    as [Hstat [_ Hlist]].
  set (fs' := fst (delete_loop cache_dir max_bytes sorted total fs)) in *.
  set (removed := snd (delete_loop cache_dir max_bytes sorted total fs)) in *.
  assert (Htot : total_size sorted = total) by now apply total_size_perm.
  assert (Hsplit : total_size (firstn k sorted) + total_size (skipn k sorted) = total).
  { rewrite <- total_size_app, firstn_skipn. exact Htot. }
  rewrite (cache_total_after fs fs' cache_dir removed files Hscan Hstat Hlist).
  assert (Hp2 : Permutation files (removed ++ skipn k sorted)%list).
  { rewrite Hrem, firstn_skipn. symmetry. exact Hperm. }
  rewrite (total_size_perm _ _
             (filter_Permutation
                (fun f => negb (removed_path removed (fi_path f))) _ _ Hp2)).
  rewrite total_size_without.
  - destruct Hafter as [H|H]; [lia|].
    rewrite H in Hsplit |- *. rewrite firstn_all, Htot in Hsplit. lia.
  - rewrite <- (Permutation_map fi_path Hp2).
    rewrite (scanned_paths fs cache_dir (cache_names fs) files)
      by now apply scan_spec.
    apply NoDup_map_path_join. unfold cache_names. rewrite Hnames.
    now apply NoDup_filter.
Qed.

(** Running the janitor again changes nothing: after a cleanup in which
    every removal succeeded, a second cleanup of the directory removes no
    file. *)
Theorem cleanup_twice_is_once :
  forall (cache_dir : string) (max_bytes : Z) (fs : filesystem)
         (files : list file_info) (names : list string),
    scan fs cache_dir = Some files ->
    (forall f, In f files -> os_remove_ok fs (fi_path f) = true) ->
    0 <= max_bytes ->
    os_listdir fs = Some names ->
    NoDup names ->
    let fs' := fst (_cleanup_cache cache_dir max_bytes fs) in
    _cleanup_cache cache_dir max_bytes fs' = (fs', []).
Proof.
  intros cache_dir max_bytes fs files names Hscan Hok Hmax Hnames Hnd fs'.
  assert (Hfs' : fs' = fst (_cleanup_cache cache_dir max_bytes fs)) by reflexivity.
  clearbody fs'. unfold _cleanup_cache in Hfs'. rewrite Hscan in Hfs'.
  destruct (Z.leb_spec (total_size files) max_bytes) as [Hle|Hgt].
  - cbn [fst] in Hfs'. subst fs'. unfold _cleanup_cache. rewrite Hscan.
    apply Z.leb_le in Hle. now rewrite Hle.
  - pose proof (cleanup_left_under_budget cache_dir max_bytes fs files names
                  Hscan Hgt Hok Hmax Hnames Hnd) as Hleft.
    destruct (delete_loop_frame cache_dir max_bytes (sort_by_mtime files)
                (total_size files) fs) as [Hstat [_ Hlist]].
    rewrite <- Hfs' in Hleft, Hstat, Hlist.
    destruct (scan_after_removals fs fs' cache_dir _ files Hscan Hstat Hlist)
      as [files' Hscan'].
    unfold _cleanup_cache. rewrite Hscan'.
    rewrite <- (cache_total_scanned fs' cache_dir files' Hscan').
    apply Z.leb_le in Hleft. now rewrite Hleft.
Qed.

Lemma cleanup_twice_is_once_witness :
  let fs' := fst (_cleanup_cache "/cache" 100 demo_fs) in
  _cleanup_cache "/cache" 100 fs' = (fs', []).
Proof.
  apply (cleanup_twice_is_once "/cache" 100 demo_fs demo_files
           ["a.jpg"; "notes.txt"; "b.jpg"; "c.jpg"]).
  - vm_compute. reflexivity.
  - intros. reflexivity.
  - lia.
  - reflexivity.
  - apply (bool_decide_unpack _). vm_compute. exact I.
Defined.

(** *** Progress of a load *)

Lemma pop_future_length (f : future) (futs : list (future * nat)) :
  forall i futs',
    pop_future f futs = Some (i, futs') -> length futs = S (length futs').
Proof.
  induction futs as [|[g idx] rest IH]; intros i futs' H; cbn [pop_future] in H.
  - discriminate.
  - destruct (same_future f g).
    + assert (rest = futs') by congruence. subst. reflexivity.
    + destruct (pop_future f rest) as [[j rest']|] eqn:E; [|discriminate].
      assert (futs' = (g, idx) :: rest') by congruence. subst.
      cbn [length]. f_equal. eapply IH. reflexivity.
Qed.

Lemma delivered_in_range (k : nat) (r : outcome) :
  (k < length THUMB_SIZES)%nat -> exists e, delivered k r = Some e.
Proof.
  intros Hk. unfold delivered.
  destruct (entry_of_outcome k r) as [e|]; [eauto|].
  unfold error_entry.
  destruct k as [|[|[|k]]]; cbn in Hk |- *; eauto; lia.
Qed.

Lemma filter_all {A : Type} (l : list A) : filter (fun _ : A => true) l = l.
Proof.
  induction l as [|x l IH]; [reflexivity|].
  rewrite filter_cons_True by exact I. now rewrite IH.
Qed.

Section Progress.

Variables (J : list (future * nat)) (k : nat) (result : future -> outcome).
Hypothesis J_indexed : forall i f j, J !! i = Some (f, j) -> j = i.
Hypothesis k_in_range : (k < length THUMB_SIZES)%nat.

Lemma harvest_all (batch : list future) :
  forall st,
    session_inv J k result st ->
    NoDup (map fut_id batch) ->
    (forall f, f ∈ batch -> exists i, (f, i) ∈ _futures st) ->
    exists slots' futs',
      harvest result batch st
      = Normal (set_completed_count (_completed_count st + length batch)
                  (set_results (Some slots') (set_futures futs' st)))
      /\ (length futs' + length batch = length (_futures st))%nat.
Proof using J_indexed k_in_range.
  induction batch as [|f rest IH]; intros st Hinv Hnd Hpend.
  - destruct Hinv as [slots [Hres _]]. exists slots, (_futures st).
    split; [|cbn; lia]. cbn [harvest length]. f_equal.
    destruct st. app_cbn_all. subst. now rewrite Nat.add_0_r.
  - pose proof Hinv as Hinv0.
    destruct (Hpend f ltac:(left)) as [i Hfi].
    destruct Hinv as [slots [Hres [Hlen [Hfilled [Hcount [Hids [Hpending [Htot [Hk Hc]]]]]]]]].
    destruct (pop_future_spec f i (_futures st) Hids Hfi) as [futs' [Hpop [Hmem Hnd']]].
    destruct (Hpending f i Hfi) as [HJi Hslot].
    assert (Hlt : (i < length slots)%nat) by (eapply lookup_lt_Some; exact Hslot).
    destruct (delivered_in_range k (result f) k_in_range) as [e He].
    assert (Hstore : store_result i (result f) (set_futures futs' st)
                     = Some (set_results (Some (<[i := Some e]> slots))
                               (set_futures futs' st))).
    { rewrite (store_result_spec i (result f) (set_futures futs' st) slots);
        [| destruct st; exact Hres | exact Hlt].
      replace (_thumb_size_idx (set_futures futs' st)) with k
        by (destruct st; symmetry; exact Hk).
      now rewrite He. }
    set (st1 := set_completed_count (_completed_count st + 1)
                  (set_results (Some (<[i := Some e]> slots))
                     (set_futures futs' st))).
    assert (Hstep : harvest result (f :: rest) st = harvest result rest st1).
    { cbn [harvest]. rewrite Hpop, Hstore. subst st1. destruct st. reflexivity. }
    assert (Hone : harvest result [f] st = Normal st1).
    { cbn [harvest]. rewrite Hpop, Hstore. subst st1. destruct st. reflexivity. }
    cbn [map] in Hnd. apply NoDup_cons in Hnd as [Hf Hrest].
    assert (Hinv1 : session_inv J k result st1).
    { pose proof (harvest_inv J k result J_indexed [f] st Hinv0) as H.
      rewrite Hone in H. apply H.
      - cbn [map]. apply NoDup_singleton.
      - intros g Hg. apply list_elem_of_singleton in Hg as ->. eauto. }
    assert (Hfuts1 : _futures st1 = futs') by (subst st1; destruct st; reflexivity).
    destruct (IH st1 Hinv1 Hrest) as [slots' [futs'' [Hh Hl]]].
    { intros g Hg. destruct (Hpend g ltac:(now right)) as [j Hj].
      exists j. rewrite Hfuts1. apply Hmem. split; [exact Hj|].
      cbn [fst]. intros Hid. apply Hf. rewrite <- Hid.
      apply list_elem_of_In, in_map, list_elem_of_In, Hg. }
    exists slots', futs''. split.
    + rewrite Hstep, Hh. subst st1. destruct st. app_cbn. cbn [length].
      do 2 f_equal. lia.
    + rewrite Hfuts1 in Hl. apply pop_future_length in Hpop.
      rewrite Hpop. cbn [length]. lia.
Qed.

Lemma tick_all_done (ex : executor) (st : app) :
  running J k result ex st ->
  let st' := state_of (tick (fun _ => true) result st) in
  ((_total_count st <= _completed_count st + 10)%nat /\ finished J k result ex st')
  \/ ((_completed_count st + 10 < _total_count st)%nat
      /\ running J k result ex st'
      /\ _completed_count st' = (_completed_count st + 10)%nat).
Proof using J_indexed k_in_range.
  intros [Hinv [Hlt [Hsum [Hload [Hex [Hpoll [Himg [Hsel Hcan]]]]]]]].
  cbn zeta. unfold tick. rewrite Hpoll.
  set (st0 := set_polls_pending 0 st).
  assert (Hinv0 : session_inv J k result st0) by (destruct st; exact Hinv).
  assert (Hf0 : _futures st0 = _futures st) by (destruct st; reflexivity).
  assert (Hc0 : _completed_count st0 = _completed_count st)
    by (destruct st; reflexivity).
  unfold _poll_futures.
  replace (_load_cancelled st0) with false
    by (destruct Hinv0 as [slots H]; symmetry; apply H).
  rewrite filter_all.
  set (batch := take 10 (map fst (_futures st0))).
  assert (Hsub : batch `sublist_of` map fst (_futures st0))
    by apply sublist_take.
  assert (Hb1 : NoDup (map fut_id batch)).
  { apply (NoDup_map_sublist fut_id _ _ Hsub). rewrite map_map.
    destruct Hinv0 as [slots H]. apply H. }
  assert (Hb2 : forall f, f ∈ batch -> exists i, (f, i) ∈ _futures st0).
  { intros f Hf. apply (elem_of_sublist _ _ _ Hf) in Hsub.
    apply list_elem_of_In, in_map_iff in Hsub as [[g i] [Hg Hin]].
    cbn in Hg. subst g. exists i. now apply list_elem_of_In. }
  assert (Hblen : length batch = Nat.min 10 (length (_futures st))).
  { subst batch. rewrite length_take, length_map, Hf0. reflexivity. }
  destruct (harvest_all batch st0 Hinv0 Hb1 Hb2) as [slots' [futs' [Hh Hl]]].
  pose proof (harvest_inv J k result J_indexed batch st0 Hinv0 Hb1 Hb2) as Hinv1.
  rewrite Hh in Hinv1 |- *. rewrite Hc0 in Hinv1 |- *. rewrite Hf0 in Hl.
  destruct batch as [|b batch'] eqn:Eb; [cbn [length] in Hblen; lia|].
  rewrite <- Eb in *. clear Eb b batch'.
  set (c1 := (_completed_count st + length batch)%nat) in *.
  destruct Hinv1 as [slots [Hres [Hlen [Hfilled [Hcount [Hids [Hpending [Htot [Hk Hc2]]]]]]]]].
  destruct st. subst st0. app_cbn_all.
  subst _loading0 _executor0 polls_pending0 images0 btn_select_enabled0
    btn_cancel_shown0 _load_cancelled0.
  injection Hres as ->.
  destruct (Nat.leb_spec _total_count0 c1) as [Hge|Hless].
  - left. split; [subst c1; lia|].
    assert (Hall : (length slots <= length (omap id slots))%nat) by lia.
    assert (Himgs : map Some (omap id slots)
                    = map (fun job : future * nat => delivered k (result (fst job))) J).
    { apply slots_all_delivered; auto. }
    assert (Hn : length (omap id slots) = length J).
    { apply (f_equal (@length _)) in Himgs. now rewrite !length_map in Himgs. }
    unfold finished, session_done, _draw_grid, _finish_loading. app_cbn.
    destruct _split_mode0; app_cbn;
      (split; [split; [reflexivity|]; split; [reflexivity|];
               split; [reflexivity|]; split; [lia | exact Himgs] |]);
      (split; [subst c1; lia|]); (split; [exact Hn|]);
      (split; [reflexivity|]); (split; [reflexivity|]);
      (split; [reflexivity|]); (split; [reflexivity|]);
      (split; [reflexivity|]); (split; [reflexivity|]);
      (split; [destruct (omap id slots); [cbn in Hn; lia | reflexivity] |]);
      apply last_snoc.
  - right. app_cbn. split; [subst c1; lia|]. split; [|subst c1; lia].
    unfold running. app_cbn.
    split.
    { exists slots. app_cbn.
      split; [reflexivity|]. split; [exact Hlen|]. split; [exact Hfilled|].
      split; [exact Hcount|]. split; [exact Hids|]. split; [exact Hpending|].
      auto. }
    split; [exact Hless|]. split; [subst c1; lia|].
    repeat (split; [reflexivity|]). reflexivity.
Qed.

Lemma ticks_finished (ex : executor) (m : nat) :
  forall st,
    finished J k result ex st ->
    ticks (replicate m (fun _ => true)) result st = st.
Proof.
  induction m as [|m IH]; intros st Hfin; [reflexivity|].
  cbn [replicate ticks]. unfold tick.
  replace (polls_pending st) with 0%nat by (symmetry; apply Hfin).
  now apply IH.
Qed.

Lemma ticks_all_done (ex : executor) (m : nat) :
  forall st,
    running J k result ex st ->
    let st' := ticks (replicate m (fun _ => true)) result st in
    ((_total_count st <= _completed_count st + 10 * m)%nat
     /\ finished J k result ex st')
    \/ ((_completed_count st + 10 * m < _total_count st)%nat
        /\ running J k result ex st'
        /\ _completed_count st' = (_completed_count st + 10 * m)%nat).
Proof using J_indexed k_in_range.
  induction m as [|m IH]; intros st Hrun; cbn zeta.
  - right. cbn [replicate ticks]. rewrite Nat.mul_0_r, Nat.add_0_r.
    split; [apply Hrun|]. split; [exact Hrun | reflexivity].
  - cbn [replicate ticks].
    pose proof (tick_all_done ex st Hrun) as Ht. cbn zeta in Ht.
    assert (Hnext : ticks (replicate m (fun _ => true)) result
                      (state_of (tick (fun _ => true) result st))
                    = match tick (fun _ => true) result st with
                      | Normal st' | Raises st' =>
                          ticks (replicate m (fun _ => true)) result st'
                      end)
      by (destruct (tick (fun _ => true) result st); reflexivity).
    rewrite <- Hnext. clear Hnext.
    set (st1 := state_of (tick (fun _ => true) result st)) in *.
    assert (Htot : forall ex0 s, running J k result ex0 s -> _total_count s = length J).
    { intros ex0 s [[slots H] _]. apply H. }
    destruct Ht as [[Hle Hfin]|[Hlt [Hrun1 Hc1]]].
    + left. split; [lia|]. rewrite (ticks_finished ex m st1 Hfin). exact Hfin.
    + specialize (IH st1 Hrun1). cbn zeta in IH.
      rewrite (Htot ex st1 Hrun1), Hc1 in IH. rewrite (Htot ex st Hrun).
      destruct IH as [[Hle Hfin]|[Hlt2 [Hrun2 Hc2]]].
      * left. split; [lia | exact Hfin].
      * right. split; [lia|]. split; [exact Hrun2 | lia].
Qed.

End Progress.

Lemma open_folder_running CACHE_DIR path listing cpu_count st0 result :
  png_files listing <> [] ->
  polls_pending st0 = 0%nat ->
  let st1 := state_of (_open_folder CACHE_DIR path listing cpu_count st0) in
  running (submit_all CACHE_DIR path (png_files listing) (next_future st0))
    (_thumb_size_idx st0) result {| max_workers := workers cpu_count |} st1
  /\ _completed_count st1 = 0%nat.
Proof.
  intros Hfiles Hpoll. cbn zeta.
  destruct (open_folder_starts_session CACHE_DIR path listing cpu_count st0
              result Hfiles) as [Hinv [Hlt Hfuts]].
  unfold running. split; [split; [exact Hinv|]; split; [exact Hlt|] |].
  - rewrite Hfuts. clear Hinv Hlt Hfuts.
    destruct st0. unfold _open_folder, _load_images.
    fold (png_files listing). app_cbn. app_cbn_in Hpoll. subst polls_pending0.
    destruct (png_files listing) as [|f fs] eqn:E; [congruence|].
    assert (Hlen : length (submit_all CACHE_DIR path (f :: fs) next_future0)
                   = length (f :: fs))
      by (unfold submit_all; apply length_imap).
    destruct _executor0; app_cbn; rewrite Hlen;
      (split; [lia|]); repeat (split; [reflexivity|]); reflexivity.
  - clear Hinv Hlt Hfuts.
    destruct st0. unfold _open_folder, _load_images.
    fold (png_files listing). app_cbn.
    destruct (png_files listing) as [|f fs] eqn:E; [congruence|].
    destruct _executor0; reflexivity.
Qed.

(** With every job done, a load harvests exactly ten results per poll:
    after [m] polls the counter is [min n (10 * m)] for [n] files, the
    load is still in progress while [10 * m < n], and from then on it has
    ended with the results delivered in submission order, the executor
    shut down, the grid drawn and no poll pending. *)
Theorem load_finishes_at_ten_per_tick :
  forall (CACHE_DIR path : string) (listing : list string) (cpu_count : option Z)
         (st0 : app) (result : future -> outcome) (m : nat),
    png_files listing <> [] ->
    polls_pending st0 = 0%nat ->
    (_thumb_size_idx st0 < length THUMB_SIZES)%nat ->
    let n := length (png_files listing) in
    let jobs := submit_all CACHE_DIR path (png_files listing) (next_future st0) in
    let st :=
      ticks (replicate m (fun _ => true)) result
        (state_of (_open_folder CACHE_DIR path listing cpu_count st0)) in
    _completed_count st = Nat.min n (10 * m)
    /\ ((10 * m < n)%nat ->
        _loading st = true /\ images st = [] /\ polls_pending st = 1%nat
        /\ btn_select_enabled st = false /\ btn_cancel_shown st = true)
    /\ ((n <= 10 * m)%nat ->
        _loading st = false /\ _executor st = None /\ _futures st = []
        /\ polls_pending st = 0%nat
        /\ map Some (images st)
           = map (fun job => delivered (_thumb_size_idx st0) (result (fst job))) jobs
        /\ length (images st) = n
        /\ canvas st = GridDrawn (images st)
        /\ btn_select_enabled st = true /\ btn_cancel_shown st = false
        /\ btn_rename_enabled st = true
        /\ last (pool_log st)
           = Some (ShutDown {| max_workers := workers cpu_count |})).
Proof.
  intros CACHE_DIR path listing cpu_count st0 result m Hfiles Hpoll Hk n jobs st.
  destruct (open_folder_running CACHE_DIR path listing cpu_count st0 result
              Hfiles Hpoll) as [Hrun Hzero].
  fold jobs in Hrun.
  assert (Hn : length jobs = n) by (unfold jobs, submit_all; apply length_imap).
  assert (Htot : _total_count
                   (state_of (_open_folder CACHE_DIR path listing cpu_count st0))
                 = n).
  { destruct Hrun as [[slots H] _]. rewrite <- Hn. apply H. }
  pose proof (ticks_all_done jobs (_thumb_size_idx st0) result
                (fun i f j => submit_all_indexed _ _ _ _ i f j) Hk _ m _ Hrun)
    as Ht.
  cbn zeta in Ht. fold st in Ht. rewrite Htot, Hzero in Ht. cbn [Nat.add] in Ht.
  destruct Ht as [[Hle Hfin]|[Hlt [Hrun' Hc]]].
  - destruct Hfin as [[Hres [Hfuts [Hcanc [Hge Himgs]]]]
                        [Hcount [Hlen [Hload [Hex [Hp [Hcanvas [Hsel [Hcan [Hren Hlog]]]]]]]]]].
    split; [lia|]. split; [lia|]. intros _.
    split; [exact Hload|]. split; [exact Hex|]. split; [exact Hfuts|].
    split; [exact Hp|]. split; [exact Himgs|]. split; [lia|].
    split; [exact Hcanvas|]. split; [exact Hsel|]. split; [exact Hcan|].
    split; [exact Hren | exact Hlog].
  - destruct Hrun' as [_ [_ [_ [Hload [_ [Hp [Himg [Hsel Hcan]]]]]]]].
    split; [lia|]. split; [|lia]. intros _.
    split; [exact Hload|]. split; [exact Himg|]. split; [exact Hp|].
    split; [exact Hsel | exact Hcan].
Qed.

Lemma load_finishes_at_ten_per_tick_witness :
  let st :=
    ticks (replicate 1 (fun _ => true)) demo_result
      (state_of (_open_folder "/cache" "/pics" demo_listing (Some 4) initial_app)) in
  _completed_count st = Nat.min (length (png_files demo_listing)) (10 * 1).
Proof.
  refine (proj1 (load_finishes_at_ten_per_tick "/cache" "/pics" demo_listing
                   (Some 4) initial_app demo_result 1 _ _ _)).
  - vm_compute. discriminate.
  - reflexivity.
  - vm_compute. lia.
Defined.

(** *** The file names of a load *)

Lemma ascii_compare_trans (a b c : ascii) :
  Ascii.compare a b = Lt -> Ascii.compare b c = Lt -> Ascii.compare a c = Lt.
Proof.
  unfold Ascii.compare. rewrite !N.compare_lt_iff. lia.
Qed.

Lemma string_compare_lt_trans (s1 : string) :
  forall s2 s3,
    String.compare s1 s2 = Lt -> String.compare s2 s3 = Lt ->
    String.compare s1 s3 = Lt.
Proof.
  induction s1 as [|a s1 IH]; intros [|b s2] [|c s3] H12 H23;
    cbn [String.compare] in *; try congruence.
  destruct (Ascii.compare a b) eqn:Eab; try discriminate.
  - apply Ascii.compare_eq_iff in Eab. subst b.
    destruct (Ascii.compare a c) eqn:Eac; try congruence.
    eapply IH; eassumption.
  - destruct (Ascii.compare b c) eqn:Ebc; try discriminate.
    + apply Ascii.compare_eq_iff in Ebc. subst c. now rewrite Eab.
    + now rewrite (ascii_compare_trans a b c Eab Ebc).
Qed.

Lemma name_le_trans (a b c : string) : name_le a b -> name_le b c -> name_le a c.
Proof.
  unfold name_le, String.leb. intros Hab Hbc.
  destruct (String.compare a b) eqn:Eab; try discriminate.
  - apply String.compare_eq_iff in Eab. now subst b.
  - destruct (String.compare b c) eqn:Ebc; try discriminate.
    + apply String.compare_eq_iff in Ebc. subst c. now rewrite Eab.
    + now rewrite (string_compare_lt_trans a b c Eab Ebc).
Qed.

Lemma insert_name_perm (f : string) (l : list string) :
  Permutation (insert_name f l) (f :: l).
Proof.
  induction l as [|g l IH]; cbn [insert_name]; [reflexivity|].
  destruct (String.leb f g); [reflexivity|].
  rewrite IH. apply perm_swap.
Qed.

Lemma insert_name_sorted (f : string) (l : list string) :
  StronglySorted name_le l -> StronglySorted name_le (insert_name f l).
Proof.
  induction l as [|g l IH]; intros Hs; cbn [insert_name].
  - constructor; constructor.
  - destruct (String.leb f g) eqn:E.
    + constructor; [exact Hs|]. constructor; [exact E|].
      apply StronglySorted_inv in Hs as [_ Hall].
      eapply List.Forall_impl; [|exact Hall].
      intros h Hh. eapply name_le_trans; [exact E | exact Hh].
    + apply StronglySorted_inv in Hs as [Hs Hall].
      constructor; [now apply IH|].
      assert (Hgf : name_le g f).
      { destruct (String.leb_total f g) as [H|H]; [congruence | exact H]. }
      apply List.Forall_forall. intros h Hh.
      apply (Permutation_in _ (insert_name_perm f l)) in Hh.
      destruct Hh as [<-|Hh]; [exact Hgf|].
      rewrite List.Forall_forall in Hall. now apply Hall.
Qed.

(** The names a load submits are the names of the listing that end in
    [.png] once lower-cased, each as often as it is listed, in ascending
    order. *)
Theorem png_files_sorted_permutation :
  forall listing : list string,
    Permutation (png_files listing)
      (filter (fun f => endswith (lower f) ".png") listing)
    /\ StronglySorted name_le (png_files listing)
    /\ (forall f, In f (png_files listing) <->
                  In f listing /\ endswith (lower f) ".png" = true).
Proof.
  intros listing. unfold png_files, sorted_names.
  set (names := filter (fun f => endswith (lower f) ".png") listing).
  assert (Hperm : Permutation (fold_right insert_name [] names) names).
  { induction names as [|f names IH]; cbn [fold_right]; [reflexivity|].
    rewrite insert_name_perm. now constructor. }
  split; [exact Hperm|]. split.
  - clear Hperm. induction names as [|f names IH]; cbn [fold_right].
    + constructor.
    + now apply insert_name_sorted.
  - intros f. split.
    + intros Hin. apply (Permutation_in _ Hperm) in Hin.
      apply list_elem_of_In, list_elem_of_filter in Hin as [Hp Hin].
      split; [now apply list_elem_of_In | now apply Is_true_true].
    + intros [Hin Hp]. apply (Permutation_in _ (Permutation_sym Hperm)).
      apply list_elem_of_In, list_elem_of_filter.
      split; [now apply Is_true_true | now apply list_elem_of_In].
Qed.

(** *** A folder without images *)

Lemma tick_stalled (done : future -> bool) (result : future -> outcome)
    (st : app) :
  _load_cancelled st = false ->
  _futures st = [] ->
  (_completed_count st < _total_count st)%nat ->
  tick done result st = Normal st.
Proof.
  intros Hc Hf Hlt. unfold tick.
  destruct (polls_pending st) as [|n] eqn:Hp; [reflexivity|].
  unfold _poll_futures. destruct st. app_cbn_all. subst.
  cbn [map]. rewrite filter_nil. cbn [firstn harvest]. app_cbn.
  apply Nat.leb_gt in Hlt. now rewrite Hlt.
Qed.

(** Opening a folder without [.png] files while a load is in progress
    drops the executor and the futures but leaves the load in progress:
    whatever the later polls find, they change nothing, so the load never
    ends by itself. *)
Theorem empty_folder_during_load_stalls :
  forall (CACHE_DIR path : string) (listing : list string) (cpu_count : option Z)
         (st0 : app) (ex : executor) (dones : list (future -> bool))
         (result : future -> outcome),
    png_files listing = [] ->
    _loading st0 = true ->
    _load_cancelled st0 = false ->
    _executor st0 = Some ex ->
    (_completed_count st0 < _total_count st0)%nat ->
    let st1 := state_of (_open_folder CACHE_DIR path listing cpu_count st0) in
    ticks dones result st1 = st1
    /\ _loading st1 = true
    /\ _executor st1 = None
    /\ _futures st1 = []
    /\ images st1 = []
    /\ polls_pending st1 = polls_pending st0
    /\ pool_log st1 = (pool_log st0 ++ [ShutDown ex])%list.
Proof.
  intros CACHE_DIR path listing cpu_count st0 ex dones result Hfiles Hload Hc
    Hex Hlt st1.
  assert (H1 : _load_cancelled st1 = false /\ _futures st1 = []
               /\ (_completed_count st1 < _total_count st1)%nat
               /\ _loading st1 = true /\ _executor st1 = None
               /\ images st1 = [] /\ polls_pending st1 = polls_pending st0
               /\ pool_log st1 = (pool_log st0 ++ [ShutDown ex])%list).
  { subst st1. destruct st0. unfold _open_folder, _load_images.
    fold (png_files listing). rewrite Hfiles. app_cbn_all. subst.
    unfold _draw_grid. app_cbn. destruct _split_mode0; app_cbn;
      repeat (split; [first [reflexivity | assumption]|]); reflexivity. }
  destruct H1 as [Hc1 [Hf1 [Hlt1 [Hl1 [He1 [Hi1 [Hp1 Hlog1]]]]]]].
  split; [|auto 10].
  clear -Hc1 Hf1 Hlt1. induction dones as [|done rest IH]; [reflexivity|].
  cbn [ticks]. now rewrite (tick_stalled done result st1 Hc1 Hf1 Hlt1).
Qed.

Lemma empty_folder_during_load_stalls_witness :
  let st1 := state_of (_open_folder "/cache" "/empty" ["notes.txt"] (Some 4)
                         demo_loaded) in
  ticks demo_dones demo_result st1 = st1.
Proof.
  refine (proj1 (empty_folder_during_load_stalls "/cache" "/empty" ["notes.txt"]
                   (Some 4) demo_loaded {| max_workers := 3 |} demo_dones
                   demo_result _ _ _ _ _)).
  - reflexivity.
  - reflexivity.
  - reflexivity.
  - reflexivity.
  - vm_compute. lia.
Defined.

(** *** The grid and the pointer *)

Lemma thumb_size_range (st : app) (ts : Z) :
  _thumb_size st = Some ts -> 80 <= ts <= 250 /\ ts mod 2 = 0.
Proof.
  unfold _thumb_size, THUMB_SIZES.
  destruct (_thumb_size_idx st) as [|[|[|n]]]; cbn; intros H;
    try discriminate; injection H as <-; split; try lia; reflexivity.
Qed.

Lemma calc_columns_spec (w : Z) (st : app) (ts cols : Z) :
  _thumb_size st = Some ts ->
  _calc_columns w st = Some cols ->
  cols = Z.max 1 (w / (ts + CELL_PADDING * 2)) /\ 1 <= cols.
Proof.
  unfold _calc_columns. intros ->. cbn. intros [= <-]. split; [reflexivity | lia].
Qed.

Lemma drawn_image_cell ts cols show p (l : list entry) x y img i :
  In (ImageItem x y img i) (concat (imap (draw_cell ts cols show p) l)) ->
  exists e,
    l !! i = Some e /\ img = e_thumb e
    /\ x = (Z.of_nat i mod cols) * (ts + CELL_PADDING * 2) + CELL_PADDING + ts / 2
    /\ y = (Z.of_nat i / cols) * (ts + CELL_PADDING * 2 + LABEL_HEIGHT)
           + CELL_PADDING + ts / 2.
Proof.
  intros Hin. apply in_concat in Hin as [cell [Hcell Hin]].
  apply list_elem_of_In, elem_of_lookup_imap in Hcell as [j [e [-> Hj]]].
  unfold draw_cell in Hin. apply in_app_or in Hin as [Hin|Hin].
  - destruct Hin as [Heq|[Heq|[]]]; [|discriminate].
    injection Heq as <- <- <- <-. exists e. auto.
  - destruct (_ && _ && _); [|destruct Hin].
    destruct Hin as [Heq|[]]. discriminate.
Qed.

Lemma cell_of_point (c cell off : Z) :
  0 < cell -> 0 <= off < cell -> (c * cell + off) / cell = c.
Proof.
  intros Hcell Hoff. symmetry. apply (Z.div_unique_pos _ _ _ off); lia.
Qed.

Lemma drawn_image_in_grid w show p st items region x y img i ts :
  _draw_grid_on w show p st = Some (items, region) ->
  In (ImageItem x y img i) items ->
  _thumb_size st = Some ts ->
  exists cols e,
    _calc_columns w st = Some cols /\ 1 <= cols
    /\ images st !! i = Some e /\ img = e_thumb e
    /\ x = (Z.of_nat i mod cols) * (ts + CELL_PADDING * 2) + CELL_PADDING + ts / 2
    /\ y = (Z.of_nat i / cols) * (ts + CELL_PADDING * 2 + LABEL_HEIGHT)
           + CELL_PADDING + ts / 2
    /\ region = (0, 0, cols * (ts + CELL_PADDING * 2),
                 (Z.of_nat (length (images st)) + cols - 1) / cols
                 * (ts + CELL_PADDING * 2 + LABEL_HEIGHT) + CELL_PADDING).
Proof.
  intros Hdraw Hin Hts. unfold _draw_grid_on in Hdraw.
  destruct (images st) as [|e0 l] eqn:El.
  { injection Hdraw as <- _. destruct Hin. }
  rewrite <- El in *. rewrite Hts in Hdraw. cbn [mbind option_bind] in Hdraw.
  destruct (_calc_columns w st) as [cols|] eqn:Hcols; [|discriminate].
  cbn [mbind option_bind] in Hdraw. injection Hdraw as <- <-.
  destruct (calc_columns_spec w st ts cols Hts Hcols) as [_ Hpos].
  apply in_app_or in Hin as [Hin|Hin].
  - apply drawn_image_cell in Hin as [e [He [Himg [Hx Hy]]]].
    exists cols, e. auto 10.
  - destruct (_ && _); [|destruct Hin]. destruct Hin as [Heq|[]]. discriminate.
Qed.

(** A click on the thumbnail that the grid shows for the image of index
    [i] hits index [i]: [_hit_index] inverts the layout of
    [_draw_grid_on]. *)
Theorem hit_index_finds_drawn_item :
  forall (w : Z) (show_marker : bool) (p : pointer) (st : app)
         (items : list item) (region : Z * Z * Z * Z)
         (x y : Z) (img : photo) (i : nat) (ts dx dy : Z),
    _draw_grid_on w show_marker p st = Some (items, region) ->
    In (ImageItem x y img i) items ->
    _thumb_size st = Some ts ->
    - (ts / 2) <= dx <= ts / 2 ->
    - (ts / 2) <= dy <= ts / 2 ->
    _hit_index w (x + dx) (y + dy) st = Some (Some (Z.of_nat i))
    /\ exists e, images st !! i = Some e /\ e_thumb e = img.
Proof.
  intros w show_marker p st items region x y img i ts dx dy Hdraw Hin Hts Hdx Hdy.
  destruct (drawn_image_in_grid w show_marker p st items region x y img i ts
              Hdraw Hin Hts)
    as [cols [e [Hcols [Hpos [He [Himg [Hx [Hy _]]]]]]]].
  split; [|exists e; auto].
  destruct (thumb_size_range st ts Hts) as [Hrange Heven].
  assert (Hhalf : 2 * (ts / 2) = ts).
  { pose proof (Z.div_mod ts 2 ltac:(lia)). lia. }
  unfold _hit_index. rewrite Hts. cbn [mbind option_bind]. rewrite Hcols.
  cbn [mbind option_bind]. unfold CELL_PADDING, LABEL_HEIGHT in *.
  set (col := Z.of_nat i mod cols) in *. set (row := Z.of_nat i / cols) in *.
  assert (Hcol : (x + dx) / (ts + 10 * 2) = col).
  { subst x. replace (col * (ts + 10 * 2) + 10 + ts / 2 + dx)
      with (col * (ts + 10 * 2) + (10 + ts / 2 + dx)) by lia.
    apply cell_of_point; lia. }
  assert (Hrow : (y + dy) / (ts + 10 * 2 + 20) = row).
  { subst y. replace (row * (ts + 10 * 2 + 20) + 10 + ts / 2 + dy)
      with (row * (ts + 10 * 2 + 20) + (10 + ts / 2 + dy)) by lia.
    apply cell_of_point; lia. }
  rewrite Hcol, Hrow.
  assert (Hi : row * cols + col = Z.of_nat i).
  { subst row col. pose proof (Z.div_mod (Z.of_nat i) cols ltac:(lia)). lia. }
  rewrite Hi. apply lookup_lt_Some in He.
  destruct (Z.leb_spec 0 (Z.of_nat i)); [|lia].
  destruct (Z.ltb_spec (Z.of_nat i) (Z.of_nat (length (images st)))); [|lia].
  reflexivity.
Qed.

Lemma hit_index_finds_drawn_item_witness :
  _hit_index 400 (255 + 70) (85 + -75) demo_grid = Some (Some (Z.of_nat 1))
  /\ exists e, images demo_grid !! 1%nat = Some e
               /\ e_thumb e = PhotoImage (placeholder 150).
Proof.
  apply (hit_index_finds_drawn_item 400 true
           {| drag_index := None; insert_index := None |} demo_grid
           (fst (default ([], (0, 0, 0, 0))
                   (_draw_grid_on 400 true
                      {| drag_index := None; insert_index := None |} demo_grid)))
           (0, 0, 340, 580) 255 85 (PhotoImage (placeholder 150)) 1 150 70 (-75)).
  - vm_compute. reflexivity.
  - vm_compute. auto.
  - reflexivity.
  - vm_compute. split; discriminate.
  - vm_compute. split; discriminate.
Defined.

(** Every thumbnail of the grid, with the band of its label, lies inside
    the scroll region that [_draw_grid_on] sets. *)
Theorem grid_items_inside_scroll_region :
  forall (w : Z) (show_marker : bool) (p : pointer) (st : app)
         (items : list item) (x0 y0 x1 y1 x y : Z) (img : photo) (i : nat)
         (ts : Z),
    _draw_grid_on w show_marker p st = Some (items, (x0, y0, x1, y1)) ->
    In (ImageItem x y img i) items ->
    _thumb_size st = Some ts ->
    x0 <= x - ts / 2 /\ x + ts / 2 <= x1
    /\ y0 <= y - ts / 2 /\ y + ts / 2 + LABEL_HEIGHT <= y1.
Proof.
  intros w show_marker p st items x0 y0 x1 y1 x y img i ts Hdraw Hin Hts.
  destruct (drawn_image_in_grid w show_marker p st items _ x y img i ts
              Hdraw Hin Hts)
    as [cols [e [Hcols [Hpos [He [Himg [Hx [Hy Hregion]]]]]]]].
  injection Hregion as -> -> -> ->.
  destruct (thumb_size_range st ts Hts) as [Hrange Heven].
  assert (Hhalf : 2 * (ts / 2) = ts).
  { pose proof (Z.div_mod ts 2 ltac:(lia)). lia. }
  unfold CELL_PADDING, LABEL_HEIGHT in *.
  apply lookup_lt_Some in He.
  set (n := Z.of_nat (length (images st))) in *.
  pose proof (Z.mod_pos_bound (Z.of_nat i) cols ltac:(lia)) as Hcol.
  assert (Hrow0 : 0 <= Z.of_nat i / cols) by (apply Z.div_pos; lia).
  assert (Hrow : Z.of_nat i / cols + 1 <= (n + cols - 1) / cols).
  { rewrite <- (Z.div_add (Z.of_nat i) 1 cols) by lia.
    apply Z.div_le_mono; lia. }
  set (col := Z.of_nat i mod cols) in *. set (row := Z.of_nat i / cols) in *.
  set (rows := (n + cols - 1) / cols) in *.
  subst x y. repeat split; nia.
Qed.

Lemma grid_items_inside_scroll_region_witness :
  0 <= 255 - 150 / 2 /\ 255 + 150 / 2 <= 340
  /\ 0 <= 85 - 150 / 2 /\ 85 + 150 / 2 + LABEL_HEIGHT <= 580.
Proof.
  apply (grid_items_inside_scroll_region 400 true
           {| drag_index := None; insert_index := None |} demo_grid
           (fst (default ([], (0, 0, 0, 0))
                   (_draw_grid_on 400 true
                      {| drag_index := None; insert_index := None |} demo_grid)))
           0 0 340 580 255 85 (PhotoImage (placeholder 150)) 1 150).
  - vm_compute. reflexivity.
  - vm_compute. auto.
  - reflexivity.
Defined.

(** Over the cell of the image of index [i], the insert position is [i]
    up to the centre line of the cell and [i + 1] to the right of it. *)
Theorem insert_position_follows_cell_halves :
  forall (w : Z) (show_marker : bool) (p : pointer) (st : app)
         (items : list item) (region : Z * Z * Z * Z)
         (x y : Z) (img : photo) (i : nat) (ts dx dy : Z),
    _draw_grid_on w show_marker p st = Some (items, region) ->
    In (ImageItem x y img i) items ->
    _thumb_size st = Some ts ->
    - (ts / 2 + CELL_PADDING) <= dx < ts / 2 + CELL_PADDING ->
    - (ts / 2 + CELL_PADDING) <= dy < ts / 2 + CELL_PADDING + LABEL_HEIGHT ->
    _insert_position w (x + dx) (y + dy) st
    = Some (if (0 <? dx)%Z then Z.of_nat i + 1 else Z.of_nat i).
Proof.
  intros w show_marker p st items region x y img i ts dx dy Hdraw Hin Hts Hdx Hdy.
  destruct (drawn_image_in_grid w show_marker p st items region x y img i ts
              Hdraw Hin Hts)
    as [cols [e [Hcols [Hpos [He [Himg [Hx [Hy _]]]]]]]].
  destruct (thumb_size_range st ts Hts) as [Hrange Heven].
  assert (Hhalf : 2 * (ts / 2) = ts).
  { pose proof (Z.div_mod ts 2 ltac:(lia)). lia. }
  unfold _insert_position. rewrite Hts. cbn [mbind option_bind]. rewrite Hcols.
  cbn [mbind option_bind]. unfold CELL_PADDING, LABEL_HEIGHT in *.
  pose proof (Z.mod_pos_bound (Z.of_nat i) cols ltac:(lia)) as Hcolr.
  assert (Hrow0 : 0 <= Z.of_nat i / cols) by (apply Z.div_pos; lia).
  assert (Hi : Z.of_nat i / cols * cols + Z.of_nat i mod cols = Z.of_nat i).
  { pose proof (Z.div_mod (Z.of_nat i) cols ltac:(lia)). lia. }
  set (col := Z.of_nat i mod cols) in *. set (row := Z.of_nat i / cols) in *.
  assert (Hcol : Z.quot (x + dx) (ts + 10 * 2) = col).
  { rewrite Z.quot_div_nonneg by (subst x; nia).
    subst x. replace (col * (ts + 10 * 2) + 10 + ts / 2 + dx)
      with (col * (ts + 10 * 2) + (10 + ts / 2 + dx)) by lia.
    apply cell_of_point; lia. }
  assert (Hrow : (y + dy) / (ts + 10 * 2 + 20) = row).
  { subst y. replace (row * (ts + 10 * 2 + 20) + 10 + ts / 2 + dy)
      with (row * (ts + 10 * 2 + 20) + (10 + ts / 2 + dy)) by lia.
    apply cell_of_point; lia. }
  rewrite Hcol, Hrow, Hi. apply lookup_lt_Some in He. f_equal.
  destruct (Z.ltb_spec (ts + 10 * 2) (2 * (x + dx - col * (ts + 10 * 2))));
    destruct (Z.ltb_spec 0 dx); subst x; lia.
Qed.

Lemma insert_position_follows_cell_halves_witness :
  _insert_position 400 (255 + 1) (85 + 0) demo_grid
  = Some (if (0 <? 1)%Z then Z.of_nat 1 + 1 else Z.of_nat 1).
Proof.
  apply (insert_position_follows_cell_halves 400 true
           {| drag_index := None; insert_index := None |} demo_grid
           (fst (default ([], (0, 0, 0, 0))
                   (_draw_grid_on 400 true
                      {| drag_index := None; insert_index := None |} demo_grid)))
           (0, 0, 340, 580) 255 85 (PhotoImage (placeholder 150)) 1 150 1 0).
  - vm_compute. reflexivity.
  - vm_compute. auto.
  - reflexivity.
  - vm_compute. split; [discriminate | reflexivity].
  - vm_compute. split; [discriminate | reflexivity].
Defined.

(** *** Dropping a dragged image *)

Lemma draw_grid_images (items : list entry) (st : app) :
  images (_draw_grid (set_images items st)) = items
  /\ canvas (_draw_grid (set_images items st)) = GridDrawn items.
Proof.
  destruct st. unfold _draw_grid. app_cbn.
  destruct _split_mode0; split; reflexivity.
Qed.

Lemma py_pop_in_range {A : Type} (l : list A) (src : Z) :
  0 <= src < Z.of_nat (length l) ->
  exists x,
    l !! Z.to_nat src = Some x
    /\ py_pop src l = Some (x, delete (Z.to_nat src) l).
Proof.
  intros Hsrc. unfold py_pop.
  destruct (Z.ltb_spec src 0); [lia|].
  destruct (Z.leb_spec 0 src); [|lia].
  destruct (Z.ltb_spec src (Z.of_nat (length l))); [|lia].
  cbn [andb].
  destruct (l !! Z.to_nat src) as [x|] eqn:E; [eauto|].
  apply lookup_ge_None in E. lia.
Qed.

Lemma py_insert_in_range {A : Type} (l : list A) (i : Z) (x : A) :
  0 <= i <= Z.of_nat (length l) ->
  py_insert i x l = (take (Z.to_nat i) l ++ x :: drop (Z.to_nat i) l)%list
  /\ py_insert i x l !! Z.to_nat i = Some x
  /\ delete (Z.to_nat i) (py_insert i x l) = l.
Proof.
  intros Hi. unfold py_insert.
  destruct (Z.ltb_spec i 0); [lia|].
  rewrite Z.min_l by lia.
  assert (Hlen : length (take (Z.to_nat i) l) = Z.to_nat i)
    by (rewrite length_take; lia).
  split; [reflexivity|]. split.
  - rewrite lookup_app_r by lia. rewrite Hlen, Nat.sub_diag. reflexivity.
  - rewrite <- Hlen at 1. rewrite delete_middle. apply take_drop.
Qed.

Lemma on_drop_spec (st : app) (src dst : Z) :
  0 <= src < Z.of_nat (length (images st)) ->
  0 <= dst <= Z.of_nat (length (images st)) ->
  exists items,
    _on_drop {| drag_index := Some src; insert_index := Some dst |} st
    = Normal (_draw_grid (set_images items st),
              {| drag_index := None; insert_index := None |})
    /\ items !! drop_target src dst = images st !! Z.to_nat src
    /\ delete (drop_target src dst) items = delete (Z.to_nat src) (images st)
    /\ Permutation items (images st).
Proof.
  intros Hsrc Hdst. unfold _on_drop, drop_target.
  cbn [drag_index insert_index].
  destruct (py_pop_in_range (images st) src Hsrc) as [x [Hx Hpop]].
  destruct (Z.eqb_spec dst src) as [->|Hne1]; cbn [negb andb].
  { exists (images st). rewrite Z.ltb_irrefl. auto. }
  destruct (Z.eqb_spec dst (src + 1)) as [->|Hne2]; cbn [negb andb].
  { exists (images st). destruct (Z.ltb_spec src (src + 1)); [|lia].
    replace (src + 1 - 1) with src by lia. auto. }
  rewrite Hpop.
  set (t := if (src <? dst)%Z then dst - 1 else dst).
  assert (Hlen : length (delete (Z.to_nat src) (images st))
                 = (length (images st) - 1)%nat).
  { apply length_delete. rewrite Hx. eauto. }
  assert (Ht : 0 <= t <= Z.of_nat (length (delete (Z.to_nat src) (images st)))).
  { subst t. rewrite Hlen. destruct (Z.ltb_spec src dst); lia. }
  destruct (py_insert_in_range _ t x Ht) as [Heq [Hlook Hdel]].
  exists (py_insert t x (delete (Z.to_nat src) (images st))).
  split; [reflexivity|]. split; [now rewrite Hlook, Hx|].
  split; [exact Hdel|].
  rewrite Heq. rewrite <- Permutation_middle, take_drop.
  symmetry. apply delete_Permutation. exact Hx.
Qed.

(** A drop moves the dragged image and nothing else: afterwards the image
    stands at the insert position (counted without it), the other images
    keep their order, and the grid shows the new list. *)
Theorem on_drop_moves_dragged_item :
  forall (st : app) (src dst : Z),
    0 <= src < Z.of_nat (length (images st)) ->
    0 <= dst <= Z.of_nat (length (images st)) ->
    exists st',
      _on_drop {| drag_index := Some src; insert_index := Some dst |} st
      = Normal (st', {| drag_index := None; insert_index := None |})
      /\ images st' !! drop_target src dst = images st !! Z.to_nat src
      /\ delete (drop_target src dst) (images st')
         = delete (Z.to_nat src) (images st)
      /\ Permutation (images st') (images st)
      /\ canvas st' = GridDrawn (images st').
Proof.
  intros st src dst Hsrc Hdst.
  destruct (on_drop_spec st src dst Hsrc Hdst) as [items [Hdrop [Hat [Hrest Hperm]]]].
  destruct (draw_grid_images items st) as [Himgs Hcanvas].
  exists (_draw_grid (set_images items st)).
  rewrite Himgs. auto.
Qed.

Lemma on_drop_moves_dragged_item_witness :
  exists st',
    _on_drop {| drag_index := Some 0; insert_index := Some 3 |} demo_grid
    = Normal (st', {| drag_index := None; insert_index := None |})
    /\ images st' !! drop_target 0 3 = images demo_grid !! Z.to_nat 0
    /\ delete (drop_target 0 3) (images st')
       = delete (Z.to_nat 0) (images demo_grid)
    /\ Permutation (images st') (images demo_grid)
    /\ canvas st' = GridDrawn (images st').
Proof.
  apply (on_drop_moves_dragged_item demo_grid 0 3).
  - vm_compute. split; [discriminate | reflexivity].
  - vm_compute. split; discriminate.
Defined.

Example drop_first_image_before_fourth :
  map e_name
    (images (fst (match _on_drop {| drag_index := Some 0; insert_index := Some 3 |}
                          demo_grid with
                  | Normal r | Raises r => r
                  end)))
  = ["b.png"; "c.png"; "a.png"; "d.png"; "e.png"].
Proof. vm_compute. reflexivity. Qed.

Lemma hit_index_range (w x y : Z) (st : app) (idx : Z) :
  _hit_index w x y st = Some (Some idx) ->
  0 <= idx < Z.of_nat (length (images st)).
Proof.
  unfold _hit_index.
  destruct (_thumb_size st) as [ts|]; [|discriminate]. cbn [mbind option_bind].
  destruct (_calc_columns w st) as [cols|]; [|discriminate].
  cbn [mbind option_bind].
  match goal with
  | |- context [andb (Z.leb 0 ?v) (Z.ltb ?v ?n)] =>
      destruct (Z.leb_spec 0 v); destruct (Z.ltb_spec v n); cbn [andb]
  end; intros Hidx; try discriminate.
  assert (Heq : forall a b : Z, Some (Some a) = Some (Some b) -> a = b)
    by congruence.
  apply Heq in Hidx. lia.
Qed.

Lemma insert_position_range (w x y : Z) (st : app) (idx : Z) :
  _insert_position w x y st = Some idx ->
  0 <= idx <= Z.of_nat (length (images st)).
Proof.
  unfold _insert_position.
  destruct (_thumb_size st) as [ts|]; [|discriminate]. cbn [mbind option_bind].
  destruct (_calc_columns w st) as [cols|]; [|discriminate].
  cbn [mbind option_bind]. intros [= <-]. lia.
Qed.

(** A drag between any two points of the canvases only reorders the
    images: with the index that [_hit_index] gives at the press and the
    position that [_insert_position] gives at the release, the drop ends
    normally with a permutation of the images, and the pressed image is
    the one that moved. *)
Theorem drag_gesture_permutes_images :
  forall (st : app) (w x0 y0 w' x1 y1 src dst : Z),
    _hit_index w x0 y0 st = Some (Some src) ->
    _insert_position w' x1 y1 st = Some dst ->
    exists st',
      _on_drop {| drag_index := Some src; insert_index := Some dst |} st
      = Normal (st', {| drag_index := None; insert_index := None |})
      /\ Permutation (images st') (images st)
      /\ length (images st') = length (images st)
      /\ images st' !! drop_target src dst = images st !! Z.to_nat src.
Proof.
  intros st w x0 y0 w' x1 y1 src dst Hhit Hins.
  apply hit_index_range in Hhit. apply insert_position_range in Hins.
  destruct (on_drop_spec st src dst Hhit Hins) as [items [Hdrop [Hat [_ Hperm]]]].
  destruct (draw_grid_images items st) as [Himgs _].
  exists (_draw_grid (set_images items st)).
  rewrite Himgs. split; [exact Hdrop|]. split; [exact Hperm|].
  split; [now apply Permutation_length | exact Hat].
Qed.

Lemma drag_gesture_permutes_images_witness :
  exists st',
    _on_drop {| drag_index := Some 4; insert_index := Some 1 |} demo_grid
    = Normal (st', {| drag_index := None; insert_index := None |})
    /\ Permutation (images st') (images demo_grid)
    /\ length (images st') = length (images demo_grid)
    /\ images st' !! drop_target 4 1 = images demo_grid !! Z.to_nat 4.
Proof.
  apply (drag_gesture_permutes_images demo_grid 400 100 400 400 175 10 4 1).
  - vm_compute. reflexivity.
  - vm_compute. reflexivity.
Defined.

(** *** Zoom *)

Lemma rethumb_complete (idx : nat) (items : list entry) :
  Forall (fun e => (idx < length (e_thumbs e))%nat) items ->
  rethumb idx items = Normal (map (shown_at idx) items).
Proof.
  induction 1 as [|e items He _ IH]; [reflexivity|].
  cbn [rethumb map]. unfold shown_at at 1.
  destruct (e_thumbs e !! idx) as [t|] eqn:E.
  - now rewrite IH.
  - apply lookup_ge_None in E. lia.
Qed.

Lemma shown_at_in_sync (idx : nat) (e : entry) :
  e_thumbs e !! idx = Some (e_thumb e) -> shown_at idx e = e.
Proof. unfold shown_at. intros ->. now destruct e. Qed.

Lemma shown_at_thumb (idx : nat) (e : entry) :
  (idx < length (e_thumbs e))%nat ->
  e_thumbs (shown_at idx e) = e_thumbs e
  /\ e_thumbs (shown_at idx e) !! idx = Some (e_thumb (shown_at idx e)).
Proof.
  intros Hlt. unfold shown_at. cbn [set_thumb e_thumbs e_thumb].
  split; [reflexivity|].
  destruct (e_thumbs e !! idx) as [t|] eqn:E; [reflexivity|].
  apply lookup_ge_None in E. lia.
Qed.

Lemma change_thumb_size_spec (new_idx : nat) (st : app) :
  thumbs_complete st ->
  thumbs_in_sync st ->
  (new_idx < length THUMB_SIZES)%nat ->
  exists st',
    _change_thumb_size new_idx st = Normal st' /\ zoomed_to new_idx st st'.
Proof.
  intros Hcomplete Hsync Hlt. unfold _change_thumb_size.
  destruct (Nat.eqb_spec new_idx (_thumb_size_idx st)) as [->|Hne].
  - exists st. split; [reflexivity|]. unfold zoomed_to.
    split; [reflexivity|]. split; [|auto].
    unfold thumbs_in_sync in Hsync. clear Hcomplete Hlt.
    induction Hsync as [|e items He _ IH]; [reflexivity|].
    cbn [map]. now rewrite (shown_at_in_sync _ e He), <- IH.
  - assert (Hall : Forall (fun e => (new_idx < length (e_thumbs e))%nat)
                     (images st)).
    { eapply List.Forall_impl; [|exact Hcomplete]. cbn. intros e ->. exact Hlt. }
    replace (images (set_thumb_size_idx new_idx st)) with (images st)
      by (destruct st; reflexivity).
    rewrite (rethumb_complete new_idx (images st) Hall).
    eexists. split; [reflexivity|].
    destruct st. unfold zoomed_to, thumbs_complete, thumbs_in_sync, _draw_grid in *.
    app_cbn_all.
    assert (H1 : Forall (fun e => length (e_thumbs e) = length THUMB_SIZES)
                   (map (shown_at new_idx) images0)).
    { apply List.Forall_forall. intros e' Hin.
      apply in_map_iff in Hin as [e [<- Hin]].
      rewrite List.Forall_forall in Hcomplete.
      unfold shown_at. cbn [set_thumb e_thumbs]. now apply Hcomplete. }
    assert (H2 : Forall (fun e => e_thumbs e !! new_idx = Some (e_thumb e))
                   (map (shown_at new_idx) images0)).
    { apply List.Forall_forall. intros e' Hin.
      apply in_map_iff in Hin as [e [<- Hin]].
      rewrite List.Forall_forall in Hall.
      apply shown_at_thumb. now apply Hall. }
    destruct _split_mode0; app_cbn; auto 10.
Qed.

(** Zooming keeps the images and their thumbnails together: after
    [_zoom_in] or [_zoom_out] the size index is the next or the previous
    one, within the sizes, and every image shows its thumbnail of that
    size; during a load, or without images, nothing changes. *)
Theorem zoom_keeps_thumbs_in_sync :
  forall st : app,
    thumbs_complete st ->
    thumbs_in_sync st ->
    (_thumb_size_idx st < length THUMB_SIZES)%nat ->
    (exists st',
       _zoom_in st = Normal st'
       /\ zoomed_to
            (if zoom_blocked st then _thumb_size_idx st
             else Nat.min (_thumb_size_idx st + 1) 2) st st')
    /\ (exists st',
          _zoom_out st = Normal st'
          /\ zoomed_to
               (if zoom_blocked st then _thumb_size_idx st
                else (_thumb_size_idx st - 1)%nat) st st').
Proof.
  intros st Hcomplete Hsync Hlt.
  assert (Hsame : zoomed_to (_thumb_size_idx st) st st).
  { destruct (change_thumb_size_spec (_thumb_size_idx st) st Hcomplete Hsync Hlt)
      as [st' [Hch Hz]].
    unfold _change_thumb_size in Hch. rewrite Nat.eqb_refl in Hch.
    now injection Hch as <-. }
  unfold _zoom_in, _zoom_out. fold (zoom_blocked st).
  destruct (zoom_blocked st).
  - split; exists st; auto.
  - split.
    + change (length THUMB_SIZES - 1)%nat with 2%nat.
      apply change_thumb_size_spec; auto. cbn [length THUMB_SIZES]. lia.
    + rewrite Nat.max_0_r. apply change_thumb_size_spec; auto. lia.
Qed.

Lemma zoom_keeps_thumbs_in_sync_witness :
  (exists st',
     _zoom_in demo_grid = Normal st'
     /\ zoomed_to
          (if zoom_blocked demo_grid then _thumb_size_idx demo_grid
           else Nat.min (_thumb_size_idx demo_grid + 1) 2) demo_grid st')
  /\ (exists st',
        _zoom_out demo_grid = Normal st'
        /\ zoomed_to
             (if zoom_blocked demo_grid then _thumb_size_idx demo_grid
              else (_thumb_size_idx demo_grid - 1)%nat) demo_grid st').
Proof.
  apply (zoom_keeps_thumbs_in_sync demo_grid).
  - unfold thumbs_complete. vm_compute. repeat constructor.
  - unfold thumbs_in_sync. vm_compute. repeat constructor.
  - vm_compute. lia.
Defined.

(** Zooming in and out again gives back the images as they were, at the
    size they had. *)
Theorem zoom_in_then_out_restores :
  forall st : app,
    thumbs_complete st ->
    thumbs_in_sync st ->
    zoom_blocked st = false ->
    (_thumb_size_idx st + 1 < length THUMB_SIZES)%nat ->
    exists st1 st2,
      _zoom_in st = Normal st1
      /\ _zoom_out st1 = Normal st2
      /\ _thumb_size_idx st1 = (_thumb_size_idx st + 1)%nat
      /\ _thumb_size_idx st2 = _thumb_size_idx st
      /\ images st2 = images st.
Proof.
  intros st Hcomplete Hsync Hfree Hlt.
  set (k := _thumb_size_idx st) in *.
  assert (Hk1 : Nat.min (k + 1) (length THUMB_SIZES - 1) = (k + 1)%nat).
  { cbn [length THUMB_SIZES] in Hlt |- *. lia. }
  destruct (change_thumb_size_spec (k + 1) st Hcomplete Hsync Hlt)
    as [st1 [Hin [Hidx1 [Himg1 [Hload1 [Hc1 [Hs1 _]]]]]]].
  assert (Hfree1 : zoom_blocked st1 = false).
  { unfold zoom_blocked in *. rewrite Hload1, Himg1.
    destruct (_loading st); [discriminate|].
    destruct (images st); [discriminate | reflexivity]. }
  destruct (change_thumb_size_spec k st1 Hc1 Hs1 ltac:(lia))
    as [st2 [Hout [Hidx2 [Himg2 _]]]].
  exists st1, st2.
  split. { unfold _zoom_in. fold (zoom_blocked st). rewrite Hfree.
           fold k. rewrite Hk1. exact Hin. }
  split. { unfold _zoom_out. fold (zoom_blocked st1). rewrite Hfree1, Hidx1.
           rewrite Nat.max_0_r. replace (k + 1 - 1)%nat with k by lia.
           exact Hout. }
  split; [exact Hidx1|]. split; [exact Hidx2|].
  rewrite Himg2, Himg1, map_map.
  unfold thumbs_in_sync in Hsync. fold k in Hsync. clear -Hsync.
  induction Hsync as [|e items He _ IH]; [reflexivity|].
  cbn [map]. rewrite IH. f_equal.
  unfold shown_at. cbn [set_thumb e_thumbs e_thumb]. rewrite He.
  now destruct e.
Qed.

Lemma zoom_in_then_out_restores_witness :
  exists st1 st2,
    _zoom_in demo_grid = Normal st1
    /\ _zoom_out st1 = Normal st2
    /\ _thumb_size_idx st1 = (_thumb_size_idx demo_grid + 1)%nat
    /\ _thumb_size_idx st2 = _thumb_size_idx demo_grid
    /\ images st2 = images demo_grid.
Proof.
  apply (zoom_in_then_out_restores demo_grid).
  - unfold thumbs_complete. vm_compute. repeat constructor.
  - unfold thumbs_in_sync. vm_compute. repeat constructor.
  - reflexivity.
  - vm_compute. lia.
Defined.

(** *** From a load to the zoom *)

Lemma store_result_keeps_size_idx (idx : nat) (r : outcome) (st st' : app) :
  store_result idx r st = Some st' -> _thumb_size_idx st' = _thumb_size_idx st.
Proof.
  unfold store_result, set_slot. destruct st. app_cbn.
  destruct (entry_of_outcome _thumb_size_idx0 r) as [e|];
    destruct _results0 as [slots|];
    repeat match goal with
           | |- context [if ?b then _ else _] => destruct b
           | |- context [match error_entry ?k with _ => _ end] =>
               destruct (error_entry k)
           end;
    intros H; try discriminate; injection H as <-; reflexivity.
Qed.

Lemma harvest_keeps_size_idx (result : future -> outcome) (batch : list future) :
  forall st,
    _thumb_size_idx (state_of (harvest result batch st)) = _thumb_size_idx st.
Proof.
  induction batch as [|f rest IH]; intros st; cbn [harvest]; [reflexivity|].
  destruct (pop_future f (_futures st)) as [[idx futs]|]; [|reflexivity].
  destruct (store_result idx (result f) (set_futures futs st)) as [st'|] eqn:E.
  - rewrite IH. apply store_result_keeps_size_idx in E.
    destruct st, st'. app_cbn_all. exact E.
  - destruct st. reflexivity.
Qed.

Lemma poll_keeps_size_idx (done : future -> bool) (result : future -> outcome)
    (st : app) :
  _thumb_size_idx (state_of (_poll_futures done result st)) = _thumb_size_idx st.
Proof.
  unfold _poll_futures. destruct (_load_cancelled st).
  - destruct st. unfold _finish_loading. app_cbn.
    destruct _executor0; reflexivity.
  - set (batch := take 10 _).
    pose proof (harvest_keeps_size_idx result batch st) as Hh.
    destruct (harvest result batch st) as [st1|st1]; [|exact Hh].
    cbn [state_of] in Hh. rewrite <- Hh. clear Hh.
    destruct st1. destruct batch; app_cbn;
      (destruct (_total_count0 <=? _completed_count0)%nat; [|reflexivity]);
      (destruct _results0; [|reflexivity]);
      unfold _draw_grid, _finish_loading; app_cbn;
      destruct _executor0, _split_mode0; reflexivity.
Qed.

Lemma ticks_keep_size_idx (result : future -> outcome)
    (dones : list (future -> bool)) :
  forall st, _thumb_size_idx (ticks dones result st) = _thumb_size_idx st.
Proof.
  induction dones as [|done rest IH]; intros st; cbn [ticks]; [reflexivity|].
  assert (Ht : _thumb_size_idx (state_of (tick done result st))
               = _thumb_size_idx st).
  { unfold tick. destruct (polls_pending st) eqn:E; [reflexivity|].
    rewrite poll_keeps_size_idx. destruct st. reflexivity. }
  destruct (tick done result st); cbn [state_of] in Ht; now rewrite IH.
Qed.

Lemma delivered_entry (k : nat) (r : outcome) (e : entry) :
  delivered k r = Some e ->
  e_thumbs e !! k = Some (e_thumb e)
  /\ (match r with
      | Returned _ _ pil_images => length pil_images = length THUMB_SIZES
      | Raised => True
      end -> length (e_thumbs e) = length THUMB_SIZES).
Proof.
  unfold delivered, entry_of_outcome, error_entry.
  destruct r as [path filename pil_images|].
  - destruct (map PhotoImage pil_images !! k) as [t|] eqn:E.
    + intros [= <-]. cbn [e_thumbs e_thumb]. split; [exact E|].
      intros <-. apply length_map.
    + destruct (map _ THUMB_SIZES !! k) as [t|] eqn:E'; [|discriminate].
      intros [= <-]. cbn [e_thumbs e_thumb]. split; [exact E' | reflexivity].
  - destruct (map _ THUMB_SIZES !! k) as [t|] eqn:E'; [|discriminate].
    intros [= <-]. cbn [e_thumbs e_thumb]. split; [exact E' | reflexivity].
Qed.

(** The images of a finished load are ready for the zoom: whatever the
    order of completion, each one shows the thumbnail of the current
    size, and each one has a thumbnail for every size when the workers
    returned one image per requested size. *)
Theorem loaded_images_ready_for_zoom :
  forall (CACHE_DIR path : string) (listing : list string) (cpu_count : option Z)
         (st0 : app) (dones : list (future -> bool)) (result : future -> outcome),
    png_files listing <> [] ->
    (forall f p n pil_images,
        result f = Returned p n pil_images ->
        length pil_images = length (fut_sizes f)) ->
    let st :=
      ticks dones result
        (state_of (_open_folder CACHE_DIR path listing cpu_count st0)) in
    (_total_count st <= _completed_count st)%nat ->
    thumbs_in_sync st /\ thumbs_complete st
    /\ _thumb_size_idx st = _thumb_size_idx st0.
Proof.
  intros CACHE_DIR path listing cpu_count st0 dones result Hfiles Hres st Hge.
  destruct (open_folder_starts_session CACHE_DIR path listing cpu_count st0
              result Hfiles) as [Hinv [Hlt Hfuts]].
  set (jobs := submit_all CACHE_DIR path (png_files listing) (next_future st0)) in *.
  assert (Hidx : _thumb_size_idx st = _thumb_size_idx st0).
  { unfold st. rewrite ticks_keep_size_idx.
    destruct Hinv as [slots H]. apply H. }
  assert (Hst : loading_or_done jobs (_thumb_size_idx st0) result st).
  { apply ticks_loading_or_done.
    - intros i f j. apply submit_all_indexed.
    - left. split; assumption. }
  destruct Hst as [[_ Hless]|[_ [_ [_ [_ Himgs]]]]]; [fold st in Hless; lia|].
  assert (Hall : forall e, In e (images st) ->
            exists job, In job jobs
              /\ delivered (_thumb_size_idx st0) (result (fst job)) = Some e).
  { intros e Hin. apply (in_map Some) in Hin. rewrite Himgs in Hin.
    apply in_map_iff in Hin as [job [Hd Hjob]]. eauto. }
  unfold thumbs_in_sync, thumbs_complete. rewrite Hidx.
  split; [|split; [|reflexivity]]; apply List.Forall_forall; intros e Hin;
    destruct (Hall e Hin) as [job [Hjob Hd]];
    destruct (delivered_entry _ _ _ Hd) as [Hsync Hcomplete]; [exact Hsync|].
  apply Hcomplete.
  destruct (result (fst job)) as [p n pil_images|] eqn:Er; [|exact I].
  rewrite (Hres _ _ _ _ Er).
  apply list_elem_of_In, list_elem_of_lookup in Hjob as [i Hi].
  unfold jobs in Hi. rewrite submit_all_lookup in Hi.
  destruct (png_files listing !! i); [|discriminate].
  cbn in Hi. injection Hi as <-. reflexivity.
Qed.

Lemma loaded_images_ready_for_zoom_witness :
  let st := ticks demo_dones demo_result demo_loaded in
  thumbs_in_sync st /\ thumbs_complete st
  /\ _thumb_size_idx st = _thumb_size_idx initial_app.
Proof.
  apply (loaded_images_ready_for_zoom "/cache" "/pics" demo_listing (Some 4)
           initial_app demo_dones demo_result).
  - vm_compute. discriminate.
  - intros f p n pil_images [= _ _ <-]. apply length_map.
  - vm_compute. lia.
Defined.

(** *** Decimal numerals *)

Lemma of_uint_acc_value (d : Decimal.uint) :
  forall acc : positive,
    Z.pos (Pos.of_uint_acc d acc)
    = Z.pos acc * 10 ^ Z.of_nat (Decimal.nb_digits d) + Z.of_uint d
    /\ 0 <= Z.of_uint d < 10 ^ Z.of_nat (Decimal.nb_digits d).
Proof.
  unfold Z.of_uint.
  induction d as [|d IH|d IH|d IH|d IH|d IH|d IH|d IH|d IH|d IH|d IH];
    intros acc;
    [ cbn; lia | .. ];
    cbn [Pos.of_uint_acc Pos.of_uint Decimal.nb_digits];
    rewrite Nat2Z.inj_succ, Z.pow_succ_r by lia;
    pose proof (IH 1%positive) as [H1 Hr];
    match goal with
    | |- context [Pos.of_uint_acc d ?a] =>
        pose proof (IH a) as [Ha _]
    end;
    try match goal with
    | |- context [Z.of_N (N.pos (Pos.of_uint_acc d ?a))] =>
        pose proof (IH a) as [Hb _]
    end;
    cbn [Z.of_N] in *; lia.
Qed.

Lemma uint_value_range (d : Decimal.uint) :
  0 <= Z.of_uint d < 10 ^ Z.of_nat (Decimal.nb_digits d).
Proof. apply (of_uint_acc_value d 1). Qed.

Lemma uint_value_split (d : Decimal.uint) :
  d <> Decimal.Nil ->
  Z.of_uint d
  = head_digit d * 10 ^ Z.of_nat (Decimal.nb_digits (tail_digits d))
    + Z.of_uint (tail_digits d)
  /\ Decimal.nb_digits d = S (Decimal.nb_digits (tail_digits d))
  /\ 0 <= head_digit d <= 9.
Proof.
  intros Hd.
  destruct d as [|d|d|d|d|d|d|d|d|d|d]; [congruence | ..];
    cbn [head_digit tail_digits Decimal.nb_digits];
    (split; [|split; [reflexivity | lia]]);
    [ unfold Z.of_uint; cbn [Pos.of_uint]; lia | .. ];
    unfold Z.of_uint at 1; cbn [Pos.of_uint Z.of_N];
    match goal with
    | |- context [Pos.of_uint_acc d ?a] =>
        destruct (of_uint_acc_value d a) as [-> _]
    end; lia.
Qed.

Lemma string_of_uint_length (d : Decimal.uint) :
  String.length (NilEmpty.string_of_uint d) = Decimal.nb_digits d.
Proof.
  induction d; cbn [NilEmpty.string_of_uint String.length Decimal.nb_digits];
    congruence.
Qed.

Lemma string_of_uint_compare_head (d1 d2 : Decimal.uint) :
  d1 <> Decimal.Nil -> d2 <> Decimal.Nil ->
  String.compare (NilEmpty.string_of_uint d1) (NilEmpty.string_of_uint d2)
  = match (head_digit d1 ?= head_digit d2)%Z with
    | Eq => String.compare (NilEmpty.string_of_uint (tail_digits d1))
              (NilEmpty.string_of_uint (tail_digits d2))
    | c => c
    end.
Proof.
  intros H1 H2.
  destruct d1; [congruence | ..]; destruct d2; try congruence; reflexivity.
Qed.

Lemma string_of_uint_compare (d1 : Decimal.uint) :
  forall d2,
    Decimal.nb_digits d1 = Decimal.nb_digits d2 ->
    String.compare (NilEmpty.string_of_uint d1) (NilEmpty.string_of_uint d2)
    = (Z.of_uint d1 ?= Z.of_uint d2)%Z.
Proof.
  remember (Decimal.nb_digits d1) as n eqn:Hn. revert d1 Hn.
  induction n as [|n IH]; intros d1 Hn d2 Hlen.
  - symmetry in Hn, Hlen. apply DecimalFacts.nb_digits_0 in Hn, Hlen.
    subst. reflexivity.
  - assert (Hd1 : d1 <> Decimal.Nil) by (intros ->; discriminate).
    assert (Hd2 : d2 <> Decimal.Nil) by (intros ->; discriminate).
    rewrite (string_of_uint_compare_head d1 d2 Hd1 Hd2).
    destruct (uint_value_split d1 Hd1) as [-> [Hn1 Hh1]].
    destruct (uint_value_split d2 Hd2) as [-> [Hn2 Hh2]].
    assert (Ht1 : n = Decimal.nb_digits (tail_digits d1)) by lia.
    assert (Ht2 : n = Decimal.nb_digits (tail_digits d2)) by lia.
    rewrite (IH (tail_digits d1) Ht1 (tail_digits d2) Ht2).
    pose proof (uint_value_range (tail_digits d1)) as Hr1.
    pose proof (uint_value_range (tail_digits d2)) as Hr2.
    rewrite <- Ht1 in *. rewrite <- Ht2 in *.
    set (P := 10 ^ Z.of_nat n) in *.
    set (h1 := head_digit d1) in *. set (h2 := head_digit d2) in *.
    set (v1 := Z.of_uint (tail_digits d1)) in *.
    set (v2 := Z.of_uint (tail_digits d2)) in *.
    destruct (Z.compare_spec h1 h2) as [Heq|Hlt|Hgt].
    + rewrite Heq. destruct (Z.compare_spec v1 v2);
        [apply eq_sym, Z.compare_eq_iff | apply eq_sym, Z.compare_lt_iff
         | apply eq_sym, Z.compare_gt_iff]; lia.
    + symmetry. apply Z.compare_lt_iff. nia.
    + symmetry. apply Z.compare_gt_iff. nia.
Qed.

Lemma dec_spec (n : Z) :
  0 <= n ->
  py_str_int n = NilEmpty.string_of_uint (dec n)
  /\ Z.of_uint (dec n) = n
  /\ dec n <> Decimal.Nil.
Proof.
  intros Hn. destruct n as [|p|p]; [| |lia].
  - split; [reflexivity|]. split; [reflexivity | discriminate].
  - unfold py_str_int, dec. cbn [Z.to_int NilZero.string_of_int].
    pose proof (DecimalPos.Unsigned.to_uint_nonnil p) as Hnil.
    split; [|split; [|exact Hnil]].
    + unfold NilZero.string_of_uint. destruct (Pos.to_uint p); congruence.
    + unfold Z.of_uint. now rewrite DecimalPos.Unsigned.of_to.
Qed.

Lemma dec_head_nonzero (p : positive) : head_digit (Pos.to_uint p) <> 0.
Proof.
  assert (Hnorm : Decimal.unorm (Pos.to_uint p) = Pos.to_uint p).
  { pose proof (DecimalN.Unsigned.to_of (Pos.to_uint p)) as H.
    unfold N.of_uint in H. rewrite DecimalPos.Unsigned.of_to in H.
    symmetry. exact H. }
  pose proof (DecimalPos.Unsigned.to_uint_nonnil p) as Hnil.
  pose proof (DecimalPos.Unsigned.to_uint_nonzero p) as Hnz.
  destruct (Pos.to_uint p) as [|d|d|d|d|d|d|d|d|d|d];
    cbn [head_digit]; try lia; try congruence.
  exfalso. rewrite DecimalFacts.unorm_D0 in Hnorm.
  destruct d as [|d|d|d|d|d|d|d|d|d|d]; [congruence | ..];
    match type of Hnorm with
    | Decimal.unorm ?u = _ =>
        pose proof (DecimalFacts.nb_digits_unorm u ltac:(discriminate)) as Hle;
        rewrite Hnorm in Hle; cbn [Decimal.nb_digits] in Hle; lia
    end.
Qed.

Lemma dec_digits_bound (n : Z) (k : nat) :
  0 <= n < 10 ^ Z.of_nat k -> (0 < k)%nat ->
  (Decimal.nb_digits (dec n) <= k)%nat.
Proof.
  intros Hn Hk. destruct n as [|p|p]; [cbn; lia | | lia].
  cbn [dec].
  pose proof (DecimalPos.Unsigned.to_uint_nonnil p) as Hnil.
  destruct (uint_value_split _ Hnil) as [Hv [Hlen Hh]].
  pose proof (dec_head_nonzero p) as Hnz.
  pose proof (uint_value_range (tail_digits (Pos.to_uint p))) as Hr.
  unfold Z.of_uint at 1 in Hv. rewrite DecimalPos.Unsigned.of_to in Hv.
  cbn [Z.of_N] in Hv.
  destruct (Nat.le_gt_cases (Decimal.nb_digits (Pos.to_uint p)) k) as [|Hgt];
    [assumption|].
  exfalso.
  assert (Hpow : 10 ^ Z.of_nat k
                 <= 10 ^ Z.of_nat (Decimal.nb_digits (tail_digits (Pos.to_uint p)))).
  { apply Z.pow_le_mono_r; lia. }
  nia.
Qed.

Lemma dec_digits_mono (a b : Z) :
  0 <= a <= b -> (Decimal.nb_digits (dec a) <= Decimal.nb_digits (dec b))%nat.
Proof.
  intros Hab.
  destruct (dec_spec b ltac:(lia)) as [_ [Hv Hnil]].
  pose proof (uint_value_range (dec b)) as Hr. rewrite Hv in Hr.
  apply dec_digits_bound; [lia|].
  destruct (dec b); [congruence | ..]; cbn; lia.
Qed.

Lemma zeros_string_of_uint (k : nat) (d : Decimal.uint) :
  zeros k ++ NilEmpty.string_of_uint d
  = NilEmpty.string_of_uint (Nat.iter k Decimal.D0 d).
Proof.
  induction k as [|k IH]; [reflexivity|].
  cbn [zeros Nat.iter NilEmpty.string_of_uint].
  change (String "0" (zeros k) ++ NilEmpty.string_of_uint d)
    with (String "0" (zeros k ++ NilEmpty.string_of_uint d)).
  now rewrite IH.
Qed.

Lemma iter_D0_value (k : nat) (d : Decimal.uint) :
  Z.of_uint (Nat.iter k Decimal.D0 d) = Z.of_uint d.
Proof. induction k as [|k IH]; [reflexivity | exact IH]. Qed.

Lemma zfill_numeral (width : nat) (d : Decimal.uint) :
  d <> Decimal.Nil ->
  zfill width (NilEmpty.string_of_uint d)
  = NilEmpty.string_of_uint
      (Nat.iter (width - Decimal.nb_digits d) Decimal.D0 d).
Proof.
  intros Hd. unfold zfill. rewrite string_of_uint_length.
  rewrite <- zeros_string_of_uint.
  destruct d; [congruence | ..]; reflexivity.
Qed.

(** *** The names given by a rename *)

Lemma new_name_numeral (count i : nat) :
  (i < count)%nat ->
  exists d,
    new_name (rename_digits count) i = NilEmpty.string_of_uint d ++ ".png"
    /\ Decimal.nb_digits d = rename_digits count
    /\ Z.of_uint d = (Z.of_nat i + 1) * 10.
Proof.
  intros Hi. set (num := (Z.of_nat i + 1) * 10).
  destruct (dec_spec num ltac:(lia)) as [Hstr [Hval Hnil]].
  assert (Hle : (Decimal.nb_digits (dec num) <= rename_digits count)%nat).
  { unfold rename_digits.
    destruct (Z.ltb_spec (Z.of_nat count * 10) 1000) as [Hsmall|Hbig].
    - apply dec_digits_bound; [|lia]. change (10 ^ Z.of_nat 3) with 1000. lia.
    - destruct (dec_spec (Z.of_nat count * 10) ltac:(lia)) as [-> _].
      rewrite string_of_uint_length. apply dec_digits_mono. lia. }
  exists (Nat.iter (rename_digits count - Decimal.nb_digits (dec num))
            Decimal.D0 (dec num)).
  split; [|split].
  - unfold new_name. fold num. rewrite Hstr. now rewrite zfill_numeral.
  - rewrite DecimalFacts.nb_digits_iter_D0. lia.
  - now rewrite iter_D0_value.
Qed.

Lemma compare_app_lt (a : string) :
  forall b c d,
    String.length a = String.length b ->
    String.compare a b = Lt ->
    String.compare (a ++ c) (b ++ d) = Lt.
Proof.
  induction a as [|x a IH]; intros [|y b] c d Hlen Hlt;
    cbn [String.length] in Hlen; try discriminate.
  cbn [String.compare] in Hlt.
  change (String x a ++ c) with (String x (a ++ c)).
  change (String y b ++ d) with (String y (b ++ d)).
  cbn [String.compare].
  destruct (Ascii.compare x y); [|reflexivity | discriminate].
  apply IH; [congruence | exact Hlt].
Qed.

Lemma new_name_lt (count i j : nat) :
  (i < j)%nat -> (j < count)%nat ->
  String.compare (new_name (rename_digits count) i)
    (new_name (rename_digits count) j) = Lt.
Proof.
  intros Hij Hj.
  destruct (new_name_numeral count i ltac:(lia)) as [di [-> [Hni Hvi]]].
  destruct (new_name_numeral count j Hj) as [dj [-> [Hnj Hvj]]].
  apply compare_app_lt.
  - rewrite !string_of_uint_length. congruence.
  - rewrite string_of_uint_compare by congruence.
    apply Z.compare_lt_iff. lia.
Qed.

Lemma new_names_sorted (count : nat) :
  StronglySorted name_le (new_names count)
  /\ NoDup (new_names count).
Proof.
  unfold new_names.
  assert (H : forall first len,
             (first + len <= count)%nat ->
             StronglySorted name_le
               (map (new_name (rename_digits count)) (seq first len))
             /\ NoDup (map (new_name (rename_digits count)) (seq first len))).
  { intros first len. revert first.
    induction len as [|len IH]; intros first Hle; cbn [seq map].
    - split; constructor.
    - destruct (IH (S first) ltac:(lia)) as [Hs Hnd].
      assert (Hlt : forall g,
                 In g (map (new_name (rename_digits count)) (seq (S first) len)) ->
                 String.compare (new_name (rename_digits count) first) g = Lt).
      { intros g Hg. apply in_map_iff in Hg as [j [<- Hj]].
        apply in_seq in Hj. apply new_name_lt; lia. }
      split.
      + constructor; [exact Hs|]. apply List.Forall_forall. intros g Hg.
        unfold name_le, String.leb. now rewrite (Hlt g Hg).
      + apply NoDup_cons. split; [|exact Hnd].
        intros Hin. apply list_elem_of_In, Hlt in Hin.
        assert (Heq : String.compare (new_name (rename_digits count) first)
                        (new_name (rename_digits count) first) = Eq).
        { generalize (new_name (rename_digits count) first). intros s.
          induction s as [|c s IHs]; [reflexivity|].
          cbn [String.compare]. unfold Ascii.compare.
          now rewrite N.compare_refl. }
        congruence. }
  apply (H 0%nat count). lia.
Qed.

Lemma sorted_permutation_unique (l1 : list string) :
  forall l2,
    StronglySorted name_le l1 -> StronglySorted name_le l2 ->
    Permutation l1 l2 -> l1 = l2.
Proof.
  induction l1 as [|a l1 IH]; intros l2 H1 H2 Hp.
  - apply Permutation_nil in Hp. now subst.
  - destruct l2 as [|b l2].
    { symmetry in Hp. now apply Permutation_nil in Hp. }
    apply StronglySorted_inv in H1 as [H1 Ha].
    apply StronglySorted_inv in H2 as [H2 Hb].
    rewrite List.Forall_forall in Ha, Hb.
    assert (Hab : a = b).
    { assert (Hina : In a (b :: l2))
        by (eapply Permutation_in; [exact Hp | now left]).
      assert (Hinb : In b (a :: l1))
        by (eapply Permutation_in; [symmetry; exact Hp | now left]).
      destruct Hina as [->|Hina]; [reflexivity|].
      destruct Hinb as [->|Hinb]; [reflexivity|].
      apply String.leb_antisym; [now apply Ha | now apply Hb]. }
    subst b. f_equal. apply IH; [exact H1 | exact H2|].
    eapply Permutation_cons_inv. exact Hp.
Qed.

Lemma substring_whole (s : string) : substring 0 (String.length s) s = s.
Proof. induction s as [|c s IH]; [reflexivity|]. cbn. now rewrite IH. Qed.

Lemma endswith_app (a b : string) : endswith (a ++ b) b = true.
Proof.
  unfold endswith.
  assert (Hlen : String.length (a ++ b) = (String.length a + String.length b)%nat).
  { induction a as [|c a IH]; [reflexivity|].
    change (String c a ++ b) with (String c (a ++ b)). cbn [String.length].
    now rewrite IH. }
  rewrite Hlen. clear Hlen.
  replace (String.length a + String.length b - String.length b)%nat
    with (String.length a) by lia.
  assert (Hsub : substring (String.length a) (String.length b) (a ++ b) = b).
  { induction a as [|c a IH]; [apply substring_whole|].
    change (String c a ++ b) with (String c (a ++ b)). exact IH. }
  rewrite Hsub, String.eqb_refl.
  destruct (Nat.leb_spec (String.length b) (String.length a + String.length b));
    [reflexivity | lia].
Qed.

Lemma lower_app (a b : string) : lower (a ++ b) = lower a ++ lower b.
Proof.
  induction a as [|c a IH]; [reflexivity|].
  change (String c a ++ b) with (String c (a ++ b)). cbn [lower].
  now rewrite IH.
Qed.

Lemma lower_numeral (d : Decimal.uint) :
  lower (NilEmpty.string_of_uint d) = NilEmpty.string_of_uint d.
Proof.
  induction d; cbn [NilEmpty.string_of_uint lower];
    [reflexivity | rewrite IHd; reflexivity ..].
Qed.

Lemma new_names_png (count : nat) (f : string) :
  In f (new_names count) -> endswith (lower f) ".png" = true.
Proof.
  unfold new_names. intros Hin. apply in_map_iff in Hin as [i [<- Hi]].
  apply in_seq in Hi.
  destruct (new_name_numeral count i ltac:(lia)) as [d [-> _]].
  rewrite lower_app, lower_numeral.
  change (lower ".png") with ".png". apply endswith_app.
Qed.

(** A rename keeps the order on the next load: when the folder holds the
    renamed files and nothing else, whatever the order in which
    [os.listdir] gives them, [_load_images] submits them in the order the
    images had at the rename. *)
Theorem renamed_folder_loads_in_same_order :
  forall (count : nat) (listing : list string),
    Permutation listing (new_names count) ->
    png_files listing = new_names count.
Proof.
  intros count listing Hperm.
  assert (Hkeep : filter (fun f => endswith (lower f) ".png") listing = listing).
  { assert (Hall : forall f, In f listing -> endswith (lower f) ".png" = true).
    { intros f Hin. apply (new_names_png count).
      eapply Permutation_in; [exact Hperm | exact Hin]. }
    clear Hperm. induction listing as [|f l IH]; [reflexivity|].
    rewrite filter_cons_True by (apply Is_true_true, Hall; now left).
    f_equal. apply IH. intros g Hg. apply Hall. now right. }
  apply sorted_permutation_unique.
  - unfold png_files, sorted_names. rewrite Hkeep. clear.
    induction listing as [|f l IH]; cbn [fold_right];
      [constructor | now apply insert_name_sorted].
  - apply new_names_sorted.
  - unfold png_files, sorted_names. rewrite Hkeep.
    rewrite <- Hperm. clear.
    induction listing as [|f l IH]; cbn [fold_right]; [reflexivity|].
    rewrite insert_name_perm. now constructor.
Qed.

Lemma renamed_folder_loads_in_same_order_witness :
  png_files ["030.png"; "010.png"; "020.png"] = new_names 3.
Proof.
  apply (renamed_folder_loads_in_same_order 3 ["030.png"; "010.png"; "020.png"]).
  change (new_names 3) with ["010.png"; "020.png"; "030.png"].
  apply Permutation_cons_app with (l1 := ["010.png"; "020.png"]) (l2 := []).
  reflexivity.
Defined.

Example rename_names_of_120_images :
  rename_digits 120 = 4%nat
  /\ new_name (rename_digits 120) 0 = "0010.png"
  /\ new_name (rename_digits 120) 119 = "1200.png"
  /\ temp_name 7 = "__temp_000007.png".
Proof. vm_compute. auto. Qed.

(** *** Renaming the files *)

Lemma string_compare_refl (s : string) : String.compare s s = Eq.
Proof.
  induction s as [|c s IH]; [reflexivity|].
  cbn [String.compare]. unfold Ascii.compare. now rewrite N.compare_refl.
Qed.

Lemma string_of_uint_inj (d1 d2 : Decimal.uint) :
  NilEmpty.string_of_uint d1 = NilEmpty.string_of_uint d2 -> d1 = d2.
Proof.
  intros H. apply (f_equal NilEmpty.uint_of_string) in H.
  rewrite !NilEmpty.usu in H. congruence.
Qed.

Lemma temp_name_inj (i j : nat) : temp_name i = temp_name j -> i = j.
Proof.
  unfold temp_name. intros H.
  apply (string_app_inv_head "__temp_") in H.
  apply string_app_inv_tail in H.
  destruct (dec_spec (Z.of_nat i) ltac:(lia)) as [Hi [Hvi Hni]].
  destruct (dec_spec (Z.of_nat j) ltac:(lia)) as [Hj [Hvj Hnj]].
  rewrite Hi, Hj, !zfill_numeral in H by assumption.
  apply string_of_uint_inj in H. apply (f_equal Z.of_uint) in H.
  rewrite !iter_D0_value in H. lia.
Qed.

Lemma new_name_inj (count i j : nat) :
  (i < count)%nat -> (j < count)%nat ->
  new_name (rename_digits count) i = new_name (rename_digits count) j -> i = j.
Proof.
  intros Hi Hj H.
  destruct (Nat.lt_trichotomy i j) as [Hlt|[Heq|Hgt]]; [|exact Heq|].
  - pose proof (new_name_lt count i j Hlt Hj) as Hc.
    rewrite H, string_compare_refl in Hc. discriminate.
  - pose proof (new_name_lt count j i Hgt Hi) as Hc.
    rewrite H, string_compare_refl in Hc. discriminate.
Qed.

Lemma temp_name_not_new (count i j : nat) :
  (j < count)%nat -> temp_name i <> new_name (rename_digits count) j.
Proof.
  intros Hj H.
  destruct (new_name_numeral count j Hj) as [d [Hd [Hn _]]].
  rewrite Hd in H. apply (f_equal first_char) in H.
  assert (Hpos : (0 < rename_digits count)%nat).
  { unfold rename_digits. destruct (_ <? _)%Z; [lia|].
    destruct (dec_spec (Z.of_nat count * 10) ltac:(lia)) as [-> [_ Hnil]].
    rewrite string_of_uint_length. destruct (dec _); [congruence | ..]; cbn; lia. }
  destruct d; cbn [Decimal.nb_digits] in Hn; [lia | ..]; discriminate.
Qed.

Section Rename.

Variables (replaces : bool) (dir : string) (count : nat).

Lemma os_rename_fresh (src dst : string) (fs : gmap string N) (c : N) :
  fs !! src = Some c -> fs !! dst = None ->
  os_rename replaces src dst fs = Some (<[dst := c]> (delete src fs)).
Proof.
  intros Hsrc Hdst. unfold os_rename. rewrite Hsrc.
  destruct (String.eqb_spec src dst) as [->|_]; [congruence|].
  now rewrite Hdst.
Qed.

Lemma temp_path_inj (i j : nat) : temp_path dir i = temp_path dir j -> i = j.
Proof. intros H. apply path_join_inj in H. now apply temp_name_inj. Qed.

Lemma final_path_inj (i j : nat) :
  (i < count)%nat -> (j < count)%nat ->
  final_path dir count i = final_path dir count j -> i = j.
Proof. intros Hi Hj H. apply path_join_inj in H. now apply (new_name_inj count). Qed.

Lemma temp_path_not_final (i j : nat) :
  (j < count)%nat -> temp_path dir i <> final_path dir count j.
Proof.
  intros Hj H. apply path_join_inj in H. now apply (temp_name_not_new count i j).
Qed.

Lemma rename_to_temp_spec (items : list entry) :
  forall (i : nat) (temp_map : list string) (fs : gmap string N),
    NoDup (map e_path items) ->
    (forall e, In e items -> is_Some (fs !! e_path e)) ->
    (forall j, (j < length items)%nat -> fs !! temp_path dir (i + j) = None) ->
    exists fs',
      rename_to_temp replaces dir i items temp_map fs
      = Normal (fs', (temp_map ++ map (temp_path dir) (seq i (length items)))%list)
      /\ (forall j e, items !! j = Some e ->
            fs' !! temp_path dir (i + j) = fs !! e_path e)
      /\ (forall e, In e items -> fs' !! e_path e = None)
      /\ (forall p, ~ In p (map e_path items) ->
            (forall j, (j < length items)%nat -> p <> temp_path dir (i + j)) ->
            fs' !! p = fs !! p).
Proof.
  induction items as [|it rest IH]; intros i temp_map fs Hnd Hold Htemp.
  - exists fs. cbn [rename_to_temp length seq map]. rewrite app_nil_r.
    split; [reflexivity|]. split; [intros j e H; discriminate|].
    split; [intros e []|]. auto.
  - cbn [map] in Hnd. apply NoDup_cons in Hnd as [Hit Hnd].
    destruct (Hold it ltac:(now left)) as [c Hc].
    pose proof (Htemp 0%nat ltac:(cbn; lia)) as Ht0. rewrite Nat.add_0_r in Ht0.
    set (fs1 := <[temp_path dir i := c]> (delete (e_path it) fs)).
    assert (Hrest_ne : forall e, In e rest ->
              e_path e <> temp_path dir i /\ e_path e <> e_path it).
    { intros e He. split.
      - intros Heq. destruct (Hold e ltac:(now right)) as [c' Hc']. congruence.
      - intros Heq. apply Hit. rewrite <- Heq.
        apply list_elem_of_In, in_map, He. }
    assert (Hit_ne : e_path it <> temp_path dir i) by congruence.
    assert (Hold1 : forall e, In e rest -> fs1 !! e_path e = fs !! e_path e).
    { intros e He. destruct (Hrest_ne e He) as [H1 H2]. unfold fs1.
      rewrite lookup_insert_ne by congruence.
      now rewrite lookup_delete_ne by congruence. }
    destruct (IH (S i) (temp_map ++ [temp_path dir i])%list fs1 Hnd)
      as [fs' [Hrun [Hmoved [Hgone Hframe]]]].
    { intros e He. rewrite (Hold1 e He). apply Hold. now right. }
    { intros j Hj. unfold fs1.
      rewrite lookup_insert_ne
        by (intros Heq; apply temp_path_inj in Heq; lia).
      apply lookup_delete_None. right.
      replace (S i + j)%nat with (i + S j)%nat by lia.
      apply Htemp. cbn [length]. lia. }
    exists fs'. split; [|split; [|split]].
    + cbn [rename_to_temp]. fold (temp_path dir i).
      rewrite (os_rename_fresh _ _ _ c Hc Ht0). fold fs1. rewrite Hrun.
      cbn [length seq map]. now rewrite <- app_assoc.
    + intros [|j] e Hj.
      * cbn in Hj. injection Hj as <-. rewrite Nat.add_0_r.
        rewrite Hframe.
        -- unfold fs1. now rewrite lookup_insert_eq.
        -- intros Hin. apply in_map_iff in Hin as [e [Heq He]].
           destruct (Hrest_ne e He) as [H1 _]. congruence.
        -- intros j Hj Heq. apply temp_path_inj in Heq. lia.
      * cbn in Hj. replace (i + S j)%nat with (S i + j)%nat by lia.
        rewrite (Hmoved j e Hj). apply Hold1.
        apply list_elem_of_In, list_elem_of_lookup. eauto.
    + intros e [<-|He]; [|now apply Hgone].
      rewrite Hframe.
      * unfold fs1. rewrite lookup_insert_ne by congruence.
        apply lookup_delete_eq.
      * intros Hin. apply Hit. now apply list_elem_of_In.
      * intros j Hj Heq.
        pose proof (Htemp (S j) ltac:(cbn [length]; lia)) as Hn.
        replace (i + S j)%nat with (S i + j)%nat in Hn by lia. congruence.
    + intros p Hp Hnt. rewrite Hframe.
      * unfold fs1.
        rewrite lookup_insert_ne.
        -- rewrite lookup_delete_ne; [reflexivity|].
           intros Heq. apply Hp. left. exact Heq.
        -- intros Heq. apply (Hnt 0%nat ltac:(cbn [length]; lia)).
           now rewrite Nat.add_0_r.
      * intros Hin. apply Hp. now right.
      * intros j Hj. replace (S i + j)%nat with (i + S j)%nat by lia.
        apply Hnt. cbn [length]. lia.
Qed.

Lemma rename_to_final_spec (m : nat) :
  forall (i : nat) (fs : gmap string N) (items : list entry),
    (i + m = length items)%nat ->
    (length items <= count)%nat ->
    (forall j, (j < m)%nat -> is_Some (fs !! temp_path dir (i + j))) ->
    (forall j, (j < m)%nat -> fs !! final_path dir count (i + j) = None) ->
    exists fs' items',
      rename_to_final replaces dir (rename_digits count) i
        (map (temp_path dir) (seq i m)) fs items
      = Normal (fs', items')
      /\ length items' = length items
      /\ (forall j, (j < i)%nat -> items' !! j = items !! j)
      /\ (forall j e, (j < m)%nat -> items !! (i + j)%nat = Some e ->
            items' !! (i + j)%nat
            = Some (set_path_name (final_path dir count (i + j))
                      (new_name (rename_digits count) (i + j)) e))
      /\ (forall j, (j < m)%nat ->
            fs' !! final_path dir count (i + j) = fs !! temp_path dir (i + j))
      /\ (forall j, (j < m)%nat -> fs' !! temp_path dir (i + j) = None)
      /\ (forall p,
            (forall j, (j < m)%nat ->
               p <> temp_path dir (i + j) /\ p <> final_path dir count (i + j)) ->
            fs' !! p = fs !! p).
Proof.
  induction m as [|m IH]; intros i fs items Hlen Hcount Htemp Hfinal.
  - exists fs, items. cbn [seq map rename_to_final].
    split; [reflexivity|]. split; [reflexivity|]. split; [auto|].
    repeat (split; [intros; lia|]). auto.
  - destruct (Htemp 0%nat ltac:(lia)) as [c Hc]. rewrite Nat.add_0_r in Hc.
    pose proof (Hfinal 0%nat ltac:(lia)) as Hf0. rewrite Nat.add_0_r in Hf0.
    destruct (items !! i) as [it|] eqn:Hit;
      [|apply lookup_ge_None in Hit; lia].
    set (fs1 := <[final_path dir count i := c]> (delete (temp_path dir i) fs)).
    set (items1 := <[i := set_path_name (final_path dir count i)
                             (new_name (rename_digits count) i) it]> items).
    assert (Hlen1 : length items1 = length items) by apply length_insert.
    assert (Htf : temp_path dir i <> final_path dir count i)
      by (apply temp_path_not_final; lia).
    assert (Htemp1 : forall j, (j < m)%nat ->
              fs1 !! temp_path dir (S i + j) = fs !! temp_path dir (i + S j)).
    { intros j Hj. unfold fs1. replace (S i + j)%nat with (i + S j)%nat by lia.
      rewrite lookup_insert_ne
        by (apply not_eq_sym, temp_path_not_final; lia).
      rewrite lookup_delete_ne; [reflexivity|].
      intros Heq. apply temp_path_inj in Heq. lia. }
    assert (Hfinal1 : forall j, (j < m)%nat ->
              fs1 !! final_path dir count (S i + j) = None).
    { intros j Hj. unfold fs1.
      rewrite lookup_insert_ne
        by (intros Heq; apply final_path_inj in Heq; lia).
      apply lookup_delete_None. right.
      replace (S i + j)%nat with (i + S j)%nat by lia. apply Hfinal. lia. }
    destruct (IH (S i) fs1 items1 ltac:(lia) ltac:(lia))
      as [fs' [items' [Hrun [Hlen' [Hbefore [Hnew [Hmoved [Hgone Hframe]]]]]]]].
    { intros j Hj. rewrite (Htemp1 j Hj). apply Htemp. lia. }
    { exact Hfinal1. }
    exists fs', items'. split; [|split; [|split; [|split; [|split; [|split]]]]].
    + cbn [seq map rename_to_final].
      fold (final_path dir count i).
      rewrite (os_rename_fresh _ _ _ c Hc Hf0). fold fs1. rewrite Hit.
      fold items1. exact Hrun.
    + lia.
    + intros j Hj. rewrite (Hbefore j ltac:(lia)). unfold items1.
      apply list_lookup_insert_ne. lia.
    + intros [|j] e Hj He.
      * rewrite Nat.add_0_r in *. rewrite (Hbefore i ltac:(lia)).
        unfold items1. rewrite list_lookup_insert_eq by lia.
        congruence.
      * replace (i + S j)%nat with (S i + j)%nat in * by lia.
        apply Hnew; [lia|]. unfold items1.
        rewrite list_lookup_insert_ne by lia. exact He.
    + intros [|j] Hj.
      * rewrite Nat.add_0_r. rewrite Hframe.
        -- unfold fs1. rewrite lookup_insert_eq. now rewrite Hc.
        -- intros j Hj'. split.
           ++ apply not_eq_sym, temp_path_not_final. lia.
           ++ intros Heq. apply final_path_inj in Heq; lia.
      * replace (i + S j)%nat with (S i + j)%nat by lia.
        rewrite (Hmoved j ltac:(lia)). rewrite (Htemp1 j ltac:(lia)).
        now replace (i + S j)%nat with (S i + j)%nat by lia.
    + intros [|j] Hj.
      * rewrite Nat.add_0_r. rewrite Hframe.
        -- unfold fs1. rewrite lookup_insert_ne by congruence.
           apply lookup_delete_eq.
        -- intros j Hj'. split.
           ++ intros Heq. apply temp_path_inj in Heq. lia.
           ++ apply temp_path_not_final. lia.
      * replace (i + S j)%nat with (S i + j)%nat by lia. apply Hgone. lia.
    + intros p Hp. rewrite Hframe.
      * destruct (Hp 0%nat ltac:(lia)) as [H1 H2]. rewrite Nat.add_0_r in H1, H2.
        unfold fs1. rewrite lookup_insert_ne by congruence.
        now rewrite lookup_delete_ne by congruence.
      * intros j Hj. replace (S i + j)%nat with (i + S j)%nat by lia.
        apply Hp. lia.
Qed.

End Rename.

(** A confirmed rename moves every image file to its numbered name and
    touches nothing else, whether or not [os.rename] replaces existing
    files: the paths of the images are distinct existing files, no
    temporary name is taken, and a numbered name is free or belongs to
    one of the images.  The image of index [i] then has the content it
    had under the name [(i + 1) * 10], its entry carries the new path and
    name, an old path that is no numbered name is gone, and every other
    path is as before. *)
Theorem rename_moves_every_file :
  forall (replaces : bool) (fs : gmap string N) (st : app) (dir : string),
    directory st = Some dir ->
    NoDup (map e_path (images st)) ->
    (forall e, In e (images st) -> is_Some (fs !! e_path e)) ->
    let count := length (images st) in
    (forall i, (i < count)%nat -> fs !! temp_path dir i = None) ->
    (forall i, (i < count)%nat ->
       fs !! final_path dir count i = None
       \/ In (final_path dir count i) (map e_path (images st))) ->
    exists fs' st',
      _do_rename replaces true fs st = Normal (fs', st')
      /\ length (images st') = count
      /\ (forall i e, images st !! i = Some e ->
            fs' !! final_path dir count i = fs !! e_path e
            /\ images st' !! i
               = Some (set_path_name (final_path dir count i)
                         (new_name (rename_digits count) i) e))
      /\ (forall p, (forall i, (i < count)%nat -> p <> final_path dir count i) ->
            In p (map e_path (images st)) -> fs' !! p = None)
      /\ (forall p, (forall i, (i < count)%nat -> p <> final_path dir count i) ->
            ~ In p (map e_path (images st)) -> fs' !! p = fs !! p).
Proof.
  intros replaces fs st dir Hdir Hnd Hold count Htemp Hfinal.
  unfold _do_rename. subst count.
  destruct (images st) as [|it0 rest0] eqn:Eitems.
  { exists fs, st. rewrite Eitems.
    split; [reflexivity|]. split; [reflexivity|].
    split; [intros i e H; discriminate|]. split; [intros p _ []|]. auto. }
  cbv beta iota. rewrite <- Eitems in *. clear Eitems it0 rest0.
  set (items := images st) in *. set (count := length items) in *.
  rewrite Hdir. cbn [negb].
  destruct (rename_to_temp_spec replaces dir items 0 [] fs Hnd Hold)
    as [fs1 [Hrun1 [Hmoved1 [Hgone1 Hframe1]]]].
  { intros j Hj. apply Htemp. exact Hj. }
  cbn [Nat.add] in Hmoved1, Hframe1.
  rewrite Hrun1. cbn [Init.Datatypes.app]. fold count.
  assert (Hold_temp : forall e j, In e items -> (j < count)%nat ->
            e_path e <> temp_path dir j).
  { intros e j He Hj Heq. destruct (Hold e He) as [c Hc].
    specialize (Htemp j Hj). congruence. }
  destruct (rename_to_final_spec replaces dir count count 0 fs1 items
              eq_refl (Nat.le_refl _))
    as [fs2 [items' [Hrun2 [Hlen2 [_ [Hnew [Hmoved2 [Hgone2 Hframe2]]]]]]]].
  { intros j Hj. cbn [Nat.add].
    destruct (items !! j) as [e|] eqn:Ej;
      [|apply lookup_ge_None in Ej; unfold count in Hj; lia].
    rewrite (Hmoved1 j e Ej). apply Hold.
    apply list_elem_of_In, list_elem_of_lookup. eauto. }
  { intros j Hj. cbn [Nat.add].
    destruct (decide (final_path dir count j ∈ map e_path items)) as [Hin|Hout].
    - apply list_elem_of_In, in_map_iff in Hin as [e [Heq He]].
      rewrite <- Heq. now apply Hgone1.
    - rewrite Hframe1.
      + destruct (Hfinal j Hj) as [Hnone|Hin]; [exact Hnone|].
        destruct Hout. now apply list_elem_of_In.
      + intros Hin. apply Hout. now apply list_elem_of_In.
      + intros k Hk. apply not_eq_sym, temp_path_not_final. exact Hj. }
  cbn [Nat.add] in Hnew, Hmoved2, Hgone2, Hframe2.
  rewrite Hrun2.
  destruct (draw_grid_images items' st) as [Himgs _].
  exists fs2, (_draw_grid (set_images items' st)). rewrite Himgs.
  split; [reflexivity|]. split; [exact Hlen2|]. split; [|split].
  - intros i e Hi.
    assert (Hlt : (i < count)%nat) by (apply lookup_lt_Some in Hi; exact Hi).
    split.
    + rewrite (Hmoved2 i Hlt). apply (Hmoved1 i e Hi).
    + apply (Hnew i e Hlt Hi).
  - intros p Hp Hin.
    apply in_map_iff in Hin as [e [<- He]].
    rewrite Hframe2; [now apply Hgone1|].
    intros j Hj. split; [now apply Hold_temp | now apply Hp].
  - intros p Hp Hout.
    destruct (decide (p ∈ map (temp_path dir) (seq 0 count))) as [Hin|Hnt].
    + apply list_elem_of_In, in_map_iff in Hin as [j [<- Hj]].
      apply in_seq in Hj.
      rewrite (Hgone2 j ltac:(lia)). symmetry. apply Htemp. lia.
    + assert (Hnt' : forall j, (j < count)%nat -> p <> temp_path dir j).
      { intros j Hj ->. apply Hnt, list_elem_of_In, in_map, in_seq. lia. }
      rewrite Hframe2.
      * apply Hframe1; [exact Hout|]. intros j Hj. now apply Hnt'.
      * intros j Hj. split; [now apply Hnt' | now apply Hp].
Qed.

Lemma rename_moves_every_file_witness :
  exists fs' st',
    _do_rename false true demo_rename_fs demo_rename_app = Normal (fs', st')
    /\ length (images st') = 3%nat
    /\ (forall i e, images demo_rename_app !! i = Some e ->
          fs' !! final_path "/pics" 3 i = demo_rename_fs !! e_path e
          /\ images st' !! i
             = Some (set_path_name (final_path "/pics" 3 i)
                       (new_name (rename_digits 3) i) e))
    /\ (forall p, (forall i, (i < 3)%nat -> p <> final_path "/pics" 3 i) ->
          In p (map e_path (images demo_rename_app)) -> fs' !! p = None)
    /\ (forall p, (forall i, (i < 3)%nat -> p <> final_path "/pics" 3 i) ->
          ~ In p (map e_path (images demo_rename_app)) ->
          fs' !! p = demo_rename_fs !! p).
Proof.
  apply (rename_moves_every_file false demo_rename_fs demo_rename_app "/pics").
  - reflexivity.
  - apply (bool_decide_unpack _). vm_compute. exact I.
  - intros e He. cbn in He.
    destruct He as [<-|[<-|[<-|[]]]]; vm_compute; eauto.
  - intros i Hi. destruct i as [|[|[|i]]]; [vm_compute; reflexivity .. | cbn in Hi; lia].
  - intros i Hi.
    destruct i as [|[|[|i]]]; [right | left | left | cbn in Hi; lia];
      vm_compute; auto.
Defined.

Example rename_with_a_taken_name :
  match _do_rename false true demo_rename_fs demo_rename_app with
  | Normal (fs', st') =>
      map e_name (images st') = ["010.png"; "020.png"; "030.png"]
      /\ fs' !! "/pics/010.png" = Some 1%N
      /\ fs' !! "/pics/020.png" = Some 2%N
      /\ fs' !! "/pics/030.png" = Some 3%N
      /\ fs' !! "/pics/b.png" = None
      /\ fs' !! "/pics/notes.txt" = Some 4%N
  | Raises _ => False
  end.
Proof. vm_compute. auto 10. Qed.

Lemma rename_to_temp_app (replaces : bool) (dir : string) (l1 l2 : list entry) :
  forall (i : nat) (temp_map : list string) (fs : gmap string N),
    rename_to_temp replaces dir i (l1 ++ l2) temp_map fs
    = match rename_to_temp replaces dir i l1 temp_map fs with
      | Normal (fs1, temp_map1) =>
          rename_to_temp replaces dir (i + length l1) l2 temp_map1 fs1
      | Raises r => Raises r
      end.
Proof.
  induction l1 as [|it l1 IH]; intros i temp_map fs.
  - cbn [Init.Datatypes.app rename_to_temp length]. now rewrite Nat.add_0_r.
  - cbn [Init.Datatypes.app rename_to_temp length].
    destruct (os_rename replaces (e_path it) _ fs) as [fs'|]; [|reflexivity].
    rewrite IH. now replace (S i + length l1)%nat with (i + S (length l1))%nat by lia.
Qed.

(** A rename is not undone when it fails: if the file of an image is
    missing, [_do_rename] raises at that image, the files of the images
    before it stay under their temporary names, and the entries of the
    images still carry the old paths. *)
Theorem rename_stops_at_missing_file :
  forall (replaces : bool) (fs : gmap string N) (st : app) (dir : string)
         (before : list entry) (bad : entry) (after : list entry),
    directory st = Some dir ->
    images st = (before ++ bad :: after)%list ->
    NoDup (map e_path before) ->
    (forall e, In e before -> is_Some (fs !! e_path e)) ->
    (forall i, (i < length before)%nat -> fs !! temp_path dir i = None) ->
    fs !! e_path bad = None ->
    (forall i, (i < length before)%nat -> e_path bad <> temp_path dir i) ->
    exists fs',
      _do_rename replaces true fs st = Raises (fs', st)
      /\ (forall j e, before !! j = Some e ->
            fs' !! temp_path dir j = fs !! e_path e /\ fs' !! e_path e = None)
      /\ (forall p, ~ In p (map e_path before) ->
            (forall j, (j < length before)%nat -> p <> temp_path dir j) ->
            fs' !! p = fs !! p).
Proof.
  intros replaces fs st dir before bad after Hdir Himgs Hnd Hold Htemp Hbad Hbt.
  destruct (rename_to_temp_spec replaces dir before 0 [] fs Hnd Hold)
    as [fs1 [Hrun [Hmoved [Hgone Hframe]]]].
  { intros j Hj. apply Htemp. exact Hj. }
  cbn [Nat.add] in Hmoved, Hframe.
  assert (Hbad1 : fs1 !! e_path bad = None).
  { rewrite Hframe; [exact Hbad | | exact Hbt].
    intros Hin. apply in_map_iff in Hin as [e [Heq He]].
    destruct (Hold e He) as [c Hc]. congruence. }
  exists fs1. split; [|split].
  - unfold _do_rename. rewrite Himgs.
    assert (Hne : exists x l, (before ++ bad :: after)%list = x :: l).
    { destruct before; cbn; eauto. }
    destruct Hne as [x [l Hne]]. rewrite Hne at 1. cbv beta iota.
    rewrite Hdir. cbn [negb].
    rewrite rename_to_temp_app, Hrun. cbn [rename_to_temp].
    unfold os_rename. now rewrite Hbad1.
  - intros j e Hj. split; [now apply Hmoved|].
    apply Hgone, list_elem_of_In, list_elem_of_lookup. eauto.
  - exact Hframe.
Qed.

Lemma rename_stops_at_missing_file_witness :
  exists fs',
    _do_rename false true demo_rename_fs
      (set_images [demo_entry "b.png"; demo_entry "gone.png"; demo_entry "a.png"]
         demo_rename_app)
    = Raises (fs',
              set_images
                [demo_entry "b.png"; demo_entry "gone.png"; demo_entry "a.png"]
                demo_rename_app)
    /\ (forall j e, [demo_entry "b.png"] !! j = Some e ->
          fs' !! temp_path "/pics" j = demo_rename_fs !! e_path e
          /\ fs' !! e_path e = None)
    /\ (forall p, ~ In p (map e_path [demo_entry "b.png"]) ->
          (forall j, (j < length [demo_entry "b.png"])%nat ->
             p <> temp_path "/pics" j) ->
          fs' !! p = demo_rename_fs !! p).
Proof.
  apply (rename_stops_at_missing_file false demo_rename_fs _ "/pics"
           [demo_entry "b.png"] (demo_entry "gone.png") [demo_entry "a.png"]).
  - reflexivity.
  - reflexivity.
  - apply (bool_decide_unpack _). vm_compute. exact I.
  - intros e [<-|[]]. vm_compute. eauto.
  - intros [|i] Hi; [vm_compute; reflexivity | cbn in Hi; lia].
  - vm_compute. reflexivity.
  - intros [|i] Hi; [vm_compute; discriminate | cbn in Hi; lia].
Defined.

(** *** The name of a loaded image *)

Lemma append_snoc (acc : string) (c : ascii) (f : string) :
  (acc ++ String c "") ++ f = acc ++ String c f.
Proof.
  induction acc as [|a acc IH]; [reflexivity|].
  change (String a ((acc ++ String c "") ++ f) = String a (acc ++ String c f)).
  now rewrite IH.
Qed.

Lemma basename_from_no_slash (f : string) :
  forall acc, contains_slash f = false -> basename_from acc f = acc ++ f.
Proof.
  induction f as [|c f IH]; intros acc Hf; cbn [basename_from].
  - clear. induction acc as [|a acc IH]; [reflexivity|].
    change (String a acc = String a (acc ++ "")). now rewrite <- IH.
  - cbn [contains_slash] in Hf. apply orb_false_iff in Hf as [Hc Hf].
    rewrite Hc, IH by exact Hf. apply append_snoc.
Qed.

Lemma basename_from_app (a b : string) :
  forall acc,
    basename_from acc (a ++ b) = basename_from (basename_from acc a) b.
Proof.
  induction a as [|c a IH]; intros acc; [reflexivity|].
  change (String c a ++ b) with (String c (a ++ b)). cbn [basename_from].
  destruct (Ascii.eqb c "/"); apply IH.
Qed.

Lemma endswith_slash (s : string) :
  endswith s "/" = true -> exists s', s = s' ++ "/".
Proof.
  unfold endswith. cbn [String.length].
  intros H. apply andb_true_iff in H as [Hlen H].
  apply Nat.leb_le in Hlen. apply String.eqb_eq in H.
  induction s as [|c s IH]; [cbn in Hlen; lia|].
  destruct s as [|c' s'].
  - cbn in H. exists "". exact H.
  - destruct IH as [r Hr].
    + cbn [String.length]. lia.
    + cbn [String.length] in H |- *.
      replace (S (S (String.length s')) - 1)%nat
        with (S (S (String.length s') - 1)) in H by lia.
      exact H.
    + exists (String c r). rewrite Hr. reflexivity.
Qed.

(** The worker names an image by its name in the folder listing: for the
    path that [_load_images] builds from the folder and a listed name,
    the worker returns that path and that name. *)
Theorem worker_names_the_listed_file :
  forall {pyfloat : Type} (float_str : pyfloat -> string) (e : env pyfloat)
         (dir f : string) (thumb_sizes : list Z) (cache_dir : string) (d : disk),
    contains_slash f = false ->
    let result :=
      fst (_process_image_worker float_str e (path_join dir f) thumb_sizes
             cache_dir d) in
    fst (fst result) = path_join dir f /\ snd (fst result) = f.
Proof.
  intros pyfloat float_str e dir f thumb_sizes cache_dir d Hf. cbn zeta.
  unfold _process_image_worker. cbn [fst snd]. split; [reflexivity|].
  unfold basename, path_join.
  destruct (String.eqb dir "").
  - now rewrite basename_from_no_slash.
  - destruct (endswith dir "/") eqn:E.
    + apply endswith_slash in E as [s' ->].
      rewrite !basename_from_app. cbn [basename_from Ascii.eqb].
      now rewrite basename_from_no_slash.
    + rewrite !basename_from_app.
      change (basename_from (basename_from "" dir) "/") with "".
      now rewrite basename_from_no_slash.
Qed.

Lemma worker_names_the_listed_file_witness :
  let result :=
    fst (_process_image_worker whole_seconds_str demo_env_ok
           (path_join "/pics" "a.png") THUMB_SIZES "/cache" demo_disk) in
  fst (fst result) = path_join "/pics" "a.png" /\ snd (fst result) = "a.png".
Proof.
  apply (worker_names_the_listed_file whole_seconds_str demo_env_ok "/pics"
           "a.png" THUMB_SIZES "/cache" demo_disk).
  reflexivity.
Defined.

(** *** The insert marker *)





